(** * Agentic-pattern catalogue: a shallow embedding of the control flow

    The repository is a set of independent Python demonstration scripts
    sharing one LLM client wrapper ([utils/llm_provider.py]).  This file
    embeds the parts of those scripts that carry behaviour worth stating:

    - [LLMProvider]       : provider detection, the construction of the
                            client and the [generate] pass-through;
    - [ExceptionHandling] : the retry loop, the fallback chain and the
                            simulated services of pattern 12;
    - [StateMachines]     : the table-driven state machine and the
                            hierarchical machine of pattern 26;
    - [PEV]               : planning fallback, the execute-and-verify loop
                            and [solve] of pattern 35;
    - [TreeOfThoughts]    : thought nodes, JSON fallbacks, the level-wise
                            tree construction and the search for the best
                            solution of pattern 38.

    Conventions.  Python [int] is [Z]; a Python [float] that is only
    compared, or is the quotient of two integers, is represented by its
    exact rational value ([Q]); [str] is [string]
    (text is taken to be ASCII, one character per [ascii]); a [dict] keyed by
    strings is a [gmap string _], a JSON object the list of its items; an
    exception is a value of [Py.exn] and a call that may raise returns a
    [Py.result].  Everything outside the
    repository (the vendor SDKs, the LLM itself, [random.random], the clock,
    [json.loads]) is an explicit input of the function that uses it. *)

From Stdlib Require Import ZArith QArith String Ascii List Lia Bool.
From stdpp Require Import base option list gmap strings.

#[local] Set Warnings "-register-all,-clear-no-such-hyp".

Open Scope string_scope.
Open Scope list_scope.

(* ===================================================================== *)
(** * Python runtime model                                                *)
(* ===================================================================== *)

Module Py.

(** Exception classes that occur in the embedded code.  [Other] stands
    for any further subclass of [Exception] (vendor SDK errors and the
    like), identified by its class name. *)
Inductive exn : Type :=
| Exception (msg : string)
| ValueError (msg : string)
| TypeError (msg : string)
| KeyError (key : string)
| AttributeError (msg : string)
| UnboundLocalError (msg : string)
| JSONDecodeError (msg : string)
| ServiceError (msg : string)
| Other (cls msg : string).

(** [str(e)] *)
Definition str (e : exn) : string :=
  match e with
  | Exception m | ValueError m | TypeError m | AttributeError m
  | UnboundLocalError m | JSONDecodeError m | ServiceError m => m
  | KeyError k => "'" +:+ k +:+ "'"
  | Other _ m => m
  end.

Inductive result (A : Type) : Type :=
| Ok (a : A)
| Raise (e : exn).
Arguments Ok {A} a.
Arguments Raise {A} e.

Definition is_ok {A} (r : result A) : bool :=
  match r with Ok _ => true | Raise _ => false end.

(** Truthiness of [os.getenv(k)]: [None] and the empty string are falsy. *)
Definition truthy_str_opt (o : option string) : bool :=
  match o with
  | Some s => negb (String.eqb s "")
  | None => false
  end.

(** ** Strings *)

(** [s[n:]] for [0 <= n] *)
Fixpoint drop_prefix (n : nat) (s : string) : string :=
  match n, s with
  | S n', String _ s' => drop_prefix n' s'
  | _, _ => s
  end.

(** The first occurrence of [sep] in [s]: the text before it and the text
    after it. *)
Fixpoint split_at (sep s : string) : option (string * string) :=
  if String.prefix sep s then Some ("", drop_prefix (String.length sep) s)
  else
    match s with
    | EmptyString => None
    | String c s' =>
        match split_at sep s' with
        | Some (before, after) => Some (String c before, after)
        | None => None
        end
    end.

(** [sep in s] *)
Definition contains (sep s : string) : bool :=
  match split_at sep s with Some _ => true | None => false end.

(** [s.split(sep)] for a non-empty separator: [n] bounds the number of
    cuts, and the length of [s] is always enough. *)
Fixpoint split_upto (n : nat) (sep s : string) : list string :=
  match n with
  | O => [s]
  | S n' =>
      match split_at sep s with
      | None => [s]
      | Some (before, after) => before :: split_upto n' sep after
      end
  end.

Definition split (sep s : string) : list string :=
  split_upto (String.length s) sep s.

(** Whitespace as [str.strip()] sees it on ASCII text. *)
Definition is_space (c : ascii) : bool :=
  let n := nat_of_ascii c in
  ((9 <=? n) && (n <=? 13) || (28 <=? n) && (n <=? 32))%nat.

Fixpoint lstrip (s : string) : string :=
  match s with
  | String c s' => if is_space c then lstrip s' else s
  | EmptyString => EmptyString
  end.

Definition rstrip (s : string) : string :=
  String.rev (lstrip (String.rev s)).

Definition strip (s : string) : string := rstrip (lstrip s).

(** [l[i]] on a list of strings *)
Definition item (l : list string) (i : nat) : result string :=
  match l !! i with
  | Some x => Ok x
  | None => Raise (Other "IndexError" "list index out of range")
  end.

(** ** JSON values, as [json.loads] produces them *)

Inductive pyfloat : Type :=
| Finite (q : Q)
| PosInf
| NegInf
| NaN.

(** A [dict] is the list of its items, keys distinct. *)
Inductive json : Type :=
| JNull
| JBool (b : bool)
| JInt (n : Z)
| JFloat (f : pyfloat)
| JStr (s : string)
| JArr (items : list json)
| JObj (fields : list (string * json)).

Fixpoint lookup_field (k : string) (fields : list (string * json)) : option json :=
  match fields with
  | [] => None
  | (k', v) :: rest => if String.eqb k k' then Some v else lookup_field k rest
  end.

(** [bool(v)] *)
Definition truthy (v : json) : bool :=
  match v with
  | JNull => false
  | JBool b => b
  | JInt n => negb (n =? 0)%Z
  | JFloat (Finite q) => negb (Qeq_bool q 0)
  | JFloat _ => true
  | JStr s => negb (String.eqb s "")
  | JArr items => match items with [] => false | _ => true end
  | JObj fields => match fields with [] => false | _ => true end
  end.

(** [v[k]] for a string key *)
Definition subscript (v : json) (k : string) : result json :=
  match v with
  | JObj fields =>
      match lookup_field k fields with
      | Some x => Ok x
      | None => Raise (KeyError k)
      end
  | JArr _ => Raise (TypeError "list indices must be integers or slices, not str")
  | JStr _ => Raise (TypeError "string indices must be integers, not 'str'")
  | _ => Raise (TypeError "object is not subscriptable")
  end.

(** [v.get(k, default)] *)
Definition get (v : json) (k : string) (default : json) : result json :=
  match v with
  | JObj fields =>
      match lookup_field k fields with
      | Some x => Ok x
      | None => Ok default
      end
  | _ => Raise (AttributeError "object has no attribute 'get'")
  end.

(** [k in v] for a string key and a dict [v] *)
Definition has_key (k : string) (fields : list (string * json)) : bool :=
  match lookup_field k fields with Some _ => true | None => false end.

(** [l[:n]]: a negative bound counts from the end. *)
Definition slice_to {A} (n : Z) (l : list A) : list A :=
  if (0 <=? n)%Z then take (Z.to_nat n) l
  else take (Z.to_nat (Z.of_nat (List.length l) + n)) l.

(** [v[:n]]; slicing a dict raises ([TypeError] up to Python 3.11,
    [KeyError] from 3.12 on: the former is taken here). *)
Definition slice (v : json) (n : Z) : result json :=
  match v with
  | JArr items => Ok (JArr (slice_to n items))
  | JStr s => Ok (JStr (string_of_list_ascii (slice_to n (list_ascii_of_string s))))
  | JObj _ => Raise (TypeError "unhashable type: 'slice'")
  | _ => Raise (TypeError "object is not subscriptable")
  end.

(** The items a [for] loop draws from a list or a string. *)
Definition iterate (v : json) : result (list json) :=
  match v with
  | JArr items => Ok items
  | JStr s => Ok ((λ c, JStr (String c EmptyString)) <$> list_ascii_of_string s)
  | JObj fields => Ok ((λ kv, JStr kv.1) <$> fields)
  | _ => Raise (TypeError "object is not iterable")
  end.

(** [sep.join(l)]: every item has to be a [str]. *)
Fixpoint join (sep : string) (l : list json) : result string :=
  match l with
  | [] => Ok ""
  | [JStr s] => Ok s
  | JStr s :: rest =>
      match join sep rest with
      | Ok t => Ok (s +:+ sep +:+ t)
      | Raise e => Raise e
      end
  | _ => Raise (TypeError "sequence item: expected str instance")
  end.

(** [f"{v:.1f}"] succeeds on numbers only (its text is not modelled). *)
Definition format_1f (v : json) : result unit :=
  match v with
  | JInt _ | JFloat _ | JBool _ => Ok tt
  | JStr _ => Raise (ValueError "Unknown format code 'f' for object of type 'str'")
  | _ => Raise (TypeError "unsupported format string")
  end.

(** [v >= 6.0] *)
Definition ge_6 (v : json) : result bool :=
  match v with
  | JInt n => Ok (6 <=? n)%Z
  | JBool _ => Ok false
  | JFloat (Finite q) => Ok (Qle_bool 6 q)
  | JFloat PosInf => Ok true
  | JFloat _ => Ok false
  | _ => Raise (TypeError "'>=' not supported")
  end.

(** The text handed to [json.loads]: the body of the first fenced block
    when there is one, the whole response otherwise. *)
Definition extract_json (response : string) : result string :=
  if contains "```json" response then
    match item (split "```json" response) 1 with
    | Ok inner =>
        match item (split "```" inner) 0 with
        | Ok body => Ok (strip body)
        | Raise e => Raise e
        end
    | Raise e => Raise e
    end
  else if contains "```" response then
    match item (split "```" response) 1 with
    | Ok inner =>
        match item (split "```" inner) 0 with
        | Ok body => Ok (strip body)
        | Raise e => Raise e
        end
    | Raise e => Raise e
    end
  else Ok response.

(** The parsing step shared by the patterns: [json.loads] (an input, as
    the library function it is) applied to the extracted text. *)
Definition parse_response (json_loads : string → result json)
    (response : string) : result json :=
  match extract_json response with
  | Ok json_str => json_loads json_str
  | Raise e => Raise e
  end.

(** ** Computations with state, exceptions and a step bound

    [None] stands for a loop that was cut off by its bound. *)
Definition M (W A : Type) : Type := W → option (result A * W).

Definition ret {W A} (a : A) : M W A := λ w, Some (Ok a, w).

Definition raise {W A} (e : exn) : M W A := λ w, Some (Raise e, w).

Definition cut_off {W A} : M W A := λ _, None.

Definition bind {W A B} (m : M W A) (k : A → M W B) : M W B :=
  λ w, match m w with
       | None => None
       | Some (Raise e, w') => Some (Raise e, w')
       | Some (Ok a, w') => k a w'
       end.

Definition lift {W A} (r : result A) : M W A := λ w, Some (r, w).

(** A computation that is never cut off by a step bound. *)
Definition total {W A} (m : M W A) : Prop := ∀ w, is_Some (m w).

(** [wp m Q w]: started in [w], the computation [m] is not cut off by a
    step bound, and when it returns normally its result and final state
    satisfy [Q].  Nothing is asked of a run that raises. *)
Definition wp {W A} (m : M W A) (Q : A → W → Prop) (w : W) : Prop :=
  match m w with
  | Some (Ok a, w') => Q a w'
  | Some (Raise _, _) => True
  | None => False
  end.

End Py.

Import Py.

#[global] Instance result_ret : MRet Py.result := λ A a, Py.Ok a.
#[global] Instance result_bind : MBind Py.result :=
  λ A B k r, match r with Py.Ok a => k a | Py.Raise e => Py.Raise e end.

#[global] Instance M_ret {W} : MRet (Py.M W) := λ A a, Py.ret a.
#[global] Instance M_bind {W} : MBind (Py.M W) := λ A B k m, Py.bind m k.

(* ===================================================================== *)
(** * utils/llm_provider.py                                               *)
(* ===================================================================== *)

Module LLMProvider.

(** ** Provider detection *)

(** [os.environ] after [load_dotenv()]. *)
Abbreviation environ := (gmap string string).

Definition getenv (env : environ) (k : string) : option string := env !! k.

(** [_check_ollama]: the outcome of
    [requests.get("http://localhost:11434/api/tags", timeout=2)] is an
    input, either the status code of the response or the exception the
    request raised.  The bare [except:] turns every exception into
    [False]. *)
Definition _check_ollama (probe : result Z) : bool :=
  match probe with
  | Ok status_code => (status_code =? 200)%Z
  | Raise _ => false
  end.

Definition no_key_message : string :=
  "No API key found! Set OPENAI_API_KEY, GOOGLE_API_KEY, ANTHROPIC_API_KEY, FIREWORKS_API_KEY, MISTRAL_API_KEY, or run Ollama locally".

Definition _detect_provider (env : environ) (probe : result Z) : result string :=
  if truthy_str_opt (getenv env "OPENAI_API_KEY") then Ok "openai"
  else if truthy_str_opt (getenv env "GOOGLE_API_KEY") then Ok "gemini"
  else if truthy_str_opt (getenv env "ANTHROPIC_API_KEY") then Ok "anthropic"
  else if truthy_str_opt (getenv env "FIREWORKS_API_KEY") then Ok "fireworks"
  else if truthy_str_opt (getenv env "MISTRAL_API_KEY") then Ok "mistral"
  else if _check_ollama probe then Ok "ollama"
  else Raise (ValueError no_key_message).

(** The detection order as the specification words it: a variable counts
    as soon as it is set, the Ollama endpoint as soon as it responds. *)
Definition is_set (env : environ) (k : string) : bool :=
  bool_decide (is_Some (env !! k)).

Definition responds (probe : result Z) : bool := is_ok probe.

Definition detect_provider_by_presence (env : environ) (probe : result Z)
  : result string :=
  if is_set env "OPENAI_API_KEY" then Ok "openai"
  else if is_set env "GOOGLE_API_KEY" then Ok "gemini"
  else if is_set env "ANTHROPIC_API_KEY" then Ok "anthropic"
  else if is_set env "FIREWORKS_API_KEY" then Ok "fireworks"
  else if is_set env "MISTRAL_API_KEY" then Ok "mistral"
  else if responds probe then Ok "ollama"
  else Raise (ValueError no_key_message).

(** A variable that is set to a non-empty value. *)
Definition has_value (env : environ) (k : string) : Prop :=
  ∃ v, env !! k = Some v ∧ v ≠ "".

(** ** The [generate] pass-through *)

Record LLMResponse := {
  content : string;
  model : string;
  provider : string
}.

(** The attributes of a [SimpleLLM] instance that [generate] reads.  The
    [client] object is represented by the calls made on it. *)
Record SimpleLLM := {
  self_provider : string;
  self_model : string
}.

(** One call into a vendor SDK (or [requests]), with its arguments. *)
Inductive sdk_call : Type :=
| ChatCompletionsCreate (vendor model prompt : string) (temperature : Q)
| GenerateContent (prompt : string)
| MessagesCreate (model : string) (max_tokens : Z) (temperature : Q)
                 (prompt : string)
| RequestsPost (url model prompt : string) (stream : bool).

(** What such a call hands back, as far as [generate] looks into it. *)
Inductive sdk_response : Type :=
| ChatCompletion (choices : list string)
    (* response.choices[i].message.content *)
| GenerateContentResponse (text : result string)
    (* response.text is a property and may itself raise *)
| Message (blocks : list string)
    (* response.content[i].text *)
| HttpResponse (status_code : Z) (json : result (gmap string string)).
    (* requests.Response: raise_for_status() and json() *)

(** The outside world: an oracle answering the [n]-th SDK call, and the
    log of the calls made so far. *)
Definition backend := nat → sdk_call → result sdk_response.

Definition world := list sdk_call.

Definition invoke (sdk : backend) (c : sdk_call) (w : world)
  : result sdk_response * world :=
  (sdk (List.length w) c, w ++ [c]).

Definition first_item (what : string) (l : list string) : result string :=
  match l with
  | x :: _ => Ok x
  | [] => Raise (Other "IndexError" (what +:+ " index out of range"))
  end.

(** [response.raise_for_status()] *)
Definition raise_for_status (status_code : Z) : result unit :=
  if ((400 <=? status_code) && (status_code <? 600))%Z
  then Raise (Other "HTTPError" "HTTP error")
  else Ok tt.

(** The expression each branch evaluates on the response it received.
    A response object of another vendor's shape lacks the attribute. *)
Definition extract (prov : string) (r : sdk_response) : result string :=
  if String.eqb prov "openai" || String.eqb prov "fireworks"
     || String.eqb prov "mistral" then
    match r with
    | ChatCompletion choices => first_item "list" choices
    | _ => Raise (AttributeError "choices")
    end
  else if String.eqb prov "gemini" then
    match r with
    | GenerateContentResponse text => text
    | _ => Raise (AttributeError "text")
    end
  else if String.eqb prov "anthropic" then
    match r with
    | Message blocks => first_item "list" blocks
    | _ => Raise (AttributeError "content")
    end
  else
    match r with
    | HttpResponse status_code json =>
        match raise_for_status status_code with
        | Raise e => Raise e
        | Ok _ =>
            match json with
            | Raise e => Raise e
            | Ok body =>
                match body !! "response" with
                | Some t => Ok t
                | None => Raise (KeyError "response")
                end
            end
        end
    | _ => Raise (AttributeError "raise_for_status")
    end.

(** The call of the branch selected by [self.provider]; [None] when no
    branch of the [if/elif] chain matches. *)
Definition completion_call (self : SimpleLLM) (prompt : string)
    (temperature : Q) : option sdk_call :=
  let p := self_provider self in
  if String.eqb p "openai" || String.eqb p "fireworks"
     || String.eqb p "mistral" then
    Some (ChatCompletionsCreate p (self_model self) prompt temperature)
  else if String.eqb p "gemini" then
    Some (GenerateContent prompt)
  else if String.eqb p "anthropic" then
    Some (MessagesCreate (self_model self) 1000 temperature prompt)
  else if String.eqb p "ollama" then
    Some (RequestsPost "http://localhost:11434/api/generate"
            (self_model self) prompt false)
  else None.

(** The [try] block of [generate]. *)
Definition generate_body (sdk : backend) (self : SimpleLLM)
    (prompt : string) (temperature : Q) (w : world)
  : result LLMResponse * world :=
  match completion_call self prompt temperature with
  | Some c =>
      let '(r, w') := invoke sdk c w in
      match r with
      | Raise e => (Raise e, w')
      | Ok resp =>
          match extract (self_provider self) resp with
          | Raise e => (Raise e, w')
          | Ok text =>
              (Ok {| content := text;
                     model := self_model self;
                     provider := self_provider self |}, w')
          end
      end
  | None =>
      (* no branch assigned [content] *)
      (Raise (UnboundLocalError
                "cannot access local variable 'content' where it is not associated with a value"),
       w)
  end.

(** [generate]: the [except Exception as e] clause wraps whatever the
    [try] block raised. *)
Definition generate (sdk : backend) (self : SimpleLLM) (prompt : string)
    (temperature : Q) (w : world) : result LLMResponse * world :=
  let '(r, w') := generate_body sdk self prompt temperature w in
  match r with
  | Ok resp => (Ok resp, w')
  | Raise e =>
      (Raise (Exception ("Error with " +:+ self_provider self +:+ ": " +:+ str e)),
       w')
  end.

Definition supported (p : string) : Prop :=
  p ∈ ["openai"; "gemini"; "anthropic"; "fireworks"; "mistral"; "ollama"].

(** ** Construction *)

(** The table of [_get_default_model]. *)
Definition defaults : gmap string string :=
  list_to_map [
    ("openai", "gpt-3.5-turbo");
    ("gemini", "gemini-1.5-flash");
    ("anthropic", "claude-3-sonnet-20240229");
    ("fireworks", "accounts/fireworks/models/llama-v3p1-8b-instruct");
    ("mistral", "mistral-small-latest");
    ("ollama", "llama3.2")
  ].

(** [defaults.get(self.provider, "gpt-3.5-turbo")] *)
Definition _get_default_model (provider : string) : string :=
  default "gpt-3.5-turbo" (defaults !! provider).

(** [_create_client]: for the five SDK-backed providers the import of the
    vendor package and the construction of its client are an input,
    [sdk_client vendor]; Ollama and any other name get no client. *)
Definition _create_client (sdk_client : string → result unit)
    (provider : string) : result unit :=
  if bool_decide (provider ∈ ["openai"; "gemini"; "anthropic"; "fireworks";
                              "mistral"])
  then sdk_client provider
  else Ok tt.

(** [SimpleLLM.__init__(provider, model)], the arguments being [None] or
    a string. *)
Definition SimpleLLM_init (env : environ) (probe : result Z)
    (sdk_client : string → result unit)
    (provider model : option string) : result SimpleLLM :=
  p ← (if truthy_str_opt provider then Ok (default "" provider)
       else _detect_provider env probe);
  let m := if truthy_str_opt model then default "" model
           else _get_default_model p in
  _create_client sdk_client p;;
  Ok {| self_provider := p; self_model := m |}.

End LLMProvider.

(* ===================================================================== *)
(** * patterns/12_exception_handling.py                                   *)
(* ===================================================================== *)

Module ExceptionHandling.

(** What the script does to the outside: invocations of the operation
    under retry, [time.sleep] and the lines it prints (each f-string is a
    constructor, its holes are the arguments). *)
Inductive event : Type :=
| Called (attempt : Z)
| Slept (seconds : Q)
| PrintedSuccess (attempt_no : Z)
| PrintedFailed (attempt_no : Z) (message : string)
| PrintedWaiting (wait_time : Z).

Record PrimaryService := { success_rate : Q }.

(** [PrimaryService()]: the default [success_rate=0.7], the double
    nearest to 7/10. *)
Definition PrimaryService_default : PrimaryService :=
  {| success_rate := 3152519739159347 # 4503599627370496 |}.

(** [random.random() > self.success_rate] on the exact values. *)
Definition gt (x y : Q) : bool := negb (Qle_bool x y).

(** [PrimaryService.get_data], with the draw [r] of [random.random()]
    as an input. *)
Definition get_data (self : PrimaryService) (r : Q) (query : string)
  : result string * list event :=
  if gt r (success_rate self) then
    (Raise (ServiceError ("Primary service failed for query: " +:+ query)), [])
  else
    (* time.sleep(0.1) *)
    (Ok ("Primary service result for: " +:+ query),
     [Slept (3602879701896397 # 36028797018963968)]).

Record ExceptionHandler := {
  retry_count : Z;
  max_retries : Z
}.

(** [ExceptionHandler.__init__] (the services and the LLM handle play no
    part in the retry loop). *)
Definition ExceptionHandler_init : ExceptionHandler :=
  {| retry_count := 0; max_retries := 3 |}.

(** [range(n)] *)
Definition range (n : Z) : list Z := Z.of_nat <$> seq 0 (Z.to_nat n).

Section Retry.
Context {A : Type}.
(** The operation under retry: the outcome of its [n]-th invocation
    (counted from 0).  It is invoked afresh on every attempt. *)
Variable operation : nat → result A.

(** The body of [for attempt in range(self.max_retries)], followed by
    [raise last_exception] once the range is exhausted. *)
Fixpoint retry_loop (self : ExceptionHandler) (attempts : list Z)
    (last_exception : option exn) (log : list event)
  : result A * list event :=
  match attempts with
  | [] =>
      match last_exception with
      | Some e => (Raise e, log)
      | None => (Raise (TypeError "exceptions must derive from BaseException"), log)
      end
  | attempt :: rest =>
      let log := log ++ [Called attempt] in
      match operation (Z.to_nat attempt) with
      | Ok v =>
          (Ok v,
           if (0 <? attempt)%Z then log ++ [PrintedSuccess (attempt + 1)] else log)
      | Raise e =>
          let log := log ++ [PrintedFailed (attempt + 1) (str e)] in
          let log :=
            if (attempt <? max_retries self - 1)%Z then
              let wait_time := (2 ^ attempt)%Z in
              log ++ [PrintedWaiting wait_time; Slept (inject_Z wait_time)]
            else log in
          retry_loop self rest (Some e) log
      end
  end.

Definition handle_with_retry (self : ExceptionHandler) : result A * list event :=
  retry_loop self (range (max_retries self)) None [].

End Retry.

(** The invocations and sleeps of a log, in order. *)
Definition is_print (e : event) : bool :=
  match e with
  | Called _ | Slept _ => false
  | _ => true
  end.

Definition effects (log : list event) : list event :=
  List.filter (λ e, negb (is_print e)) log.

Definition calls (log : list event) : nat :=
  List.length (List.filter (λ e, match e with Called _ => true | _ => false end) log).

(** ** Fallback *)

(** [FallbackService.get_data] *)
Definition fallback_get_data (query : string) : result string * list event :=
  (* time.sleep(0.2) *)
  (Ok ("Fallback service result for: " +:+ query),
   [Slept (3602879701896397 # 18014398509481984)]).

(** What [handle_with_fallback] does to the outside: it invokes the two
    operations, whose own effects are kept, and may ask the LLM for an
    error message. *)
Inductive recovery_step : Type :=
| PrimaryTried
| FallbackTried
| Effect (e : event)
| ErrorPrompt (primary_error fallback_error : string).

(** [handle_with_fallback]: [primary] and [fallback] are what the two
    operations do when they are invoked (outcome and effects); [llm] is
    [self.llm.generate(prompt).content] for the prompt of
    [_generate_error_response], whose holes are the two error texts. *)
Definition handle_with_fallback (llm : string → string → result string)
    (primary fallback : result string * list event)
  : result string * list recovery_step :=
  let log := PrimaryTried :: (Effect <$> primary.2) in
  match primary.1 with
  | Ok v => (Ok v, log)
  | Raise e =>
      let log := log ++ FallbackTried :: (Effect <$> fallback.2) in
      match fallback.1 with
      | Ok v => (Ok v, log)
      | Raise fallback_error =>
          (llm (str e) (str fallback_error),
           log ++ [ErrorPrompt (str e) (str fallback_error)])
      end
  end.

(** [get_data_with_recovery], with the draw [r] of the primary service. *)
Definition get_data_with_recovery (llm : string → string → result string)
    (primary_service : PrimaryService) (r : Q) (query : string)
  : result string * list recovery_step :=
  handle_with_fallback llm (get_data primary_service r query)
    (fallback_get_data query).

(** [get_data_with_retry]: [draws n] is the draw of the primary service
    at its [n]-th invocation. *)
Definition get_data_with_retry (self : ExceptionHandler)
    (primary_service : PrimaryService) (draws : nat → Q) (query : string)
  : result string * list event :=
  handle_with_retry (λ n, (get_data primary_service (draws n) query).1) self.

(** The invocations and sleeps of a run that reaches attempt [k]:
    attempt 0, 1 s, attempt 1, 2 s, ..., attempt [k]. *)
Fixpoint schedule (k : nat) : list event :=
  match k with
  | O => [Called 0]
  | S k' =>
      schedule k'
      ++ [Slept (inject_Z (2 ^ Z.of_nat k')); Called (Z.of_nat k)]
  end.

(** The invocations and sleeps logged before attempt [a] starts. *)
Definition backlog (a : nat) : list event :=
  match a with
  | O => []
  | S a' => schedule a' ++ [Slept (inject_Z (2 ^ Z.of_nat a'))]
  end.

(** The seconds slept in a log (all of them whole numbers here). *)
Fixpoint slept (log : list event) : Q :=
  match log with
  | [] => 0
  | Slept s :: rest => s + slept rest
  | _ :: rest => slept rest
  end.

End ExceptionHandling.

(* ===================================================================== *)
(** * patterns/26_state_machines.py                                       *)
(* ===================================================================== *)

Module StateMachines.

Inductive AgentState : Type :=
| IDLE | LISTENING | PROCESSING | RESPONDING | ERROR | SLEEPING.

Inductive Event : Type :=
| USER_INPUT | PROCESSING_COMPLETE | ERROR_OCCURRED | TIMEOUT
| SLEEP_COMMAND | WAKE_COMMAND | RESET_COMMAND.

(** The [.value] of the enum members. *)
Definition state_value (s : AgentState) : string :=
  match s with
  | IDLE => "idle" | LISTENING => "listening" | PROCESSING => "processing"
  | RESPONDING => "responding" | ERROR => "error" | SLEEPING => "sleeping"
  end.

Definition event_value (e : Event) : string :=
  match e with
  | USER_INPUT => "user_input"
  | PROCESSING_COMPLETE => "processing_complete"
  | ERROR_OCCURRED => "error_occurred"
  | TIMEOUT => "timeout"
  | SLEEP_COMMAND => "sleep_command"
  | WAKE_COMMAND => "wake_command"
  | RESET_COMMAND => "reset_command"
  end.

#[global] Instance AgentState_eq_dec : EqDecision AgentState.
Proof. solve_decision. Defined.

#[global] Instance Event_eq_dec : EqDecision Event.
Proof. solve_decision. Defined.

Definition AgentState_code (s : AgentState) : nat :=
  match s with
  | IDLE => 0 | LISTENING => 1 | PROCESSING => 2
  | RESPONDING => 3 | ERROR => 4 | SLEEPING => 5
  end.

Definition AgentState_of_code (n : nat) : AgentState :=
  match n with
  | 0 => IDLE | 1 => LISTENING | 2 => PROCESSING
  | 3 => RESPONDING | 4 => ERROR | _ => SLEEPING
  end.

Definition Event_code (e : Event) : nat :=
  match e with
  | USER_INPUT => 0 | PROCESSING_COMPLETE => 1 | ERROR_OCCURRED => 2
  | TIMEOUT => 3 | SLEEP_COMMAND => 4 | WAKE_COMMAND => 5
  | RESET_COMMAND => 6
  end.

Definition Event_of_code (n : nat) : Event :=
  match n with
  | 0 => USER_INPUT | 1 => PROCESSING_COMPLETE | 2 => ERROR_OCCURRED
  | 3 => TIMEOUT | 4 => SLEEP_COMMAND | 5 => WAKE_COMMAND
  | _ => RESET_COMMAND
  end.

#[global] Instance AgentState_countable : Countable AgentState.
Proof.
  refine (inj_countable' AgentState_code AgentState_of_code _).
  intros []; reflexivity.
Defined.

#[global] Instance Event_countable : Countable Event.
Proof.
  refine (inj_countable' Event_code Event_of_code _).
  intros []; reflexivity.
Defined.

(** Values stored in [data] and [context] dictionaries. *)
Inductive pyval : Type :=
| PStr (s : string)
| PBool (b : bool).

(** [str(v)], as an f-string renders it. *)
Definition pyval_str (v : pyval) : string :=
  match v with
  | PStr s => s
  | PBool true => "True"
  | PBool false => "False"
  end.

Abbreviation pydict := (gmap string pyval).

(** [d.get(k, default)] *)
Definition dict_get (d : pydict) (k : string) (default : pyval) : pyval :=
  match d !! k with
  | Some v => v
  | None => default
  end.

Record transition_record := {
  from_ : string;
  to_ : string;
  event_ : string;
  data_ : pydict;
  timestamp_ : string
}.

(** The bound methods stored in [state_actions]. *)
Inductive action : Type :=
| _idle_action | _listening_action | _processing_action
| _responding_action | _error_action | _sleeping_action.

Record StateMachine := {
  current_state : AgentState;
  previous_state : option AgentState;
  transitions : gmap (AgentState * Event) AgentState;
  state_actions : gmap AgentState action;
  context : pydict;
  history : list transition_record
}.

Definition set_current_state (v : AgentState) (sm : StateMachine) : StateMachine :=
  {| current_state := v; previous_state := previous_state sm;
     transitions := transitions sm; state_actions := state_actions sm;
     context := context sm; history := history sm |}.

Definition set_previous_state (v : option AgentState) (sm : StateMachine) : StateMachine :=
  {| current_state := current_state sm; previous_state := v;
     transitions := transitions sm; state_actions := state_actions sm;
     context := context sm; history := history sm |}.

Definition set_context (k : string) (v : pyval) (sm : StateMachine) : StateMachine :=
  {| current_state := current_state sm; previous_state := previous_state sm;
     transitions := transitions sm; state_actions := state_actions sm;
     context := <[k := v]> (context sm); history := history sm |}.

Definition append_history (r : transition_record) (sm : StateMachine) : StateMachine :=
  {| current_state := current_state sm; previous_state := previous_state sm;
     transitions := transitions sm; state_actions := state_actions sm;
     context := context sm; history := history sm ++ [r] |}.

(** [_setup_transitions] *)
Definition default_transitions : gmap (AgentState * Event) AgentState :=
  list_to_map [
    ((IDLE, USER_INPUT), LISTENING);
    ((LISTENING, PROCESSING_COMPLETE), PROCESSING);
    ((PROCESSING, PROCESSING_COMPLETE), RESPONDING);
    ((RESPONDING, PROCESSING_COMPLETE), IDLE);
    ((ERROR, RESET_COMMAND), IDLE);
    ((IDLE, SLEEP_COMMAND), SLEEPING);
    ((SLEEPING, WAKE_COMMAND), IDLE);
    ((LISTENING, ERROR_OCCURRED), ERROR);
    ((PROCESSING, ERROR_OCCURRED), ERROR);
    ((RESPONDING, ERROR_OCCURRED), ERROR);
    ((LISTENING, TIMEOUT), IDLE);
    ((PROCESSING, TIMEOUT), ERROR)
  ].

(** [_setup_state_actions] *)
Definition default_state_actions : gmap AgentState action :=
  list_to_map [
    (IDLE, _idle_action);
    (LISTENING, _listening_action);
    (PROCESSING, _processing_action);
    (RESPONDING, _responding_action);
    (ERROR, _error_action);
    (SLEEPING, _sleeping_action)
  ].

(** [StateMachine.__init__] *)
Definition StateMachine_init (initial_state : AgentState) : StateMachine :=
  {| current_state := initial_state;
     previous_state := None;
     transitions := default_transitions;
     state_actions := default_state_actions;
     context := ∅;
     history := [] |}.

(** The outside world of a machine: the prompts sent to the LLM so far,
    the number of clock readings taken, the console, and (as
    instrumentation) the state actions that were run. *)
Record world := {
  prompts : list pyval;
  clock_reads : nat;
  stdout : list string;
  actions_run : list action
}.

Definition print (line : string) (w : world) : world :=
  {| prompts := prompts w; clock_reads := clock_reads w;
     stdout := stdout w ++ [line]; actions_run := actions_run w |}.

Definition note_action (a : action) (w : world) : world :=
  {| prompts := prompts w; clock_reads := clock_reads w;
     stdout := stdout w; actions_run := actions_run w ++ [a] |}.

Section Machine.
(** [self.llm.generate(prompt).content] for the processing prompt, whose
    only hole is the user input: outcome of the [n]-th call. *)
Variable llm : nat → pyval → result string.
(** [datetime.datetime.now().strftime("%H:%M:%S")] at the [n]-th reading. *)
Variable now : nat → string.

Definition llm_generate (user_input : pyval) (w : world) : result string * world :=
  (llm (List.length (prompts w)) user_input,
   {| prompts := prompts w ++ [user_input]; clock_reads := clock_reads w;
      stdout := stdout w; actions_run := actions_run w |}).

Definition _get_timestamp (w : world) : string * world :=
  (now (clock_reads w),
   {| prompts := prompts w; clock_reads := S (clock_reads w);
      stdout := stdout w; actions_run := actions_run w |}).

(** The state actions, over the recursive call [self.transition]. *)
Definition run_action
    (transition : Event → pydict → StateMachine → world
                  → option (bool * StateMachine * world))
    (a : action) (data : pydict) (sm : StateMachine) (w : world)
  : option (StateMachine * world) :=
  match a with
  | _idle_action =>
      let w := print "😴 Agent is idle, waiting for input..." w in
      Some (set_context "last_action" (PStr "idle") sm, w)
  | _listening_action =>
      let user_input := dict_get data "input" (PStr "") in
      let w := print ("👂 Agent is listening: '" +:+ pyval_str user_input +:+ "'") w in
      let sm := set_context "user_input" user_input sm in
      let sm := set_context "last_action" (PStr "listening") sm in
      '(_, sm, w) ← transition PROCESSING_COMPLETE data sm w;
      Some (sm, w)
  | _processing_action =>
      let user_input := dict_get (context sm) "user_input" (PStr "") in
      let w := print ("🧠 Agent is processing: '" +:+ pyval_str user_input +:+ "'") w in
      let '(r, w) := llm_generate user_input w in
      match r with
      | Ok response =>
          let sm := set_context "llm_response" (PStr response) sm in
          let sm := set_context "last_action" (PStr "processing") sm in
          let w := print ("💭 Processing complete: "
                          +:+ String.substring 0 50 response +:+ "...") w in
          '(_, sm, w) ← transition PROCESSING_COMPLETE
                          {[ "response" := PStr response ]} sm w;
          Some (sm, w)
      | Raise e =>
          let w := print ("❌ Processing error: " +:+ str e) w in
          '(_, sm, w) ← transition ERROR_OCCURRED
                          {[ "error" := PStr (str e) ]} sm w;
          Some (sm, w)
      end
  | _responding_action =>
      let response :=
        dict_get data "response" (dict_get (context sm) "llm_response" (PStr "")) in
      let w := print ("💬 Agent is responding: '" +:+ pyval_str response +:+ "'") w in
      let sm := set_context "final_response" response sm in
      let sm := set_context "last_action" (PStr "responding") sm in
      '(_, sm, w) ← transition PROCESSING_COMPLETE
                      {[ "completed" := PBool true ]} sm w;
      Some (sm, w)
  | _error_action =>
      let error := dict_get data "error" (PStr "Unknown error") in
      let w := print ("❌ Agent encountered error: " +:+ pyval_str error) w in
      let sm := set_context "error" error sm in
      Some (set_context "last_action" (PStr "error") sm, w)
  | _sleeping_action =>
      let w := print "😴 Agent is sleeping..." w in
      Some (set_context "last_action" (PStr "sleeping") sm, w)
  end.

(** [transition] and [_execute_state_action].  The two call each other
    through the state actions; [depth] bounds the nesting of these calls
    and [None] means the bound was reached.  None of the six actions lets
    an exception escape (the only raising call, the LLM, sits inside the
    [try] of [_processing_action]), so the [except] clause of
    [_execute_state_action] is never entered. *)
Fixpoint transition (depth : nat) (event : Event) (data : pydict)
    (sm : StateMachine) (w : world) : option (bool * StateMachine * world) :=
  match depth with
  | O => None
  | S depth' =>
      let transition_key := (current_state sm, event) in
      match transitions sm !! transition_key with
      | None =>
          let w := print ("❌ Invalid transition: "
                          +:+ state_value (current_state sm) +:+ " + "
                          +:+ event_value event) w in
          Some (false, sm, w)
      | Some new_state =>
          let sm := set_previous_state (Some (current_state sm)) sm in
          let w := print ("🔄 Transition: " +:+ state_value (current_state sm)
                          +:+ " → " +:+ state_value new_state
                          +:+ " (event: " +:+ event_value event +:+ ")") w in
          let sm := set_current_state new_state sm in
          let '(timestamp, w) := _get_timestamp w in
          let sm := append_history
                      {| from_ := from_option state_value "" (previous_state sm);
                         to_ := state_value new_state;
                         event_ := event_value event;
                         data_ := data;
                         timestamp_ := timestamp |} sm in
          (* _execute_state_action(data) *)
          match state_actions sm !! current_state sm with
          | None => Some (true, sm, w)
          | Some a =>
              '(sm, w) ← run_action (transition depth') a data sm (note_action a w);
              Some (true, sm, w)
          end
      end
  end.

End Machine.

(** ** Vocabulary for the properties of the machine *)

(** Consecutive records continue each other. *)
Definition linked (hist : list transition_record) : Prop :=
  ∀ i r1 r2, hist !! i = Some r1 → hist !! S i = Some r2 → to_ r1 = from_ r2.

(** The history is a chain of transitions that ends in the current
    state and whose last source is the previous state. *)
Definition history_ok (sm : StateMachine) : Prop :=
  linked (history sm)
  ∧ ∀ r, last (history sm) = Some r →
         to_ r = state_value (current_state sm)
         ∧ ∃ s, previous_state sm = Some s ∧ from_ r = state_value s.

(** What a call of [transition] keeps of the machine it is given: the
    chain, the records already written, and the two tables. *)
Definition keeps_history (sm sm' : StateMachine) : Prop :=
  history_ok sm'
  ∧ history sm `prefix_of` history sm'
  ∧ transitions sm' = transitions sm
  ∧ state_actions sm' = state_actions sm.

(** The table of [_setup_transitions], read as a function. *)
Definition default_next (s : AgentState) (e : Event) : option AgentState :=
  match s, e with
  | IDLE, USER_INPUT => Some LISTENING
  | LISTENING, PROCESSING_COMPLETE => Some PROCESSING
  | PROCESSING, PROCESSING_COMPLETE => Some RESPONDING
  | RESPONDING, PROCESSING_COMPLETE => Some IDLE
  | ERROR, RESET_COMMAND => Some IDLE
  | IDLE, SLEEP_COMMAND => Some SLEEPING
  | SLEEPING, WAKE_COMMAND => Some IDLE
  | LISTENING, ERROR_OCCURRED => Some ERROR
  | PROCESSING, ERROR_OCCURRED => Some ERROR
  | RESPONDING, ERROR_OCCURRED => Some ERROR
  | LISTENING, TIMEOUT => Some IDLE
  | PROCESSING, TIMEOUT => Some ERROR
  | _, _ => None
  end.

(** The table of [_setup_state_actions], read as a function. *)
Definition default_action (s : AgentState) : action :=
  match s with
  | IDLE => _idle_action
  | LISTENING => _listening_action
  | PROCESSING => _processing_action
  | RESPONDING => _responding_action
  | ERROR => _error_action
  | SLEEPING => _sleeping_action
  end.

(** A machine built by [__init__] whose tables were not reassigned. *)
Definition default_tables (sm : StateMachine) : Prop :=
  transitions sm = default_transitions
  ∧ state_actions sm = default_state_actions.

(** The states whose action does not fire a further event. *)
Definition resting (s : AgentState) : bool :=
  match s with
  | IDLE | ERROR | SLEEPING => true
  | LISTENING | PROCESSING | RESPONDING => false
  end.

(** A call that left the tables alone, ended in a resting state, wrote at
    most [n] records and sent at most [p] prompts. *)
Definition came_to_rest (sm : StateMachine) (w : world) (n p : nat)
    (sm' : StateMachine) (w' : world) : Prop :=
  default_tables sm'
  ∧ resting (current_state sm') = true
  ∧ (List.length (history sm') ≤ n + List.length (history sm))%nat
  ∧ (List.length (prompts w') ≤ p + List.length (prompts w))%nat.

(** ** The hierarchical machine *)

Record HierarchicalStateMachine := {
  parent_states : gmap string (list string);
  current_parent : string;
  current_child : string;
  hsm_context : pydict
}.

Definition default_parent_states : gmap string (list string) :=
  list_to_map [("ACTIVE", ["WORKING"; "RESTING"]);
               ("INACTIVE", ["SLEEPING"; "MAINTENANCE"])].

(** [HierarchicalStateMachine.__init__] (the LLM handle is never used). *)
Definition HierarchicalStateMachine_init : HierarchicalStateMachine :=
  {| parent_states := default_parent_states;
     current_parent := "ACTIVE";
     current_child := "WORKING";
     hsm_context := ∅ |}.

(** [transition_parent]; the printed line is not modelled. *)
Definition transition_parent (new_parent : string)
    (self : HierarchicalStateMachine)
  : result (bool * HierarchicalStateMachine) :=
  match parent_states self !! new_parent with
  | Some kids =>
      match kids with
      | first :: _ =>
          Ok (true, {| parent_states := parent_states self;
                       current_parent := new_parent;
                       current_child := first;
                       hsm_context := hsm_context self |})
      | [] => Raise (Other "IndexError" "list index out of range")
      end
  | None => Ok (false, self)
  end.

(** [transition_child] *)
Definition transition_child (new_child : string)
    (self : HierarchicalStateMachine)
  : result (bool * HierarchicalStateMachine) :=
  match parent_states self !! current_parent self with
  | Some kids =>
      if bool_decide (new_child ∈ kids) then
        Ok (true, {| parent_states := parent_states self;
                     current_parent := current_parent self;
                     current_child := new_child;
                     hsm_context := hsm_context self |})
      else Ok (false, self)
  | None => Raise (KeyError (current_parent self))
  end.

Definition get_current_state (self : HierarchicalStateMachine) : string :=
  current_parent self +:+ "." +:+ current_child self.

(** [process_event]: the state it returns, and the machine afterwards. *)
Definition process_event (event : string) (self : HierarchicalStateMachine)
  : result (string * HierarchicalStateMachine) :=
  self ← (if String.eqb event "work_request"
             && String.eqb (current_parent self) "ACTIVE" then
            ('(_, self) ← transition_child "WORKING" self; Ok self)
          else if String.eqb event "rest_request"
                  && String.eqb (current_parent self) "ACTIVE" then
            ('(_, self) ← transition_child "RESTING" self; Ok self)
          else if String.eqb event "sleep_request" then
            '(_, self) ← transition_parent "INACTIVE" self;
            ('(_, self) ← transition_child "SLEEPING" self; Ok self)
          else if String.eqb event "wake_request" then
            '(_, self) ← transition_parent "ACTIVE" self;
            ('(_, self) ← transition_child "WORKING" self; Ok self)
          else Ok self);
  Ok (get_current_state self, self).

(** A sequence of [process_event] calls. *)
Fixpoint process_events (events : list string) (self : HierarchicalStateMachine)
  : result HierarchicalStateMachine :=
  match events with
  | [] => Ok self
  | event :: rest =>
      '(_, self) ← process_event event self;
      process_events rest self
  end.

(** The states the hierarchical machine can be in. *)
Definition settled (self : HierarchicalStateMachine) : Prop :=
  parent_states self = default_parent_states
  ∧ ((current_parent self = "ACTIVE" ∧ current_child self = "WORKING")
     ∨ (current_parent self = "ACTIVE" ∧ current_child self = "RESTING")
     ∨ (current_parent self = "INACTIVE" ∧ current_child self = "SLEEPING")).

End StateMachines.

(* ===================================================================== *)
(** * patterns/35_pev.py                                                  *)
(* ===================================================================== *)

Module PEV.

Inductive prompt : Type :=
| PlanPrompt (goal : string)
| VerifyPrompt (step tool parameters result : json).

Record PEVAgent := { max_retries : Z }.

(** [PEVAgent.__init__] *)
Definition PEVAgent_init : PEVAgent := {| max_retries := 3 |}.

(** The keys of [self.tools]. *)
Definition tool_names : list string :=
  ["search"; "calculate"; "get_weather"; "get_stock_price"].

(** The prompts sent to the LLM and the tool invocations made so far. *)
Record world := {
  prompts : list prompt;
  tool_calls : list (string * json)
}.

(** An element of [results]. *)
Definition result_entry (step result verification : json) (status : string) : json :=
  JObj [("step", step); ("result", result);
        ("verification", verification); ("status", JStr status)].

(** What one pass through the body of the [while] loop leaves behind:
    the loop variables for the next test of the condition, or the
    results at the [break]. *)
Inductive control : Type :=
| Next (current_plan : list json) (results : list json) (retry_count : Z)
| Stop (results : list json).

Section Agent.
Variable llm : nat → prompt → result string.
Variable json_loads : string → result json.
(** [self.tools[tool_name]( *parameters )] inside its [try]: the dict the
    tool returned at its [n]-th invocation, or the error dict built by
    the [except] clause (the mock tools draw random numbers). *)
Variable run_tool : nat → string → json → json.
(** The builtin [str], for a value interpolated into a message. *)
Variable str_of : json → string.

Definition llm_generate (p : prompt) : M world string :=
  λ w, Some (llm (List.length (prompts w)) p,
             {| prompts := prompts w ++ [p]; tool_calls := tool_calls w |}).

Definition call_tool (name : string) (parameters : json) : M world json :=
  λ w, Some (Ok (run_tool (List.length (tool_calls w)) name parameters),
             {| prompts := prompts w;
                tool_calls := tool_calls w ++ [(name, parameters)] |}).

Definition fallback_plan (goal : string) : json :=
  JArr [JObj [("step", JStr ("Search for information about: " +:+ goal));
              ("tool", JStr "search");
              ("parameters", JArr [JStr goal])];
        JObj [("step", JStr "Analyze the results");
              ("tool", JStr "search");
              ("parameters", JArr [JStr ("analysis of " +:+ goal)])]].

Definition plan (goal : string) : M world json :=
  response ← llm_generate (PlanPrompt goal);
  match parse_response json_loads response with
  | Raise (JSONDecodeError _) => ret (fallback_plan goal)
  | r => lift r
  end.

Definition tool_not_found (name : string) : json :=
  JObj [("error", JStr ("Tool '" +:+ name +:+ "' not found"));
        ("success", JBool false)].

Definition execute_step (step : json) : M world json :=
  tool_name ← lift (subscript step "tool");
  parameters ← lift (subscript step "parameters");
  match tool_name with
  | JStr name =>
      if bool_decide (name ∈ tool_names) then call_tool name parameters
      else ret (tool_not_found name)
  | JArr _ | JObj _ => raise (TypeError "unhashable type")
  | other => ret (tool_not_found (str_of other))
  end.

(** The verification built when the LLM's answer is not JSON. *)
Definition fallback_verification (result : json) : Py.result json :=
  flag ← get result "success" (JBool false);
  let success :=
    if truthy flag
    then JBool (negb (match result with
                      | JObj fields => has_key "error" fields
                      | _ => false
                      end))
    else flag in
  Ok (JObj [("success", success);
            ("reason", JStr "Basic verification based on result success flag");
            ("suggestion",
             JStr (if truthy success then "Continue to next step"
                   else "Retry with different parameters"))]).

Definition verify_step (step result : json) : M world json :=
  description ← lift (subscript step "step");
  tool ← lift (subscript step "tool");
  parameters ← lift (subscript step "parameters");
  response ← llm_generate (VerifyPrompt description tool parameters result);
  match parse_response json_loads response with
  | Raise (JSONDecodeError _) => lift (fallback_verification result)
  | r => lift r
  end.

(** One pass through the body of the [while] loop of [solve]; [step] has
    just been popped off the front of the plan, [rest] is what remains. *)
Definition iteration (self : PEVAgent) (step : json) (rest : list json)
    (results : list json) (retry_count : Z) : M world control :=
  lift (subscript step "step");;
  result ← execute_step step;
  verification ← verify_step step result;
  lift (get verification "reason" (JStr "Verification completed"));;
  success ← lift (subscript verification "success");
  match truthy success with
  | true =>
      ret (Next rest
             (results ++ [result_entry step result verification "success"]) 0)
  | false =>
      lift (subscript verification "reason");;
      lift (subscript verification "suggestion");;
      let current_plan := step :: rest in
      let retry_count := (retry_count + 1)%Z in
      if (max_retries self <=? retry_count)%Z then
        ret (Stop (results ++ [result_entry step result verification "failed"]))
      else ret (Next current_plan results retry_count)
  end.

(** [while current_plan and retry_count < self.max_retries]; [n] bounds
    the number of iterations. *)
Fixpoint execute_and_verify (n : nat) (self : PEVAgent)
    (current_plan : list json) (results : list json) (retry_count : Z)
  : M world (list json) :=
  match current_plan with
  | [] => ret results
  | step :: rest =>
      if (retry_count <? max_retries self)%Z then
        match n with
        | O => cut_off
        | S n' =>
            c ← iteration self step rest results retry_count;
            match c with
            | Next current_plan results retry_count =>
                execute_and_verify n' self current_plan results retry_count
            | Stop results => ret results
            end
        end
      else ret results
  end.

End Agent.

(** ** [solve]

    One call of [solve]; what it prints is not modelled, but the
    subscripts evaluated while printing are. *)

(** The dict [solve] returns. *)
Record solution := {
  solution_goal : string;
  solution_plan : json;
  solution_results : list json;
  solution_final_answer : string;
  solution_success_rate : json
}.

(** The body of [for i, step in enumerate(plan, 1)]. *)
Fixpoint print_steps (steps : list json) : Py.result unit :=
  match steps with
  | [] => Ok tt
  | step :: rest =>
      subscript step "step";;
      subscript step "tool";;
      print_steps rest
  end.

(** [len(plan)], then the loop that prints the steps. *)
Definition describe_plan (the_plan : json) : Py.result unit :=
  match the_plan with
  | JNull | JBool _ | JInt _ | JFloat _ =>
      Raise (TypeError "object has no len()")
  | _ => steps ← iterate the_plan; print_steps steps
  end.

(** [r["status"] == "success"] *)
Definition is_success (status : json) : bool :=
  match status with
  | JStr s => String.eqb s "success"
  | _ => false
  end.

(** [len([r for r in results if r["status"] == "success"])] *)
Fixpoint count_success (results : list json) : Py.result nat :=
  match results with
  | [] => Ok 0%nat
  | r :: rest =>
      status ← subscript r "status";
      n ← count_success rest;
      Ok (if is_success status then S n else n)
  end.

(** [len([...]) / len(results) if results else 0]: the int [0] for an
    empty list, and else the quotient, taken exactly. *)
Definition success_rate (results : list json) : Py.result json :=
  match results with
  | [] => Ok (JInt 0)
  | _ =>
      n ← count_success results;
      Ok (JFloat (Finite (inject_Z (Z.of_nat n)
                          / inject_Z (Z.of_nat (List.length results)))))
  end.

Section Solve.
Variable llm : nat → prompt → result string.
Variable json_loads : string → result json.
Variable run_tool : nat → string → json → json.
Variable str_of : json → string.
(** [self.llm.generate(prompt).content] for the synthesis prompt, whose
    holes are the goal and the results, after [n] earlier prompts.  It is
    the last call [solve] makes; the prompt is not added to the record of
    the world. *)
Variable synthesize : nat → string → list json → result string.

Definition synthesize_results (goal : string) (results : list json)
  : M world string :=
  λ w, Some (synthesize (List.length (prompts w)) goal results, w).

(** [solve].  [plan.copy()] exists for lists and dicts only; a dict that
    got past the printing of the steps is empty, so that the loop is not
    entered.  The loop is given the number of passes that is always
    enough ([max_retries] per step). *)
Definition solve (self : PEVAgent) (goal : string) : M world solution :=
  the_plan ← plan llm json_loads goal;
  lift (describe_plan the_plan);;
  results ← match the_plan with
            | JArr steps =>
                execute_and_verify llm json_loads run_tool str_of
                  (Z.to_nat (max_retries self) * List.length steps)
                  self steps [] 0
            | JObj [] => ret []
            | JObj _ => raise (KeyError "0")
            | _ => raise (AttributeError "object has no attribute 'copy'")
            end;
  final_answer ← synthesize_results goal results;
  rate ← lift (success_rate results);
  ret {| solution_goal := goal;
         solution_plan := the_plan;
         solution_results := results;
         solution_final_answer := final_answer;
         solution_success_rate := rate |}.

End Solve.

(** ** Vocabulary for the properties of the loop *)

(** One pass that was recorded: the step, the tool's result and the
    verification. *)
Definition attempt : Type := json * json * json.

Definition attempt_step (a : attempt) : json := a.1.1.

Definition recorded (status : string) (a : attempt) : json :=
  result_entry a.1.1 a.1.2 a.2 status.

(** The verification of the attempt says [flag]. *)
Definition verified (flag : bool) (a : attempt) : Prop :=
  ∃ success, subscript a.2 "success" = Ok success ∧ truthy success = flag.

(** A computation that makes at most [a] tool calls and sends at most [p]
    prompts, however it ends. *)
Definition spends {A} (a p : nat) (m : M world A) : Prop :=
  ∀ w out w', m w = Some (out, w') →
    (List.length (tool_calls w') ≤ a + List.length (tool_calls w))%nat
    ∧ (List.length (prompts w') ≤ p + List.length (prompts w))%nat.

(** A step with the three entries the loop reads, whose tool is named by
    a string. *)
Definition well_formed_step (step : json) : Prop :=
  ∃ description name parameters,
    subscript step "step" = Ok description
    ∧ subscript step "tool" = Ok (JStr name)
    ∧ subscript step "parameters" = Ok parameters.

(** A computation that returns normally. *)
Definition returns {A} (m : M world A) (w : world) : Prop :=
  ∃ a w', m w = Some (Ok a, w').



(** A computation that makes no tool call. *)
Definition quiet {A} (m : M world A) : Prop :=
  ∀ w out w', m w = Some (out, w') → tool_calls w' = tool_calls w.

(** A plan item whose "step" and "tool" entries can be printed. *)
Definition printable (step : json) : bool :=
  is_ok (subscript step "step") && is_ok (subscript step "tool").

End PEV.

(* ===================================================================== *)
(** * patterns/38_tree_of_thoughts.py                                     *)
(* ===================================================================== *)

Module TreeOfThoughts.

(** ** Thought nodes

    Nodes are mutable objects that refer to each other; they live in a
    heap (a list) and a reference is an index into it. *)
Record ThoughtNode := {
  content : json;
  parent : option nat;
  children : list nat;
  evaluation_score : json;
  depth : Z;
  is_terminal : json
}.

Abbreviation heap := (list ThoughtNode).

(** [ThoughtNode(content=c)] with the dataclass defaults. *)
Definition ThoughtNode_new (c : json) : ThoughtNode :=
  {| content := c; parent := None; children := [];
     evaluation_score := JFloat (Finite 0); depth := 0;
     is_terminal := JBool false |}.

Definition set_parent (p : option nat) (n : ThoughtNode) : ThoughtNode :=
  {| content := content n; parent := p; children := children n;
     evaluation_score := evaluation_score n; depth := depth n;
     is_terminal := is_terminal n |}.

Definition set_depth (d : Z) (n : ThoughtNode) : ThoughtNode :=
  {| content := content n; parent := parent n; children := children n;
     evaluation_score := evaluation_score n; depth := d;
     is_terminal := is_terminal n |}.

Definition append_child (c : nat) (n : ThoughtNode) : ThoughtNode :=
  {| content := content n; parent := parent n; children := children n ++ [c];
     evaluation_score := evaluation_score n; depth := depth n;
     is_terminal := is_terminal n |}.

Definition set_evaluation_score (v : json) (n : ThoughtNode) : ThoughtNode :=
  {| content := content n; parent := parent n; children := children n;
     evaluation_score := v; depth := depth n;
     is_terminal := is_terminal n |}.

Definition set_is_terminal (v : json) (n : ThoughtNode) : ThoughtNode :=
  {| content := content n; parent := parent n; children := children n;
     evaluation_score := evaluation_score n; depth := depth n;
     is_terminal := v |}.

(** [self.add_child(child)]: three assignments, in order. *)
Definition add_child (self child : nat) (h : heap) : heap :=
  let h := alter (set_parent (Some self)) child h in
  let h := match h !! self with
           | Some s => alter (set_depth (depth s + 1)) child h
           | None => h
           end in
  alter (append_child child) self h.

(** The loop of [get_path]: [current] is the node to visit next, [path]
    what was collected so far ([path.insert(0, _)] conses).  [n] bounds
    the number of iterations; [None] means the bound was reached. *)
Fixpoint get_path_from (n : nat) (h : heap) (current : option nat)
    (path : list json) : option (list json) :=
  match current with
  | None => Some path
  | Some c =>
      match n with
      | O => None
      | S n' =>
          match h !! c with
          | Some node => get_path_from n' h (parent node) (content node :: path)
          | None => None
          end
      end
  end.

Definition get_path (n : nat) (h : heap) (self : nat) : option (list json) :=
  get_path_from n h (Some self) [].

(** Heaps grown from a root by attaching one new, childless node at a time
    to a node that is already there. *)
Inductive grown : heap → Prop :=
| grown_root (r : ThoughtNode) :
    parent r = None → depth r = 0%Z → children r = [] → grown [r]
| grown_add (h : heap) (p : nat) (c : ThoughtNode) :
    grown h → (p < List.length h)%nat → children c = [] →
    grown (add_child p (List.length h) (h ++ [c])).

(** Heaps reached from new nodes by [add_child] calls in any order. *)
Inductive assembled : heap → Prop :=
| assembled_new (contents : list json) :
    assembled (ThoughtNode_new <$> contents)
| assembled_add (h : heap) (p c : nat) :
    assembled h → (p < List.length h)%nat → (c < List.length h)%nat →
    assembled (add_child p c h).

(** [a] is [x] or lies on the chain of parent references that starts at
    [x]. *)
Inductive ancestor (h : heap) (a : nat) : nat → Prop :=
| ancestor_self (n : ThoughtNode) : h !! a = Some n → ancestor h a a
| ancestor_up (x p : nat) (n : ThoughtNode) :
    h !! x = Some n → parent n = Some p → ancestor h a p → ancestor h a x.

(** ** The LLM-backed steps *)

(** The prompts, one constructor per f-string template, the arguments
    being the values interpolated into it. *)
Inductive prompt : Type :=
| ThoughtsPrompt (problem path_context : string) (num_thoughts : Z)
| EvaluatePrompt (problem path_text : string)
| TerminalPrompt (problem path_text : string).

Record TreeOfThoughts := {
  max_depth : Z;
  branching_factor : Z
}.

(** [TreeOfThoughts(llm)] with the default arguments. *)
Definition TreeOfThoughts_default : TreeOfThoughts :=
  {| max_depth := 4; branching_factor := 3 |}.

(** The heap, the prompts sent so far and, as instrumentation, the queue
    each iteration of the level loop of [build_tree] started from. *)
Record world := {
  nodes : heap;
  prompts : list prompt;
  levels : list (list nat)
}.

Definition with_nodes (h : heap) (w : world) : world :=
  {| nodes := h; prompts := prompts w; levels := levels w |}.

Section Tree.
(** [self.llm.generate(prompt).content] at the [n]-th call. *)
Variable llm : nat → prompt → result string.
Variable json_loads : string → result json.

Definition llm_generate (p : prompt) : M world string :=
  λ w, Some (llm (List.length (prompts w)) p,
             {| nodes := nodes w; prompts := prompts w ++ [p];
                levels := levels w |}).

Definition fallback_thoughts : list json :=
  [JStr "Approach 1: Continue with current path";
   JStr "Alternative 2: Try different method";
   JStr "Backup 3: Reconsider previous step"].

Definition generate_thoughts (problem : string) (current_path : list json)
    (num_thoughts : Z) : M world json :=
  path_context ← lift (match current_path with
                       | [] => Ok "Starting point"
                       | _ => join " -> " current_path
                       end);
  response ← llm_generate (ThoughtsPrompt problem path_context num_thoughts);
  match thoughts ← parse_response json_loads response;
        slice thoughts num_thoughts with
  | Raise (JSONDecodeError _) => ret (JArr (slice_to num_thoughts fallback_thoughts))
  | r => lift r
  end.

Definition fallback_evaluation : json :=
  JObj [("logic", JInt 7); ("feasibility", JInt 7); ("completeness", JInt 7);
        ("creativity", JInt 7); ("overall", JFloat (Finite 7));
        ("strengths", JStr "Reasonable approach");
        ("weaknesses", JStr "Standard approach");
        ("continue", JBool true)].

Definition evaluate_thought (problem : string) (thought_path : list json)
  : M world json :=
  path_text ← lift (join " -> " thought_path);
  response ← llm_generate (EvaluatePrompt problem path_text);
  match parse_response json_loads response with
  | Raise (JSONDecodeError _) => ret fallback_evaluation
  | r => lift r
  end.

(** The method [TreeOfThoughts.is_terminal]. *)
Definition is_terminal_check (problem : string) (thought_path : list json)
  : M world json :=
  path_text ← lift (join " -> " thought_path);
  response ← llm_generate (TerminalPrompt problem path_text);
  match result ← parse_response json_loads response;
        get result "is_complete" (JBool false) with
  | Raise (JSONDecodeError _) =>
      ret (JBool (3 <=? List.length thought_path)%nat)
  | r => lift r
  end.

(** ** [build_tree] *)

Definition alloc (n : ThoughtNode) : M world nat :=
  λ w, Some (Ok (List.length (nodes w)), with_nodes (nodes w ++ [n]) w).

Definition update_heap (f : heap → heap) : M world unit :=
  λ w, Some (Ok tt, with_nodes (f (nodes w)) w).

(** [node.get_path()]; the bound is the size of the heap. *)
Definition node_path (i : nat) : M world (list json) :=
  λ w, match get_path (List.length (nodes w)) (nodes w) i with
       | Some path => Some (Ok path, w)
       | None => None
       end.

Definition log_level (queue : list nat) : M world unit :=
  λ w, Some (Ok tt, {| nodes := nodes w; prompts := prompts w;
                       levels := levels w ++ [queue] |}).

(** The body of [for thought_content in thoughts]. *)
Definition expand_thought (problem : string) (node : nat)
    (thought_content : json) (next_queue : list nat) : M world (list nat) :=
  child ← alloc (ThoughtNode_new thought_content);
  update_heap (add_child node child);;
  new_path ← node_path child;
  evaluation ← evaluate_thought problem new_path;
  overall ← lift (subscript evaluation "overall");
  update_heap (alter (set_evaluation_score overall) child);;
  terminal ← is_terminal_check problem new_path;
  update_heap (alter (set_is_terminal terminal) child);;
  lift (format_1f overall);;
  if truthy terminal then ret next_queue
  else
    good ← lift (ge_6 overall);
    match good with
    | true => ret (next_queue ++ [child])
    | false => ret next_queue
    end.

Fixpoint for_thoughts (problem : string) (node : nat) (thoughts : list json)
    (next_queue : list nat) : M world (list nat) :=
  match thoughts with
  | [] => ret next_queue
  | thought_content :: rest =>
      next_queue ← expand_thought problem node thought_content next_queue;
      for_thoughts problem node rest next_queue
  end.

(** The body of [for node in queue]. *)
Definition expand_node (self : TreeOfThoughts) (problem : string)
    (node : nat) (next_queue : list nat) : M world (list nat) :=
  current_path ← node_path node;
  thoughts ← generate_thoughts problem current_path (branching_factor self);
  items ← lift (iterate thoughts);
  for_thoughts problem node items next_queue.

Fixpoint for_queue (self : TreeOfThoughts) (problem : string)
    (queue : list nat) (next_queue : list nat) : M world (list nat) :=
  match queue with
  | [] => ret next_queue
  | node :: rest =>
      next_queue ← expand_node self problem node next_queue;
      for_queue self problem rest next_queue
  end.

(** [while queue and level < self.max_depth]; [n] bounds the number of
    iterations. *)
Fixpoint level_loop (n : nat) (self : TreeOfThoughts) (problem : string)
    (queue : list nat) (level : Z) : M world unit :=
  match queue with
  | [] => ret tt
  | _ =>
      if (level <? max_depth self)%Z then
        match n with
        | O => cut_off
        | S n' =>
            log_level queue;;
            next_queue ← for_queue self problem queue [];
            level_loop n' self problem next_queue (level + 1)
        end
      else ret tt
  end.

Definition build_tree (n : nat) (self : TreeOfThoughts) (problem : string)
  : M world nat :=
  root ← alloc (ThoughtNode_new (JStr "Start solving the problem"));
  level_loop n self problem [root] 0;;
  ret root.

End Tree.

(** The nodes of the tree below [root]. *)
Inductive in_tree (h : heap) (root : nat) : nat → Prop :=
| in_tree_root : in_tree h root root
| in_tree_child (p c : nat) (pn : ThoughtNode) :
    in_tree h root p → h !! p = Some pn → c ∈ children pn →
    in_tree h root c.

(** ** Vocabulary for the properties of the construction *)

(** The shape every grown heap has: parents come before their children
    in the heap, depths count the parent links, and the parent and child
    references mirror each other. *)
Definition well_linked (h : heap) : Prop :=
  ∀ i n, h !! i = Some n →
    (0 <= depth n)%Z
    ∧ match parent n with
      | None => i = 0%nat ∧ depth n = 0%Z
      | Some p =>
          (p < i)%nat
          ∧ ∃ pn, h !! p = Some pn ∧ depth n = (depth pn + 1)%Z
                  ∧ i ∈ children pn
      end
    ∧ ∀ c, c ∈ children n → ∃ cn, h !! c = Some cn ∧ parent cn = Some i.

(** The heap after [node.add_child(child)] for a child that was created
    just before: see [add_child_fresh]. *)
Definition attach (h : heap) (node : nat) (kid : ThoughtNode) : heap :=
  alter (append_child (List.length h)) node h ++ [kid].

(** The LLM-backed steps leave the heap and the level log alone. *)
Definition same_tree (w : world) {A} (_ : A) (w' : world) : Prop :=
  nodes w' = nodes w ∧ levels w' = levels w.

Section Invariants.
Variable self : TreeOfThoughts.
(** The first node of the tree under construction; what lies before it
    in the heap belongs to earlier runs and is never touched. *)
Variable root : nat.

(** Parent references of the new tree stay inside it and point backwards. *)
Definition links_ok (h : heap) : Prop :=
  ∀ i n p, (root <= i)%nat → h !! i = Some n → parent n = Some p →
           (root <= p < i)%nat.

Definition bounds_ok (h : heap) : Prop :=
  ∀ i n, (root <= i)%nat → h !! i = Some n →
    (Z.of_nat (List.length (children n)) <= branching_factor self)%Z
    ∧ (0 <= depth n <= max_depth self)%Z
    ∧ ∀ c, c ∈ children n → (root <= c)%nat.

(** A queue of the level loop: distinct nodes of the new tree, all
    without children yet and all of depth [lvl]. *)
Definition queue_ok (h : heap) (lvl : Z) (q : list nat) : Prop :=
  NoDup q
  ∧ ∀ i, i ∈ q →
      (root <= i)%nat
      ∧ ∃ n, h !! i = Some n ∧ children n = [] ∧ depth n = lvl.

(** The condition under which a child enters the next queue. *)
Definition carried_ok (h : heap) (q : list nat) : Prop :=
  ∀ i, i ∈ q →
    ∃ n, h !! i = Some n ∧ truthy (is_terminal n) = false
         ∧ ge_6 (evaluation_score n) = Ok true.

(** The state between two passes of [for thought_content in thoughts],
    while the children of [node] (of depth [lvl]) are being created:
    [r] thoughts are still to come, [rest] is the part of the queue not
    yet visited, [nq] the next queue so far, [lv] the level log and [old]
    the earlier queues whose entry condition is being kept. *)
Definition thoughts_inv (lvl : Z) (node : nat) (rest nq : list nat) (r : nat)
    (lv old : list (list nat)) (w : world) : Prop :=
  links_ok (nodes w) ∧ bounds_ok (nodes w)
  ∧ (root <= node)%nat
  ∧ (∃ pn, nodes w !! node = Some pn ∧ depth pn = lvl
           ∧ (Z.of_nat (List.length (children pn)) + Z.of_nat r
              <= branching_factor self)%Z)
  ∧ (0 <= lvl < max_depth self)%Z
  ∧ queue_ok (nodes w) lvl rest ∧ (node ∉ rest)
  ∧ queue_ok (nodes w) (lvl + 1) nq ∧ carried_ok (nodes w) nq
  ∧ levels w = lv ∧ Forall (carried_ok (nodes w)) old.

(** The state between two passes of [for node in queue]. *)
Definition queue_inv (lvl : Z) (queue nq : list nat)
    (lv old : list (list nat)) (w : world) : Prop :=
  links_ok (nodes w) ∧ bounds_ok (nodes w)
  ∧ (0 <= lvl < max_depth self)%Z
  ∧ queue_ok (nodes w) lvl queue
  ∧ queue_ok (nodes w) (lvl + 1) nq ∧ carried_ok (nodes w) nq
  ∧ levels w = lv ∧ Forall (carried_ok (nodes w)) old.

(** What holds of the world once the level loop is over; [base] is the
    level log the run started with. *)
Definition tree_done (base : list (list nat)) (w : world) : Prop :=
  links_ok (nodes w) ∧ bounds_ok (nodes w)
  ∧ ∃ logged,
      levels w = base ++ logged
      ∧ (Z.of_nat (List.length logged) <= max_depth self)%Z
      ∧ Forall (carried_ok (nodes w)) (tail logged).

End Invariants.

(** ** [find_best_solution] *)

(** The number a score stands for when scores are compared; [None] for a
    value that is not a number. *)
Definition to_float (v : json) : option pyfloat :=
  match v with
  | JInt n => Some (Finite (inject_Z n))
  | JBool b => Some (Finite (if b then 1 else 0))
  | JFloat f => Some f
  | _ => None
  end.

(** [a > b] on floats *)
Definition float_gt (a b : pyfloat) : bool :=
  match a, b with
  | NaN, _ | _, NaN => false
  | _, PosInf => false
  | PosInf, _ => true
  | NegInf, _ => false
  | Finite _, NegInf => true
  | Finite x, Finite y => negb (Qle_bool x y)
  end.

(** [a > b] on scores.  Only numbers are covered: a score that is not a
    number does not get here, it has failed the [:.1f] of [build_tree]
    (see [scores_ok]). *)
Definition score_gt (a b : json) : Py.result bool :=
  match to_float a, to_float b with
  | Some x, Some y => Ok (float_gt x y)
  | _, _ => Raise (TypeError "'>' not supported")
  end.

(** [n.evaluation_score] for a reference into the heap. *)
Definition score_of (h : heap) (i : nat) : json :=
  match h !! i with
  | Some n => evaluation_score n
  | None => JNull
  end.

(** [max(terminal_nodes, key=lambda n: n.evaluation_score)] on a list
    that is not empty: the first node is kept until a later one has a
    greater score. *)
Fixpoint max_by_score (h : heap) (best : nat) (rest : list nat) : Py.result nat :=
  match rest with
  | [] => Ok best
  | x :: rest' =>
      greater ← score_gt (score_of h x) (score_of h best);
      match greater with
      | true => max_by_score h x rest'
      | false => max_by_score h best rest'
      end
  end.

(** [_find_terminal_nodes]: [n] bounds the depth of the recursion, and
    [None] means the bound was reached. *)
Fixpoint _find_terminal_nodes (n : nat) (h : heap) (node : nat)
  : option (list nat) :=
  match n with
  | O => None
  | S n' =>
      match h !! node with
      | None => None
      | Some nd =>
          let terminals := if truthy (is_terminal nd) then [node] else [] in
          more ← mapM (_find_terminal_nodes n' h) (children nd);
          Some (terminals ++ concat more)
      end
  end.

(** The last part of the dict [find_best_solution] returns: one
    constructor per text. *)
Inductive explanation_text : Type :=
| NoTerminalNodes
| BestPathFound (score : json).

Record best_solution := {
  solution : string;
  best_path : list json;
  score : json;
  explanation : explanation_text
}.

Section Search.
Variable llm : nat → prompt → result string.
Variable json_loads : string → result json.
(** [self.llm.generate(prompt).content] for the prompt of
    [_generate_final_solution], whose holes are the problem and the path
    text, after [n] earlier prompts. *)
Variable finalize : nat → string → string → result string.

Definition find_terminals (root : nat) : M world (list nat) :=
  λ w, match _find_terminal_nodes (List.length (nodes w)) (nodes w) root with
       | Some terminals => Some (Ok terminals, w)
       | None => None
       end.

Definition best_of (first : nat) (rest : list nat) : M world nat :=
  λ w, Some (max_by_score (nodes w) first rest, w).

Definition final_generate (problem path_text : string) : M world string :=
  λ w, Some (finalize (List.length (prompts w)) problem path_text, w).

Definition _generate_final_solution (problem : string) (path : list json)
  : M world string :=
  path_text ← lift (join " -> " path);
  final_generate problem path_text.

Definition read_score (node : nat) : M world json :=
  λ w, Some (Ok (score_of (nodes w) node), w).

Definition find_best_solution (n : nat) (self : TreeOfThoughts)
    (problem : string) : M world best_solution :=
  root ← build_tree llm json_loads n self problem;
  terminal_nodes ← find_terminals root;
  match terminal_nodes with
  | [] =>
      ret {| solution := "No complete solutions found";
             best_path := [];
             score := JFloat (Finite 0);
             explanation := NoTerminalNodes |}
  | first :: rest =>
      best_node ← best_of first rest;
      path ← node_path best_node;
      answer ← _generate_final_solution problem path;
      best_score ← read_score best_node;
      lift (format_1f best_score);;
      ret {| solution := answer;
             best_path := path;
             score := best_score;
             explanation := BestPathFound best_score |}
  end.

End Search.

(** ** Vocabulary for the properties of the search *)

Section Growth.
Variable root : nat.

(** The nodes [build_tree] may expand: the root, and the nodes that are
    not terminal and score at least 6.0. *)
Definition eligible (h : heap) (i : nat) : Prop :=
  i = root
  ∨ ∃ n, h !! i = Some n ∧ truthy (is_terminal n) = false
         ∧ ge_6 (evaluation_score n) = Ok true.

(** Only such nodes have children. *)
Definition leaves_ok (h : heap) : Prop :=
  ∀ i n, (root <= i)%nat → h !! i = Some n → children n ≠ [] → eligible h i.

Definition root_ok (h : heap) : Prop :=
  ∃ n, h !! root = Some n ∧ parent n = None ∧ depth n = 0%Z
       ∧ content n = JStr "Start solving the problem"
       ∧ truthy (is_terminal n) = false.

(** Child references point forward in the heap. *)
Definition forward_ok (h : heap) : Prop :=
  ∀ i n c, (root <= i)%nat → h !! i = Some n → c ∈ children n →
           (i < c < List.length h)%nat.

(** The scores that were printed with [:.1f] are numbers. *)
Definition scores_ok (h : heap) : Prop :=
  ∀ i n, (root < i)%nat → h !! i = Some n →
         format_1f (evaluation_score n) = Ok tt.

(** What [build_tree] keeps while the tree grows; [old] is the heap the
    call started from. *)
Definition growth_ok (old : heap) (h : heap) : Prop :=
  take root h = old ∧ root_ok h ∧ leaves_ok h ∧ forward_ok h ∧ scores_ok h.

End Growth.

(** [1 + b + b^2 + ... + b^(m-1)] *)
Fixpoint geometric (b m : nat) : nat :=
  match m with
  | O => O
  | S m' => 1 + b * geometric b m'
  end.

(** An LLM-backed step that sent one prompt and left the tree alone. *)
Definition one_prompt (w : world) {A} (_ : A) (w' : world) : Prop :=
  nodes w' = nodes w ∧ levels w' = levels w
  ∧ List.length (prompts w') = S (List.length (prompts w)).

(** A node whose [is_terminal] is truthy. *)
Definition terminal (h : heap) (j : nat) : Prop :=
  ∃ n, h !! j = Some n ∧ truthy (is_terminal n) = true.

(** What a call of [find_best_solution] that started in [w0] returns:
    [root] is the root of the tree it built, [finalize] the LLM's answer to
    the final prompt. *)
Definition found (finalize : nat → string → string → result string)
    (problem : string) (root : nat) (w0 : world) (sol : best_solution)
    (w' : world) : Prop :=
  growth_ok root (nodes w0) (nodes w')
  ∧ ((solution sol = "No complete solutions found"
      ∧ best_path sol = []
      ∧ score sol = JFloat (Finite 0)
      ∧ explanation sol = NoTerminalNodes
      ∧ ∀ j, in_tree (nodes w') root j → ¬ terminal (nodes w') j)
     ∨ ∃ best n text,
         in_tree (nodes w') root best
         ∧ nodes w' !! best = Some n
         ∧ truthy (is_terminal n) = true
         ∧ score sol = evaluation_score n
         ∧ explanation sol = BestPathFound (evaluation_score n)
         ∧ get_path (List.length (nodes w')) (nodes w') best
           = Some (best_path sol)
         ∧ join " -> " (best_path sol) = Ok text
         ∧ finalize (List.length (prompts w')) problem text = Ok (solution sol)
         ∧ ∀ t tn,
             in_tree (nodes w') root t → nodes w' !! t = Some tn →
             truthy (is_terminal tn) = true →
             score_gt (evaluation_score tn) (evaluation_score n) = Ok false).


End TreeOfThoughts.

(* ===================================================================== *)
(** * Inputs used in the examples                                        *)
(* ===================================================================== *)

(** A double quote, for the JSON texts of the examples. *)
Definition dq : string := String (ascii_of_nat 34) EmptyString.

Definition search_step (query : string) : json :=
  JObj [("step", JStr ("Search for " +:+ query)); ("tool", JStr "search");
        ("parameters", JArr [JStr query])].

Definition search_unavailable : json :=
  JObj [("error", JStr "Search service temporarily unavailable");
        ("success", JBool false)].

(** An LLM that never answers in JSON, so that every parsing step takes
    its fallback. *)
Definition prose_llm : nat → TreeOfThoughts.prompt → result string :=
  λ _ _, Ok "Let me think about this step by step.".

Definition no_json : string → result json :=
  λ _, Raise (JSONDecodeError "Expecting value").

Definition empty_world : TreeOfThoughts.world :=
  {| TreeOfThoughts.nodes := []; TreeOfThoughts.prompts := [];
     TreeOfThoughts.levels := [] |}.

(* ===================================================================== *)
(** * Properties                                                          *)
(* ===================================================================== *)

Section LLMProviderFacts.
Import LLMProvider.

Lemma truthy_str_opt_spec (env : environ) (k : string) :
  truthy_str_opt (getenv env k) = true ↔ has_value env k.
Proof.
  unfold getenv, has_value, truthy_str_opt.
  destruct (env !! k) as [s|]; split.
  - intros H. exists s. split; [done|]. intros ->. discriminate.
  - intros (v & [= <-] & Hne). destruct (String.eqb_spec s ""); done.
  - discriminate.
  - intros (v & ? & _). discriminate.
Qed.

Lemma check_ollama_spec (probe : result Z) :
  _check_ollama probe = true ↔ probe = Ok 200%Z.
Proof.
  destruct probe as [code|e]; simpl; split; try discriminate.
  - intros H%Z.eqb_eq. by subst.
  - intros [= ->]. reflexivity.
Qed.

Lemma not_has_value_falsy (env : environ) (k : string) :
  ¬ has_value env k → truthy_str_opt (getenv env k) = false.
Proof.
  intros H. destruct (truthy_str_opt (getenv env k)) eqn:E; [|done].
  apply truthy_str_opt_spec in E. contradiction.
Qed.

(** A provider outside the six known names reaches the construction of
    the response with [content] unassigned: no SDK call is made and the
    wrapped [UnboundLocalError] is raised. *)
Lemma generate_unknown_provider (sdk : backend) (self : SimpleLLM)
    (prompt : string) (temperature : Q) (w : world) :
  completion_call self prompt temperature = None →
  ∃ m, generate sdk self prompt temperature w
       = (Raise (Exception ("Error with " +:+ self_provider self +:+ ": " +:+ m)), w).
Proof.
  intros H. unfold generate, generate_body. rewrite H. simpl. eauto.
Qed.

Lemma supported_has_call (self : SimpleLLM) (prompt : string) (temperature : Q) :
  supported (self_provider self) →
  ∃ c, completion_call self prompt temperature = Some c.
Proof.
  unfold supported, completion_call. intros H.
  repeat (apply elem_of_cons in H as [-> | H]); simpl; eauto.
  by apply elem_of_nil in H.
Qed.

End LLMProviderFacts.

(** C1 (as stated: a key counts when it is set, Ollama when it responds).
    The code disagrees with detection by mere presence on two inputs: a key
    that is set to the empty string is skipped, and an Ollama endpoint that
    answers with a status other than 200 is not selected. *)
Lemma detect_provider_presence_counterexample :
  let env : LLMProvider.environ := {[ "OPENAI_API_KEY" := "" ]} in
  let down : result Z := Raise (Other "ConnectionError" "connection refused") in
  (LLMProvider.is_set env "OPENAI_API_KEY" = true
   ∧ LLMProvider.detect_provider_by_presence env down = Ok "openai"
   ∧ LLMProvider._detect_provider env down
     = Raise (ValueError LLMProvider.no_key_message))
  ∧ (LLMProvider.responds (Ok 503%Z) = true
     ∧ LLMProvider.detect_provider_by_presence ∅ (Ok 503%Z) = Ok "ollama"
     ∧ LLMProvider._detect_provider ∅ (Ok 503%Z)
       = Raise (ValueError LLMProvider.no_key_message)).
Proof. vm_compute. repeat split; reflexivity. Qed.

(** C1 (amended).  [_detect_provider] follows the fixed priority
    OPENAI_API_KEY, GOOGLE_API_KEY, ANTHROPIC_API_KEY, FIREWORKS_API_KEY,
    MISTRAL_API_KEY, Ollama, where a key counts when it is set to a
    non-empty value and Ollama counts when the probe of its endpoint
    answers with HTTP status 200; when none of these holds it raises
    [ValueError]. *)
Theorem detect_provider_priority (env : LLMProvider.environ) (probe : result Z) :
  let has := LLMProvider.has_value env in
  let detected := LLMProvider._detect_provider env probe in
  (has "OPENAI_API_KEY" → detected = Ok "openai")
  ∧ (¬ has "OPENAI_API_KEY" → has "GOOGLE_API_KEY" → detected = Ok "gemini")
  ∧ (¬ has "OPENAI_API_KEY" → ¬ has "GOOGLE_API_KEY" →
     has "ANTHROPIC_API_KEY" → detected = Ok "anthropic")
  ∧ (¬ has "OPENAI_API_KEY" → ¬ has "GOOGLE_API_KEY" →
     ¬ has "ANTHROPIC_API_KEY" → has "FIREWORKS_API_KEY" →
     detected = Ok "fireworks")
  ∧ (¬ has "OPENAI_API_KEY" → ¬ has "GOOGLE_API_KEY" →
     ¬ has "ANTHROPIC_API_KEY" → ¬ has "FIREWORKS_API_KEY" →
     has "MISTRAL_API_KEY" → detected = Ok "mistral")
  ∧ (¬ has "OPENAI_API_KEY" → ¬ has "GOOGLE_API_KEY" →
     ¬ has "ANTHROPIC_API_KEY" → ¬ has "FIREWORKS_API_KEY" →
     ¬ has "MISTRAL_API_KEY" →
     (probe = Ok 200%Z → detected = Ok "ollama")
     ∧ (probe ≠ Ok 200%Z →
        detected = Raise (ValueError LLMProvider.no_key_message))).
Proof.
  cbv zeta. unfold LLMProvider._detect_provider.
  repeat split; intros;
    repeat match goal with
    | H : LLMProvider.has_value _ _ |- _ =>
        apply truthy_str_opt_spec in H; rewrite H
    | H : ¬ LLMProvider.has_value _ _ |- _ =>
        apply not_has_value_falsy in H; rewrite H
    end; try reflexivity.
  - subst probe. reflexivity.
  - destruct (LLMProvider._check_ollama probe) eqn:E; [|reflexivity].
    apply check_ollama_spec in E. contradiction.
Qed.

Lemma detect_provider_priority_witness :
  LLMProvider._detect_provider
    {[ "OPENAI_API_KEY" := ""; "GOOGLE_API_KEY" := "g-key" ]}
    (Ok 200%Z) = Ok "gemini".
Proof.
  refine (proj1 (proj2 (detect_provider_priority
           {[ "OPENAI_API_KEY" := ""; "GOOGLE_API_KEY" := "g-key" ]}
           (Ok 200%Z))) _ _).
  - intros (v & Hv & Hne). vm_compute in Hv. congruence.
  - exists "g-key". split; [reflexivity | discriminate].
Defined.

(** [SimpleLLM("groq")] can be built (the constructor gives it the
    default model and no client), but no branch of [generate] matches its
    provider: no completion call is made, and the unassigned [content]
    surfaces as the wrapped exception. *)
Lemma generate_unknown_provider_run :
  let self := {| LLMProvider.self_provider := "groq";
                 LLMProvider.self_model := "gpt-3.5-turbo" |} in
  let sdk : LLMProvider.backend := λ _ _, Ok (LLMProvider.ChatCompletion ["Hi there"]) in
  LLMProvider.completion_call self "Hello!" 0 = None
  ∧ ∃ m, LLMProvider.generate sdk self "Hello!" 0 []
         = (Raise (Exception ("Error with groq: " +:+ m)), []).
Proof. split; [reflexivity | eexists; reflexivity]. Qed.

(** C2.  For each of the six providers that the [if/elif] chain knows,
    that is whenever there is a selected provider's completion call,
    [generate] makes exactly one SDK call, that one; when that call raises,
    [generate] raises [Exception("Error with <provider>: <e>")]; when the
    call returns and the text can be read off the response, [generate]
    returns an [LLMResponse] with that text and the instance's model and
    provider; in the remaining case (the response cannot be read) it
    raises the same wrapped exception.  No path returns a fallback. *)
Theorem generate_single_call (sdk : LLMProvider.backend)
    (self : LLMProvider.SimpleLLM) (prompt : string) (temperature : Q)
    (w : LLMProvider.world) :
  LLMProvider.supported (LLMProvider.self_provider self) →
  let out := LLMProvider.generate sdk self prompt temperature w in
  let wrap e :=
    Raise (Exception ("Error with " +:+ LLMProvider.self_provider self
                        +:+ ": " +:+ str e)) in
  ∃ c, LLMProvider.completion_call self prompt temperature = Some c
       ∧ out.2 = w ++ [c]
       ∧ match sdk (List.length w) c with
         | Raise e => out.1 = wrap e
         | Ok resp =>
             match LLMProvider.extract (LLMProvider.self_provider self) resp with
             | Ok text =>
                 out.1 = Ok {| LLMProvider.content := text;
                               LLMProvider.model := LLMProvider.self_model self;
                               LLMProvider.provider := LLMProvider.self_provider self |}
             | Raise e => out.1 = wrap e
             end
         end.
Proof.
  intros Hs. cbv zeta.
  destruct (supported_has_call self prompt temperature Hs) as [c Hc].
  exists c. split; [exact Hc|].
  unfold LLMProvider.generate, LLMProvider.generate_body, LLMProvider.invoke.
  rewrite Hc.
  destruct (sdk (List.length w) c) as [resp|e]; simpl; [|done].
  destruct (LLMProvider.extract _ resp) as [text|e]; simpl; done.
Qed.

Lemma generate_single_call_witness :
  let sdk : LLMProvider.backend := λ _ _, Ok (LLMProvider.ChatCompletion ["Hi there"]) in
  let self := {| LLMProvider.self_provider := "openai";
                 LLMProvider.self_model := "gpt-3.5-turbo" |} in
  let out := LLMProvider.generate sdk self "Hello!" 0 [] in
  out.1 = Ok {| LLMProvider.content := "Hi there";
                LLMProvider.model := "gpt-3.5-turbo";
                LLMProvider.provider := "openai" |}
  ∧ out.2 = [LLMProvider.ChatCompletionsCreate "openai" "gpt-3.5-turbo" "Hello!" 0].
Proof.
  intros sdk self out.
  assert (Hs : LLMProvider.supported (LLMProvider.self_provider self))
    by (apply elem_of_cons; left; reflexivity).
  destruct (generate_single_call sdk self "Hello!" 0 [] Hs) as (c & Hc & Hw & Hr).
  cbv in Hc. injection Hc as Hc. subst c.
  split; [exact Hr | exact Hw].
Defined.

Section RetryFacts.
Import ExceptionHandling.
Context {A : Type}.
Variable operation : nat → result A.

Lemma calls_app (l1 l2 : list event) : calls (l1 ++ l2) = (calls l1 + calls l2)%nat.
Proof. unfold calls. by rewrite List.filter_app, length_app. Qed.

(** The loop invokes the operation at most once per element of the range. *)
Lemma retry_loop_calls (self : ExceptionHandler) (attempts : list Z) :
  ∀ last log,
    (calls (retry_loop operation self attempts last log).2
     ≤ calls log + List.length attempts)%nat.
Proof.
  induction attempts as [|a rest IH]; intros last log; simpl.
  - destruct last; simpl; lia.
  - destruct (operation (Z.to_nat a)) as [v|e].
    + destruct (0 <? a)%Z; simpl; rewrite !calls_app; cbn; lia.
    + etrans; [apply IH|].
      destruct (a <? max_retries self - 1)%Z; rewrite !calls_app; cbn; lia.
Qed.

Lemma handle_with_retry_calls (self : ExceptionHandler) :
  (calls (handle_with_retry operation self).2 ≤ Z.to_nat (max_retries self))%nat.
Proof.
  unfold handle_with_retry. etrans; [apply retry_loop_calls|].
  unfold range. rewrite length_fmap, length_seq. simpl. lia.
Qed.

End RetryFacts.

(** C6.  [handle_with_retry] invokes the operation at most [max_retries]
    times; for the handler built by [__init__] ([max_retries = 3]) it stops
    at the first invocation that returns and hands that result back, sleeps
    1 s after a failed first and 2 s after a failed second attempt
    ([2 ** attempt], nothing added), does not sleep after the third, and
    raises the exception of the third attempt when all three fail. *)
Theorem handle_with_retry_fixed_count {A : Type} (operation : nat → result A) :
  (∀ self, (ExceptionHandling.calls
              (ExceptionHandling.handle_with_retry operation self).2
            ≤ Z.to_nat (ExceptionHandling.max_retries self))%nat)
  ∧
  let out := ExceptionHandling.handle_with_retry operation
               ExceptionHandling.ExceptionHandler_init in
  let eff := ExceptionHandling.effects out.2 in
  match operation 0%nat, operation 1%nat, operation 2%nat with
  | Ok v, _, _ =>
      out.1 = Ok v ∧ eff = [ExceptionHandling.Called 0]
  | Raise _, Ok v, _ =>
      out.1 = Ok v
      ∧ eff = [ExceptionHandling.Called 0; ExceptionHandling.Slept 1;
               ExceptionHandling.Called 1]
  | Raise _, Raise _, Ok v =>
      out.1 = Ok v
      ∧ eff = [ExceptionHandling.Called 0; ExceptionHandling.Slept 1;
               ExceptionHandling.Called 1; ExceptionHandling.Slept 2;
               ExceptionHandling.Called 2]
  | Raise _, Raise _, Raise e =>
      out.1 = Raise e
      ∧ eff = [ExceptionHandling.Called 0; ExceptionHandling.Slept 1;
               ExceptionHandling.Called 1; ExceptionHandling.Slept 2;
               ExceptionHandling.Called 2]
  end.
Proof.
  split; [intros self; apply handle_with_retry_calls|].
  cbv zeta.
  unfold ExceptionHandling.handle_with_retry, ExceptionHandling.ExceptionHandler_init.
  change (ExceptionHandling.range _) with [0; 1; 2]%Z.
  cbn [ExceptionHandling.retry_loop].
  change (Z.to_nat 0) with 0%nat. change (Z.to_nat 1) with 1%nat.
  change (Z.to_nat 2) with 2%nat.
  destruct (operation 0%nat) as [v0|e0], (operation 1%nat) as [v1|e1],
    (operation 2%nat) as [v2|e2]; split; reflexivity.
Qed.

(** C7.  With the draw [r] of [random.random()] as an input,
    [PrimaryService.get_data] raises [ServiceError] exactly when
    [r > success_rate], and otherwise returns
    ["Primary service result for: "] followed by the query. *)
Theorem get_data_threshold (self : ExceptionHandling.PrimaryService)
    (r : Q) (query : string) :
  let out := (ExceptionHandling.get_data self r query).1 in
  ((∃ m, out = Raise (ServiceError m))
     ↔ (ExceptionHandling.success_rate self < r)%Q)
  ∧ (out = Ok ("Primary service result for: " +:+ query)
     ↔ ¬ (ExceptionHandling.success_rate self < r)%Q)
  ∧ ∀ e, out = Raise e → ∃ m, e = ServiceError m.
Proof.
  cbv zeta. unfold ExceptionHandling.get_data, ExceptionHandling.gt.
  destruct (Qle_bool r _) eqn:E; simpl.
  - apply Qle_bool_iff in E. repeat split.
    + intros [m [=]].
    + intros H. exfalso. by apply (Qlt_not_le _ _ H).
    + intros _ H. by apply (Qlt_not_le _ _ H).
    + intros e [=].
  - assert (H : (ExceptionHandling.success_rate self < r)%Q).
    { apply Qnot_le_lt. intros H%Qle_bool_iff. congruence. }
    repeat split; eauto.
    + intros [=].
    + intros Hn. contradiction.
    + intros e [= <-]. eauto.
Qed.

Section StateMachineFacts.
Import StateMachines.

(** The demonstration's first event, run on the model: from IDLE the
    machine walks through LISTENING, PROCESSING and RESPONDING back to
    IDLE, running four actions and recording four transitions. *)
Lemma transition_user_input_run :
  let w0 := {| prompts := []; clock_reads := 0; stdout := []; actions_run := [] |} in
  ∃ sm w,
    transition (λ _ _, Ok "Hi") (λ _, "12:00:00") 5 USER_INPUT
      {[ "input" := PStr "Hello" ]} (StateMachine_init IDLE) w0
    = Some (true, sm, w)
    ∧ current_state sm = IDLE
    ∧ previous_state sm = Some RESPONDING
    ∧ List.length (history sm) = 4%nat
    ∧ actions_run w
      = [_listening_action; _processing_action; _responding_action; _idle_action]
    ∧ prompts w = [PStr "Hello"].
Proof. vm_compute. eexists _, _. repeat split. Qed.

End StateMachineFacts.

(** C9.  When [(current_state, event)] is not a key of the transitions
    table, [transition] returns [False]; the machine (current and previous
    state, context, history, tables) is the one it was called on; no state
    action runs, the LLM is not called and the clock is not read; the only
    effect is the line reporting the invalid transition. *)
Theorem transition_invalid_is_noop
    (llm : nat → StateMachines.pyval → result string) (now : nat → string)
    (depth : nat) (event : StateMachines.Event) (data : StateMachines.pydict)
    (sm : StateMachines.StateMachine) (w : StateMachines.world) :
  StateMachines.transitions sm !! (StateMachines.current_state sm, event) = None →
  ∃ w',
    StateMachines.transition llm now (S depth) event data sm w
    = Some (false, sm, w')
    ∧ StateMachines.actions_run w' = StateMachines.actions_run w
    ∧ StateMachines.prompts w' = StateMachines.prompts w
    ∧ StateMachines.clock_reads w' = StateMachines.clock_reads w
    ∧ StateMachines.stdout w'
      = StateMachines.stdout w
        ++ ["❌ Invalid transition: "
            +:+ StateMachines.state_value (StateMachines.current_state sm)
            +:+ " + " +:+ StateMachines.event_value event].
Proof.
  intros Hkey. eexists. simpl. rewrite Hkey. repeat split.
Qed.

Lemma transition_invalid_is_noop_witness :
  let w0 := {| StateMachines.prompts := []; StateMachines.clock_reads := 0;
               StateMachines.stdout := []; StateMachines.actions_run := [] |} in
  let sm0 := StateMachines.StateMachine_init StateMachines.IDLE in
  ∃ w',
    StateMachines.transition (λ _ _, Ok "Hi") (λ _, "12:00:00") 1
      StateMachines.WAKE_COMMAND ∅ sm0 w0
    = Some (false, sm0, w')
    ∧ StateMachines.actions_run w' = []
    ∧ StateMachines.prompts w' = []
    ∧ StateMachines.clock_reads w' = 0%nat
    ∧ StateMachines.stdout w' = ["❌ Invalid transition: idle + wake_command"].
Proof.
  intros w0 sm0.
  apply (transition_invalid_is_noop (λ _ _, Ok "Hi") (λ _, "12:00:00") 0
           StateMachines.WAKE_COMMAND ∅ sm0 w0).
  vm_compute. reflexivity.
Defined.

Section ParsingFacts.

Lemma join_strings (sep : string) (l : list string) :
  join sep (JStr <$> l) = Ok (String.concat sep l).
Proof.
  induction l as [|x [|y l] IH]; [reflexivity..|].
  change (JStr <$> (x :: y :: l)) with (JStr x :: (JStr <$> (y :: l))).
  change (join sep (JStr x :: (JStr <$> (y :: l))))
    with (match join sep (JStr <$> (y :: l)) with
          | Ok t => Ok (x +:+ sep +:+ t)
          | Raise e => Raise e
          end).
  by rewrite IH.
Qed.

(** A slice bound at or beyond the length keeps the whole list. *)
Lemma slice_to_all {A} (n : Z) (l : list A) :
  (Z.of_nat (List.length l) <= n)%Z → slice_to n l = l.
Proof.
  intros H. unfold slice_to.
  destruct (0 <=? n)%Z eqn:E; [|lia].
  apply take_ge. lia.
Qed.

Lemma slice_to_length {A} (n : Z) (l : list A) :
  (0 <= n)%Z → (Z.of_nat (List.length (slice_to n l)) <= n)%Z.
Proof.
  intros H. unfold slice_to.
  destruct (0 <=? n)%Z eqn:E; [|lia].
  rewrite length_take. lia.
Qed.

Example split_fences :
  split "```" "a```b```c" = ["a"; "b"; "c"] ∧ split "```" "a```" = ["a"; ""]
  ∧ split "```" "abc" = ["abc"].
Proof. repeat split. Qed.

Example extract_json_fenced :
  extract_json "Here it is: ```json [1, 2] ``` Anything else?" = Ok "[1, 2]"
  ∧ extract_json "``` [3] ```" = Ok "[3]"
  ∧ extract_json " [4] " = Ok " [4] ".
Proof. repeat split. Qed.

Lemma split_upto_cons (n : nat) (sep s : string) :
  ∃ x l, split_upto n sep s = x :: l.
Proof.
  destruct n as [|n]; simpl; [eauto|].
  destruct (split_at sep s) as [[before after]|]; eauto.
Qed.

(** When the separator occurs, [s.split(sep)] has a second item. *)
Lemma split_second (sep s : string) :
  sep ≠ "" → contains sep s = true → ∃ x, item (split sep s) 1 = Ok x.
Proof.
  intros Hsep Hc. unfold contains in Hc. unfold split.
  destruct (split_at sep s) as [[before after]|] eqn:E; [|done].
  destruct s as [|c s].
  - destruct sep; [done|]. discriminate.
  - simpl String.length. cbn [split_upto]. rewrite E.
    destruct (split_upto_cons (String.length s) sep after) as (x & l & ->).
    by exists x.
Qed.

(** The indexing in the extraction of the JSON text never fails. *)
Lemma extract_json_total (response : string) :
  ∃ json_str, extract_json response = Ok json_str.
Proof.
  unfold extract_json.
  destruct (contains "```json" response) eqn:E1.
  - destruct (split_second "```json" response ltac:(done) E1) as [inner ->].
    unfold split at 1.
    destruct (split_upto_cons (String.length inner) "```" inner) as (x & l & ->).
    by eexists.
  - destruct (contains "```" response) eqn:E2; [|by eexists].
    destruct (split_second "```" response ltac:(done) E2) as [inner ->].
    unfold split at 1.
    destruct (split_upto_cons (String.length inner) "```" inner) as (x & l & ->).
    by eexists.
Qed.

End ParsingFacts.

(** C3 (as stated).  With [num_thoughts = 2], the value [main] passes
    through [branching_factor], an answer that is not JSON makes
    [generate_thoughts] return only the first two of its three fallback
    thoughts, not the hard-coded list. *)
Lemma generate_thoughts_fallback_counterexample :
  let llm : nat → TreeOfThoughts.prompt → result string :=
    λ _ _, Ok "Here are some ideas for you." in
  let json_loads : string → result json :=
    λ _, Raise (JSONDecodeError "Expecting value") in
  let w0 := {| TreeOfThoughts.nodes := []; TreeOfThoughts.prompts := [];
               TreeOfThoughts.levels := [] |} in
  ∃ w,
    TreeOfThoughts.generate_thoughts llm json_loads "problem" [] 2 w0
    = Some (Ok (JArr [JStr "Approach 1: Continue with current path";
                      JStr "Alternative 2: Try different method"]), w)
    ∧ JArr [JStr "Approach 1: Continue with current path";
            JStr "Alternative 2: Try different method"]
      ≠ JArr TreeOfThoughts.fallback_thoughts.
Proof. eexists. split; [vm_compute; reflexivity | discriminate]. Qed.

(** C3 (amended).  When [json.loads] raises [JSONDecodeError] on the text
    extracted from the LLM's answer, none of the three functions raises
    and none asks the LLM again (the prompt log grows by exactly the one
    prompt): [generate_thoughts] returns its hard-coded fallback list cut
    to [[:num_thoughts]] (all three entries when [num_thoughts >= 3]),
    [evaluate_thought] returns its default evaluation (criteria 7,
    overall 7.0, continue true), and [PEVAgent.plan] returns its two-step
    fallback plan for the goal. *)
Theorem json_decode_fallbacks (json_loads : string → result json)
    (response msg : string) :
  parse_response json_loads response = Raise (JSONDecodeError msg) →
  (∀ llm problem (current_path : list string) num_thoughts w,
     let p := TreeOfThoughts.ThoughtsPrompt problem
                (match current_path with
                 | [] => "Starting point"
                 | _ => String.concat " -> " current_path
                 end) num_thoughts in
     llm (List.length (TreeOfThoughts.prompts w)) p = Ok response →
     TreeOfThoughts.generate_thoughts llm json_loads problem
       (JStr <$> current_path) num_thoughts w
     = Some (Ok (JArr (slice_to num_thoughts TreeOfThoughts.fallback_thoughts)),
             {| TreeOfThoughts.nodes := TreeOfThoughts.nodes w;
                TreeOfThoughts.prompts := TreeOfThoughts.prompts w ++ [p];
                TreeOfThoughts.levels := TreeOfThoughts.levels w |})
     ∧ ((3 <= num_thoughts)%Z →
        slice_to num_thoughts TreeOfThoughts.fallback_thoughts
        = TreeOfThoughts.fallback_thoughts))
  ∧ (∀ llm problem (thought_path : list string) w,
       let p := TreeOfThoughts.EvaluatePrompt problem
                  (String.concat " -> " thought_path) in
       llm (List.length (TreeOfThoughts.prompts w)) p = Ok response →
       TreeOfThoughts.evaluate_thought llm json_loads problem
         (JStr <$> thought_path) w
       = Some (Ok TreeOfThoughts.fallback_evaluation,
               {| TreeOfThoughts.nodes := TreeOfThoughts.nodes w;
                  TreeOfThoughts.prompts := TreeOfThoughts.prompts w ++ [p];
                  TreeOfThoughts.levels := TreeOfThoughts.levels w |})
       ∧ subscript TreeOfThoughts.fallback_evaluation "overall"
         = Ok (JFloat (Finite 7))
       ∧ subscript TreeOfThoughts.fallback_evaluation "continue"
         = Ok (JBool true)
       ∧ ∀ k, k ∈ ["logic"; "feasibility"; "completeness"; "creativity"] →
              subscript TreeOfThoughts.fallback_evaluation k = Ok (JInt 7))
  ∧ (∀ llm goal w,
       llm (List.length (PEV.prompts w)) (PEV.PlanPrompt goal) = Ok response →
       PEV.plan llm json_loads goal w
       = Some (Ok (PEV.fallback_plan goal),
               {| PEV.prompts := PEV.prompts w ++ [PEV.PlanPrompt goal];
                  PEV.tool_calls := PEV.tool_calls w |})
       ∧ ∃ step1 step2, PEV.fallback_plan goal = JArr [step1; step2]).
Proof.
  intros Hparse. split; [|split].
  - intros llm problem current_path num_thoughts w p Hllm. split.
    + unfold TreeOfThoughts.generate_thoughts.
      unfold mbind at 1, M_bind, bind, lift.
      assert (Hctx :
        match JStr <$> current_path with
        | [] => Ok "Starting point"
        | _ => join " -> " (JStr <$> current_path)
        end
        = Ok (match current_path with
              | [] => "Starting point"
              | _ => String.concat " -> " current_path
              end)).
      { destruct current_path as [|x l]; [reflexivity|].
        apply (join_strings " -> " (x :: l)). }
      rewrite Hctx. unfold mbind, M_bind, bind, TreeOfThoughts.llm_generate.
      fold p. rewrite Hllm, Hparse. reflexivity.
    + intros Hn. apply slice_to_all. simpl. lia.
  - intros llm problem thought_path w p Hllm. split; [|split; [|split]].
    + unfold TreeOfThoughts.evaluate_thought.
      unfold mbind, M_bind, bind, lift, TreeOfThoughts.llm_generate.
      rewrite join_strings. fold p. rewrite Hllm, Hparse. reflexivity.
    + reflexivity.
    + reflexivity.
    + intros k Hk.
      repeat (apply elem_of_cons in Hk as [-> | Hk]; [reflexivity|]).
      by apply elem_of_nil in Hk.
  - intros llm goal w Hllm. split; [|eexists _, _; reflexivity].
    unfold PEV.plan, mbind, M_bind, bind, PEV.llm_generate.
    rewrite Hllm, Hparse. reflexivity.
Qed.

Lemma json_decode_fallbacks_witness :
  let json_loads : string → result json :=
    λ _, Raise (JSONDecodeError "Expecting value") in
  PEV.plan (λ _ _, Ok "Sure! First search, then analyse.") json_loads
    "weather in Paris" {| PEV.prompts := []; PEV.tool_calls := [] |}
  = Some (Ok (PEV.fallback_plan "weather in Paris"),
          {| PEV.prompts := [PEV.PlanPrompt "weather in Paris"];
             PEV.tool_calls := [] |}).
Proof.
  intros json_loads.
  refine (proj1 (proj2 (proj2 (json_decode_fallbacks json_loads
            "Sure! First search, then analyse." "Expecting value" _))
            (λ _ _, Ok "Sure! First search, then analyse.")
            "weather in Paris"
            {| PEV.prompts := []; PEV.tool_calls := [] |} _)).
  - reflexivity.
  - reflexivity.
Defined.

Section ThoughtNodeFacts.
Import TreeOfThoughts.

(** Attaching a node that was just appended to the heap: the parent gains
    one child reference, the new node gets its parent and depth, nothing
    else moves. *)
Lemma add_child_fresh (h : heap) (p : nat) (c pn : ThoughtNode) :
  h !! p = Some pn →
  add_child p (List.length h) (h ++ [c])
  = alter (append_child (List.length h)) p h
    ++ [set_depth (depth pn + 1) (set_parent (Some p) c)].
Proof.
  intros Hp. pose proof (lookup_lt_Some _ _ _ Hp) as Hlt.
  unfold add_child.
  replace (alter (set_parent (Some p)) (List.length h) (h ++ [c]))
    with (h ++ [set_parent (Some p) c]).
  2:{ replace (List.length h) with (List.length h + 0)%nat at 1 by lia.
      by rewrite alter_app_r. }
  rewrite lookup_app_l, Hp by done.
  replace (alter (set_depth (depth pn + 1)) (List.length h)
             (h ++ [set_parent (Some p) c]))
    with (h ++ [set_depth (depth pn + 1) (set_parent (Some p) c)]).
  2:{ replace (List.length h) with (List.length h + 0)%nat at 1 by lia.
      by rewrite alter_app_r. }
  by rewrite alter_app_l.
Qed.

(** How a node of the old heap looks after [add_child_fresh]. *)
Lemma lookup_after_add (h : heap) (p j : nat) (x n : ThoughtNode) :
  h !! j = Some n →
  ∃ n', (alter (append_child (List.length h)) p h ++ [x]) !! j = Some n'
        ∧ parent n' = parent n ∧ depth n' = depth n ∧ content n' = content n
        ∧ (∀ c, c ∈ children n → c ∈ children n')
        ∧ (∀ c, c ∈ children n' → c ∈ children n ∨ (j = p ∧ c = List.length h)).
Proof.
  intros Hj. pose proof (lookup_lt_Some _ _ _ Hj) as Hlt.
  rewrite lookup_app_l by (by rewrite length_alter).
  destruct (decide (p = j)) as [->|Hne].
  - rewrite list_lookup_alter_eq, Hj. simpl. eexists. split; [done|].
    repeat split; simpl; [set_solver|].
    intros c [Hc | ->%list_elem_of_singleton]%elem_of_app; auto.
  - rewrite list_lookup_alter_ne, Hj by done. eexists. split; [done|].
    repeat split; auto.
Qed.

Lemma grown_nonempty (h : heap) : grown h → (0 < List.length h)%nat.
Proof.
  induction 1 as [|h p c _ IH Hp Hc]; simpl; [lia|].
  destruct (lookup_lt_is_Some_2 h p Hp) as [pn Hpn].
  rewrite (add_child_fresh h p c pn Hpn), length_app, length_alter. lia.
Qed.

Lemma grown_well_linked (h : heap) : grown h → well_linked h.
Proof.
  induction 1 as [r Hpar Hdep Hch|h p x Hg IH Hp Hx].
  - intros [|i] n Hn; [|done]. injection Hn as <-.
    rewrite Hpar, Hdep, Hch. repeat split; [lia|]. intros c Hc.
    by apply elem_of_nil in Hc.
  - destruct (lookup_lt_is_Some_2 h p Hp) as [pn Hpn].
    rewrite (add_child_fresh h p x pn Hpn).
    set (x' := set_depth (depth pn + 1) (set_parent (Some p) x)).
    intros i n Hn.
    destruct (decide (i < List.length h)%nat) as [Hi|Hi].
    + (* a node of the old heap *)
      destruct (lookup_lt_is_Some_2 h i Hi) as [n0 Hn0].
      destruct (lookup_after_add h p i x' n0 Hn0)
        as (n' & Hn' & Hpar & Hdep & _ & Hsub & Hsup).
      rewrite Hn in Hn'. injection Hn' as <-.
      destruct (IH i n0 Hn0) as (Hd0 & Hp0 & Hc0).
      rewrite Hpar, Hdep. split; [done|]. split.
      * destruct (parent n0) as [q|]; [|done].
        destruct Hp0 as (Hq & qn & Hqn & Hqd & Hqc). split; [done|].
        destruct (lookup_after_add h p q x' qn Hqn)
          as (qn' & Hqn' & _ & Hqd' & _ & Hqsub & _).
        exists qn'. rewrite Hqd'. auto.
      * intros c Hc. destruct (Hsup c Hc) as [Hold | [-> ->]].
        -- destruct (Hc0 c Hold) as (cn & Hcn & Hcp).
           destruct (lookup_after_add h p c x' cn Hcn)
             as (cn' & Hcn' & Hcp' & _).
           exists cn'. by rewrite Hcp'.
        -- exists x'. split; [|done].
           rewrite lookup_app_r by (by rewrite length_alter).
           by rewrite length_alter, Nat.sub_diag.
    + (* the node just attached *)
      pose proof (lookup_lt_Some _ _ _ Hn) as Hlen.
      rewrite length_app, length_alter in Hlen. simpl in Hlen.
      assert (i = List.length h) as -> by lia.
      rewrite lookup_app_r in Hn by (by rewrite length_alter).
      rewrite length_alter, Nat.sub_diag in Hn. injection Hn as <-.
      destruct (IH p pn Hpn) as (Hd0 & _ & _).
      simpl. split; [lia|]. split.
      * split; [done|].
        destruct (lookup_after_add h p p x' pn Hpn)
          as (pn' & Hpn' & _ & Hpd' & _ & _ & _).
        exists pn'. rewrite Hpd'. split; [done|]. split; [done|].
        rewrite lookup_app_l in Hpn' by (by rewrite length_alter).
        rewrite list_lookup_alter_eq, Hpn in Hpn'. injection Hpn' as <-.
        simpl. set_solver.
      * rewrite Hx. intros c Hc. by apply elem_of_nil in Hc.
Qed.

(** More iterations than needed do not change what [get_path] returns. *)
Lemma get_path_from_mono (h : heap) (n m : nat) :
  (n <= m)%nat → ∀ cur acc path,
  get_path_from n h cur acc = Some path →
  get_path_from m h cur acc = Some path.
Proof.
  revert m. induction n as [|n IH]; intros m Hle cur acc path H.
  - destruct cur; [done|]. destruct m; exact H.
  - destruct m as [|m]; [lia|]. destruct cur as [c|]; [|exact H].
    simpl in *. destruct (h !! c); [|done]. apply IH; [lia|done].
Qed.

(** In a well-linked heap the walk from a node of depth [d] ends after
    [d + 1] steps, at the first node of the heap. *)
Lemma well_linked_path (h : heap) :
  well_linked h → ∀ d i n,
  h !! i = Some n → depth n = Z.of_nat d →
  ∃ path,
    (∀ acc, get_path_from (S d) h (Some i) acc = Some (path ++ acc))
    ∧ List.length path = S d
    ∧ head path = content <$> h !! 0%nat
    ∧ last path = Some (content n).
Proof.
  intros Hwl. induction d as [|d IH]; intros i n Hn Hd.
  - destruct (Hwl i n Hn) as (_ & Hp & _).
    destruct (parent n) as [p|] eqn:Hpar.
    + destruct Hp as (_ & pn & Hpn & Hdep & _).
      destruct (Hwl p pn Hpn) as (Hpos & _). lia.
    + destruct Hp as [-> _]. exists [content n].
      split; [|by rewrite Hn].
      intros acc. simpl. by rewrite Hn, Hpar.
  - destruct (Hwl i n Hn) as (_ & Hp & _).
    destruct (parent n) as [p|] eqn:Hpar; [|lia].
    destruct Hp as (_ & pn & Hpn & Hdep & _).
    destruct (IH p pn Hpn ltac:(lia)) as (pp & Hpp & Hlen & Hhd & Hlast).
    exists (pp ++ [content n]). split; [|split; [|split]].
    + intros acc.
      change (get_path_from (S (S d)) h (Some i) acc)
        with (match h !! i with
              | Some node =>
                  get_path_from (S d) h (parent node) (content node :: acc)
              | None => None
              end).
      by rewrite Hn, Hpar, Hpp, <- app_assoc.
    + rewrite length_app, Hlen. simpl. lia.
    + destruct pp; [done|]. exact Hhd.
    + by rewrite last_snoc.
Qed.

End ThoughtNodeFacts.

(** C10 (as stated: any tree put together by [add_child] calls).  Three
    new nodes root, a, b; [a.add_child(b)] and then [root.add_child(a)]
    give the tree root - a - b, built by [add_child] alone from a root of
    depth 0.  [b.depth] is still 1, the same as [a.depth], while
    [b.get_path()] has the three entries root, a, b. *)
Lemma add_child_bottom_up_counterexample :
  let h0 := TreeOfThoughts.ThoughtNode_new <$> [JStr "root"; JStr "a"; JStr "b"] in
  let h := TreeOfThoughts.add_child 0 1 (TreeOfThoughts.add_child 1 2 h0) in
  TreeOfThoughts.assembled h
  ∧ (TreeOfThoughts.children <$> h) = [[1%nat]; [2%nat]; []]
  ∧ (TreeOfThoughts.parent <$> h) = [None; Some 0%nat; Some 1%nat]
  ∧ (TreeOfThoughts.depth <$> h) = [0; 1; 1]%Z
  ∧ TreeOfThoughts.get_path 3 h 2 = Some [JStr "root"; JStr "a"; JStr "b"]
  ∧ ¬ (∃ path n, h !! 2%nat = Some n
                 ∧ TreeOfThoughts.get_path 3 h 2 = Some path
                 ∧ Z.of_nat (List.length path) = (TreeOfThoughts.depth n + 1)%Z).
Proof.
  cbv zeta. split; [|repeat split].
  - apply TreeOfThoughts.assembled_add; [|simpl; lia..].
    apply TreeOfThoughts.assembled_add; [|simpl; lia..].
    apply TreeOfThoughts.assembled_new.
  - intros (path & n & Hn & Hpath & Hlen).
    vm_compute in Hn, Hpath. injection Hn as <-. injection Hpath as <-.
    vm_compute in Hlen. discriminate.
Qed.

(** C10 (amended).  In a tree grown from a root of depth 0 by attaching
    each new node, with [add_child], to a node that is already in the
    tree: every child listed by a node has that node as its parent and a
    depth one larger; and [get_path] on a node of depth [d] ends after
    [d + 1] steps with exactly [d + 1] contents, the first the root's,
    the last the node's own, the ones before the last being the parent's
    path. *)
Theorem grown_tree_paths (h : TreeOfThoughts.heap) :
  TreeOfThoughts.grown h →
  ∀ i n, h !! i = Some n →
    (∀ c, c ∈ TreeOfThoughts.children n →
       ∃ cn, h !! c = Some cn
             ∧ TreeOfThoughts.parent cn = Some i
             ∧ TreeOfThoughts.depth cn = (TreeOfThoughts.depth n + 1)%Z)
    ∧ ∃ path,
        TreeOfThoughts.get_path (S (Z.to_nat (TreeOfThoughts.depth n))) h i
        = Some path
        ∧ Z.of_nat (List.length path) = (TreeOfThoughts.depth n + 1)%Z
        ∧ head path = TreeOfThoughts.content <$> h !! 0%nat
        ∧ last path = Some (TreeOfThoughts.content n)
        ∧ match TreeOfThoughts.parent n with
          | None => i = 0%nat ∧ path = [TreeOfThoughts.content n]
          | Some p =>
              ∃ pn ppath,
                h !! p = Some pn
                ∧ TreeOfThoughts.get_path
                    (S (Z.to_nat (TreeOfThoughts.depth pn))) h p = Some ppath
                ∧ path = ppath ++ [TreeOfThoughts.content n]
          end.
Proof.
  intros Hg i n Hn. pose proof (grown_well_linked h Hg) as Hwl.
  destruct (Hwl i n Hn) as (Hpos & Hpar & Hch). split.
  - intros c Hc. destruct (Hch c Hc) as (cn & Hcn & Hcp).
    exists cn. split; [done|]. split; [done|].
    destruct (Hwl c cn Hcn) as (_ & Hp & _). rewrite Hcp in Hp.
    destruct Hp as (_ & pn & Hpn & Hd & _). congruence.
  - destruct (well_linked_path h Hwl (Z.to_nat (TreeOfThoughts.depth n)) i n
                Hn ltac:(lia)) as (path & Hpath & Hlen & Hhd & Hlast).
    exists path. unfold TreeOfThoughts.get_path.
    split; [by rewrite Hpath, app_nil_r|].
    split; [lia|]. split; [done|]. split; [done|].
    destruct (TreeOfThoughts.parent n) as [p|] eqn:Hp.
    + destruct Hpar as (_ & pn & Hpn & Hd & _).
      destruct (Hwl p pn Hpn) as (Hppos & _).
      destruct (well_linked_path h Hwl (Z.to_nat (TreeOfThoughts.depth pn)) p pn
                  Hpn ltac:(lia)) as (pp & Hpp & _).
      exists pn, pp. split; [done|]. split; [by rewrite Hpp, app_nil_r|].
      specialize (Hpath []). rewrite app_nil_r in Hpath.
      replace (Z.to_nat (TreeOfThoughts.depth n))
        with (S (Z.to_nat (TreeOfThoughts.depth pn))) in Hpath by lia.
      change (TreeOfThoughts.get_path_from
                (S (S (Z.to_nat (TreeOfThoughts.depth pn)))) h (Some i) [])
        with (match h !! i with
              | Some node =>
                  TreeOfThoughts.get_path_from
                    (S (Z.to_nat (TreeOfThoughts.depth pn))) h
                    (TreeOfThoughts.parent node)
                    [TreeOfThoughts.content node]
              | None => None
              end) in Hpath.
      rewrite Hn, Hp, Hpp in Hpath. by injection Hpath as <-.
    + destruct Hpar as [-> Hd]. split; [done|].
      specialize (Hpath []). rewrite app_nil_r, Hd in Hpath.
      simpl in Hpath. rewrite Hn, Hp in Hpath. by injection Hpath as <-.
Qed.

Lemma grown_tree_paths_witness :
  let h := TreeOfThoughts.add_child 0 1
             ([TreeOfThoughts.ThoughtNode_new (JStr "root")]
              ++ [TreeOfThoughts.ThoughtNode_new (JStr "a")]) in
  ∃ n path,
    h !! 1%nat = Some n
    ∧ TreeOfThoughts.get_path (S (Z.to_nat (TreeOfThoughts.depth n))) h 1
      = Some path
    ∧ Z.of_nat (List.length path) = (TreeOfThoughts.depth n + 1)%Z
    ∧ last path = Some (JStr "a").
Proof.
  intros h.
  assert (Hg : TreeOfThoughts.grown h).
  { apply (TreeOfThoughts.grown_add
             [TreeOfThoughts.ThoughtNode_new (JStr "root")] 0
             (TreeOfThoughts.ThoughtNode_new (JStr "a"))).
    - apply TreeOfThoughts.grown_root; reflexivity.
    - simpl. lia.
    - reflexivity. }
  destruct (h !! 1%nat) as [n|] eqn:Hn; [|vm_compute in Hn; discriminate].
  destruct (grown_tree_paths h Hg 1 n Hn)
    as (_ & path & Hpath & Hlen & _ & Hlast & _).
  exists n, path. repeat split; [exact Hpath | exact Hlen |].
  rewrite Hlast. vm_compute in Hn. injection Hn as <-. reflexivity.
Defined.

Section MonadFacts.
Context {W : Type}.

Lemma total_ret {A} (a : A) : total (ret a : M W A).
Proof. intros w. by eexists. Qed.

Lemma total_raise {A} (e : exn) : total (raise e : M W A).
Proof. intros w. by eexists. Qed.

Lemma total_lift {A} (r : result A) : total (lift r : M W A).
Proof. intros w. by eexists. Qed.

Lemma total_bind {A B} (m : M W A) (k : A → M W B) :
  total m → (∀ a, total (k a)) → total (m ≫= k).
Proof.
  intros Hm Hk w. unfold mbind, M_bind, bind.
  destruct (Hm w) as [[[a|e] w'] ->]; [apply Hk | by eexists].
Qed.

Lemma bind_Ok_inv {A B} (m : M W A) (k : A → M W B) (w w' : W) (b : B) :
  (m ≫= k) w = Some (Ok b, w') →
  ∃ a w1, m w = Some (Ok a, w1) ∧ k a w1 = Some (Ok b, w').
Proof.
  unfold mbind, M_bind, bind.
  destruct (m w) as [[[a|e] w1]|]; [eauto | done..].
Qed.

Lemma lift_Ok_inv {A} (r : result A) (w w' : W) (a : A) :
  lift r w = Some (Ok a, w') → r = Ok a ∧ w' = w.
Proof. unfold lift. by intros [= -> ->]. Qed.

Lemma ret_Ok_inv {A} (x a : A) (w w' : W) :
  (ret x : M W A) w = Some (Ok a, w') → a = x ∧ w' = w.
Proof. unfold ret. by intros [= -> ->]. Qed.

End MonadFacts.

Create HintDb total.
#[local] Hint Resolve total_ret total_raise total_lift : total.

Section PEVFacts.
Import PEV.
Variable llm : nat → prompt → result string.
Variable json_loads : string → result json.
Variable run_tool : nat → string → json → json.
Variable str_of : json → string.

Lemma total_llm_generate (p : prompt) : total (llm_generate llm p).
Proof. intros w. by eexists. Qed.

Lemma total_call_tool (name : string) (ps : json) :
  total (call_tool run_tool name ps).
Proof. intros w. by eexists. Qed.

Lemma total_execute_step (step : json) :
  total (execute_step run_tool str_of step).
Proof.
  unfold execute_step.
  apply total_bind; [auto with total|]. intros tool_name.
  apply total_bind; [auto with total|]. intros parameters.
  destruct tool_name; auto with total.
  case_bool_decide; auto using total_call_tool with total.
Qed.

Lemma total_verify_step (step res : json) :
  total (verify_step llm json_loads step res).
Proof.
  unfold verify_step.
  apply total_bind; [auto with total|]. intros description.
  apply total_bind; [auto with total|]. intros tool.
  apply total_bind; [auto with total|]. intros parameters.
  apply total_bind; [apply total_llm_generate|]. intros response.
  destruct (parse_response json_loads response) as [v|[]]; auto with total.
Qed.

Lemma total_iteration (self : PEVAgent) (step : json) (rest results : list json)
    (retry_count : Z) :
  total (iteration llm json_loads run_tool str_of self step rest results retry_count).
Proof.
  unfold iteration.
  apply total_bind; [auto with total|]. intros _.
  apply total_bind; [apply total_execute_step|]. intros res.
  apply total_bind; [apply total_verify_step|]. intros verification.
  apply total_bind; [auto with total|]. intros _.
  apply total_bind; [auto with total|]. intros success.
  destruct (truthy success); [auto with total|].
  apply total_bind; [auto with total|]. intros _.
  apply total_bind; [auto with total|]. intros _.
  cbv zeta. destruct (_ <=? _)%Z; auto with total.
Qed.

(** What a pass that did not raise can leave behind: the step is done and
    the counter is back at zero; or the step is back at the front of the
    plan and the counter went up, still below the limit; or the loop is
    left. *)
Lemma iteration_control (self : PEVAgent) (step : json) (rest results : list json)
    (retry_count : Z) (w w' : world) (c : control) :
  iteration llm json_loads run_tool str_of self step rest results retry_count w
  = Some (Ok c, w') →
  (∃ entry, c = Next rest (results ++ [entry]) 0)
  ∨ (c = Next (step :: rest) results (retry_count + 1)
     ∧ (retry_count + 1 < max_retries self)%Z)
  ∨ (∃ entry, c = Stop (results ++ [entry])).
Proof.
  unfold iteration. intros H.
  apply bind_Ok_inv in H as (_ & w1 & _ & H).
  apply bind_Ok_inv in H as (res & w2 & _ & H).
  apply bind_Ok_inv in H as (verification & w3 & _ & H).
  apply bind_Ok_inv in H as (_ & w4 & _ & H).
  apply bind_Ok_inv in H as (success & w5 & _ & H).
  destruct (truthy success).
  - apply ret_Ok_inv in H as [-> _]. left. eauto.
  - apply bind_Ok_inv in H as (_ & w6 & _ & H).
    apply bind_Ok_inv in H as (_ & w7 & _ & H). cbv zeta in H.
    destruct (max_retries self <=? retry_count + 1)%Z eqn:E;
      apply ret_Ok_inv in H as [-> _].
    + right. right. eauto.
    + right. left. split; [done|]. lia.
Qed.

(** The loop ends, whatever the LLM and the tools answer: at most
    [max_retries] passes are spent on each step of the plan. *)
Lemma execute_and_verify_total (self : PEVAgent) (n : nat) :
  ∀ current_plan results retry_count,
    (0 <= retry_count)%Z →
    (Z.to_nat (max_retries self) * List.length current_plan
     <= n + Z.to_nat retry_count)%nat →
    total (execute_and_verify llm json_loads run_tool str_of n self
             current_plan results retry_count).
Proof.
  induction n as [|n IH]; intros current_plan results retry_count Hpos Hn w.
  - destruct current_plan as [|step rest]; [by eexists|]. simpl.
    destruct (retry_count <? max_retries self)%Z eqn:E; [|by eexists].
    apply Z.ltb_lt in E.
    assert (Z.to_nat retry_count < Z.to_nat (max_retries self))%nat by lia.
    exfalso. change (List.length (step :: rest)) with (S (List.length rest)) in Hn.
    nia.
  - destruct current_plan as [|step rest]; [by eexists|]. simpl.
    destruct (retry_count <? max_retries self)%Z eqn:E; [|by eexists].
    apply Z.ltb_lt in E.
    assert (Z.to_nat retry_count < Z.to_nat (max_retries self))%nat by lia.
    unfold mbind, M_bind, bind.
    destruct (total_iteration self step rest results retry_count w)
      as [[[c|e] w'] Hit]; rewrite Hit; [|by eexists].
    destruct (iteration_control _ _ _ _ _ _ _ _ Hit)
      as [[entry ->] | [[-> Hlt] | [entry ->]]].
    + change (List.length (step :: rest)) with (S (List.length rest)) in Hn.
      apply IH; [lia|]. nia.
    + apply IH; [lia|]. lia.
    + by eexists.
Qed.

End PEVFacts.

(** A run of the loop: the LLM never answers in JSON, so verification
    falls back on the tool's own success flag, and the search tool is
    down.  The first step is tried three times, recorded once as failed,
    and the second step is never executed. *)
Lemma execute_and_verify_three_failures :
  let llm : nat → PEV.prompt → result string := λ _ _, Ok "It did not work." in
  let json_loads : string → result json :=
    λ _, Raise (JSONDecodeError "Expecting value") in
  let run_tool : nat → string → json → json := λ _ _ _, search_unavailable in
  let plan := [search_step "apple ceo"; search_step "aapl"] in
  ∃ verification w,
    PEV.execute_and_verify llm json_loads run_tool (λ _, "") 6
      PEV.PEVAgent_init plan [] 0 {| PEV.prompts := []; PEV.tool_calls := [] |}
    = Some (Ok [PEV.result_entry (search_step "apple ceo") search_unavailable
                  verification "failed"], w)
    ∧ PEV.tool_calls w
      = [("search", JArr [JStr "apple ceo"]); ("search", JArr [JStr "apple ceo"]);
         ("search", JArr [JStr "apple ceo"])].
Proof. vm_compute. eexists _, _. split; reflexivity. Qed.

(** C4.  A step whose verification fails is to be put back and retried.
    Here the LLM answers the verification prompt with the JSON object
    that has the single entry success = false.  The verification has
    failed, but the step is neither retried nor recorded: printing the
    reason of the failure, [verification['reason']], raises [KeyError],
    and the loop is left by that exception after one tool call.  The
    line before reads the same entry with [.get] and a default, and the
    fallback verification always carries the entry. *)
Lemma verification_without_reason_counterexample :
  let response := "{" +:+ dq +:+ "success" +:+ dq +:+ ": false}" in
  let llm : nat → PEV.prompt → result string := λ _ _, Ok response in
  let json_loads : string → result json :=
    λ s, if String.eqb s response then Ok (JObj [("success", JBool false)])
         else Raise (JSONDecodeError "Expecting value") in
  let run_tool : nat → string → json → json := λ _ _ _, search_unavailable in
  let w0 := {| PEV.prompts := []; PEV.tool_calls := [] |} in
  subscript (JObj [("success", JBool false)]) "success" = Ok (JBool false)
  ∧ ∃ w,
      PEV.execute_and_verify llm json_loads run_tool (λ _, "") 3
        PEV.PEVAgent_init [search_step "apple ceo"] [] 0 w0
      = Some (Raise (KeyError "reason"), w)
      ∧ List.length (PEV.tool_calls w) = 1%nat.
Proof. split; [reflexivity|]. vm_compute. eexists. split; reflexivity. Qed.

(** The same run seen from [solve]: the plan is the fallback plan (the
    planning prompt is answered with text that is not JSON), its first
    step is executed once, and the call ends with [KeyError] instead of
    a result. *)
Example solve_verification_without_reason :
  let response := "{" +:+ dq +:+ "success" +:+ dq +:+ ": false}" in
  let llm : nat → PEV.prompt → result string :=
    λ _ q, match q with
           | PEV.PlanPrompt _ => Ok "I cannot plan this."
           | _ => Ok response
           end in
  let json_loads : string → result json :=
    λ s, if String.eqb s response then Ok (JObj [("success", JBool false)])
         else Raise (JSONDecodeError "Expecting value") in
  let run_tool : nat → string → json → json := λ _ _ _, search_unavailable in
  let synthesize : nat → string → list json → result string :=
    λ _ _ _, Ok "never asked" in
  ∃ w,
    PEV.solve llm json_loads run_tool (λ _, "") synthesize PEV.PEVAgent_init
      "apple ceo" {| PEV.prompts := []; PEV.tool_calls := [] |}
    = Some (Raise (KeyError "reason"), w)
    ∧ PEV.tool_calls w = [("search", JArr [JStr "apple ceo"])]
    ∧ List.length (PEV.prompts w) = 2%nat.
Proof. vm_compute. eexists. repeat split; reflexivity. Qed.

(** The loop of [solve], pass by pass, when the verification carries the
    entries that are printed.  The loop always ends, after at most
    [max_retries] passes per step of the plan, by running out of steps,
    by the [break] or by an exception.  A pass whose verification
    succeeds records the step as "success", drops it from the plan and
    resets the counter to zero.  A pass whose verification fails, and
    carries the "reason" and "suggestion" entries, puts the step back at
    the front of the plan and increments the counter; when the counter
    reaches [max_retries] (3) the step is recorded as "failed" and the
    loop is left, otherwise the loop goes on with that same step. *)
Theorem execute_and_verify_bounded_retry
    (llm : nat → PEV.prompt → result string)
    (json_loads : string → result json)
    (run_tool : nat → string → json → json) (str_of : json → string)
    (self : PEV.PEVAgent) :
  let loop := PEV.execute_and_verify llm json_loads run_tool str_of in
  let pass := PEV.iteration llm json_loads run_tool str_of self in
  PEV.max_retries PEV.PEVAgent_init = 3%Z
  ∧ (∀ plan w,
       ∃ out, loop (Z.to_nat (PEV.max_retries self) * List.length plan)%nat
                self plan [] 0%Z w = Some out)
  ∧ (∀ n step rest results retry_count w,
       (retry_count < PEV.max_retries self)%Z →
       loop (S n) self (step :: rest) results retry_count w
       = match pass step rest results retry_count w with
         | Some (Ok (PEV.Next current_plan results retry_count), w') =>
             loop n self current_plan results retry_count w'
         | Some (Ok (PEV.Stop results), w') => Some (Ok results, w')
         | Some (Raise e, w') => Some (Raise e, w')
         | None => None
         end)
  ∧ (∀ step rest results retry_count w description res w1 verification w2
       reason success,
       subscript step "step" = Ok description →
       PEV.execute_step run_tool str_of step w = Some (Ok res, w1) →
       PEV.verify_step llm json_loads step res w1 = Some (Ok verification, w2) →
       get verification "reason" (JStr "Verification completed") = Ok reason →
       subscript verification "success" = Ok success →
       (truthy success = true →
        pass step rest results retry_count w
        = Some (Ok (PEV.Next rest
                      (results ++ [PEV.result_entry step res verification "success"])
                      0%Z), w2))
       ∧ (truthy success = false →
          is_ok (subscript verification "reason") = true →
          is_ok (subscript verification "suggestion") = true →
          pass step rest results retry_count w
          = if (PEV.max_retries self <=? retry_count + 1)%Z then
              Some (Ok (PEV.Stop
                          (results ++ [PEV.result_entry step res verification "failed"])),
                    w2)
            else
              Some (Ok (PEV.Next (step :: rest) results (retry_count + 1)%Z), w2))).
Proof.
  cbv zeta. split; [reflexivity|]. split; [|split].
  - intros plan w.
    destruct (execute_and_verify_total llm json_loads run_tool str_of self
                (Z.to_nat (PEV.max_retries self) * List.length plan)
                plan [] 0%Z ltac:(lia) ltac:(lia) w) as [out Hout].
    by exists out.
  - intros n step rest results retry_count w Hlt.
    apply Z.ltb_lt in Hlt. simpl. rewrite Hlt.
    unfold mbind, M_bind, bind.
    destruct (PEV.iteration _ _ _ _ _ _ _ _ _ w) as [[[[]|] ?]|]; reflexivity.
  - intros step rest results retry_count w description res w1 verification w2
      reason success Hdesc Hexec Hver Hreason Hsuccess.
    unfold PEV.iteration, mbind, M_bind, bind, lift.
    rewrite Hdesc, Hexec, Hver, Hreason, Hsuccess.
    split.
    + intros ->. reflexivity.
    + intros -> Hr Hs.
      destruct (subscript verification "reason"); [|discriminate].
      destruct (subscript verification "suggestion"); [|discriminate].
      cbv zeta. destruct (_ <=? _)%Z; reflexivity.
Qed.

Lemma execute_and_verify_bounded_retry_witness :
  let llm : nat → PEV.prompt → result string := λ _ _, Ok "It did not work." in
  let json_loads : string → result json :=
    λ _, Raise (JSONDecodeError "Expecting value") in
  let run_tool : nat → string → json → json := λ _ _ _, search_unavailable in
  ∃ out,
    PEV.execute_and_verify llm json_loads run_tool (λ _, "") 6
      PEV.PEVAgent_init [search_step "apple ceo"; search_step "aapl"] [] 0
      {| PEV.prompts := []; PEV.tool_calls := [] |} = Some out.
Proof.
  intros llm json_loads run_tool.
  exact (proj1 (proj2 (execute_and_verify_bounded_retry llm json_loads run_tool
                         (λ _, "") PEV.PEVAgent_init))
           [search_step "apple ceo"; search_step "aapl"]
           {| PEV.prompts := []; PEV.tool_calls := [] |}).
Defined.

Section Wp.
Context {W : Type}.

Lemma wp_ret {A} (a : A) (Q : A → W → Prop) (w : W) :
  Q a w → wp (ret a) Q w.
Proof. done. Qed.

Lemma wp_lift {A} (r : result A) (Q : A → W → Prop) (w : W) :
  (∀ a, r = Ok a → Q a w) → wp (lift r) Q w.
Proof. unfold wp, lift. destruct r; auto. Qed.

Lemma wp_bind {A B} (m : M W A) (k : A → M W B) (Q : B → W → Prop) (w : W) :
  wp m (λ a w1, wp (k a) Q w1) w → wp (m ≫= k) Q w.
Proof.
  unfold wp, mbind, M_bind, bind.
  by destruct (m w) as [[[a|e] w1]|].
Qed.

Lemma wp_mono {A} (m : M W A) (P Q : A → W → Prop) (w : W) :
  wp m P w → (∀ a w', P a w' → Q a w') → wp m Q w.
Proof.
  unfold wp. destruct (m w) as [[[a|e] w1]|]; auto.
Qed.

Lemma wp_total {A} (m : M W A) (Q : A → W → Prop) (w : W) :
  wp m Q w → ∃ out, m w = Some out ∧ ∀ a w', out = (Ok a, w') → Q a w'.
Proof.
  unfold wp. destruct (m w) as [[[a|e] w1]|]; [| |done]; intros H;
    eexists; (split; [reflexivity|]); by intros ?? [= <- <-].
Qed.

End Wp.

Section TreeHeapFacts.
Import TreeOfThoughts.
Variable self : TreeOfThoughts.
Variable root : nat.

Lemma attach_length (h : heap) (node : nat) (kid : ThoughtNode) :
  List.length (attach h node kid) = S (List.length h).
Proof. unfold attach. rewrite length_app, length_alter. simpl. lia. Qed.

Lemma attach_lookup_new (h : heap) (node : nat) (kid : ThoughtNode) :
  attach h node kid !! List.length h = Some kid.
Proof.
  unfold attach. rewrite lookup_app_r by (by rewrite length_alter).
  by rewrite length_alter, Nat.sub_diag.
Qed.

Lemma attach_lookup_node (h : heap) (node : nat) (kid pn : ThoughtNode) :
  h !! node = Some pn →
  attach h node kid !! node = Some (append_child (List.length h) pn).
Proof.
  intros Hn. pose proof (lookup_lt_Some _ _ _ Hn).
  unfold attach. rewrite lookup_app_l by (by rewrite length_alter).
  by rewrite list_lookup_alter_eq, Hn.
Qed.

Lemma attach_lookup_ne (h : heap) (node j : nat) (kid : ThoughtNode) :
  j ≠ node → (j < List.length h)%nat → attach h node kid !! j = h !! j.
Proof.
  intros Hne Hlt. unfold attach.
  rewrite lookup_app_l by (by rewrite length_alter).
  by rewrite list_lookup_alter_ne.
Qed.

Lemma attach_lookup_inv (h : heap) (node j : nat) (kid n : ThoughtNode) :
  attach h node kid !! j = Some n →
  (j = List.length h ∧ n = kid)
  ∨ (j ≠ node ∧ h !! j = Some n)
  ∨ (j = node ∧ ∃ pn, h !! node = Some pn ∧ n = append_child (List.length h) pn).
Proof.
  intros Hj. pose proof (lookup_lt_Some _ _ _ Hj) as Hlt.
  rewrite attach_length in Hlt.
  destruct (decide (j = List.length h)) as [->|Hnew].
  - rewrite attach_lookup_new in Hj. left. split; congruence.
  - right. destruct (decide (j = node)) as [->|Hne].
    + right. split; [done|].
      destruct (lookup_lt_is_Some_2 h node ltac:(lia)) as [pn Hpn].
      rewrite (attach_lookup_node h node kid pn Hpn) in Hj.
      exists pn. split; congruence.
    + left. split; [done|]. by rewrite attach_lookup_ne in Hj by lia.
Qed.

Lemma alter_attach_new (f : ThoughtNode → ThoughtNode) (h : heap) (node : nat)
    (kid : ThoughtNode) :
  alter f (List.length h) (attach h node kid) = attach h node (f kid).
Proof.
  unfold attach.
  replace (List.length h)
    with (List.length (alter (append_child (List.length h)) node h) + 0)%nat
    at 1 by (rewrite length_alter; lia).
  by rewrite alter_app_r.
Qed.

Lemma links_ok_attach (h : heap) (node : nat) (kid : ThoughtNode) :
  links_ok root h → (root <= node < List.length h)%nat → parent kid = Some node →
  links_ok root (attach h node kid).
Proof.
  intros Hl Hnode Hkid i n p Hi Hn Hp.
  destruct (attach_lookup_inv _ _ _ _ _ Hn)
    as [[-> ->] | [[Hne Hold] | [-> (pn & Hpn & ->)]]].
  - rewrite Hkid in Hp. injection Hp as <-. lia.
  - eauto.
  - simpl in Hp. eauto.
Qed.

Lemma bounds_ok_attach (h : heap) (node : nat) (kid pn : ThoughtNode) :
  bounds_ok self root h → (root <= node)%nat → h !! node = Some pn →
  (Z.of_nat (List.length (children pn)) + 1 <= branching_factor self)%Z →
  (depth pn + 1 <= max_depth self)%Z →
  depth kid = (depth pn + 1)%Z → children kid = [] →
  bounds_ok self root (attach h node kid).
Proof.
  intros Hb Hnode Hpn Hroom Hdeep Hd Hc i n Hi Hn.
  pose proof (lookup_lt_Some _ _ _ Hpn) as Hlt.
  destruct (Hb node pn Hnode Hpn) as (Hb1 & Hb2 & Hb3).
  destruct (attach_lookup_inv _ _ _ _ _ Hn)
    as [[-> ->] | [[Hne Hold] | [-> (pn' & Hpn' & ->)]]].
  - rewrite Hc, Hd. simpl. split; [lia|]. split; [lia|].
    intros c Hin. by apply elem_of_nil in Hin.
  - eauto.
  - rewrite Hpn in Hpn'. injection Hpn' as <-. simpl.
    rewrite length_app. simpl. split; [lia|]. split; [lia|].
    intros c [Hin | ->%list_elem_of_singleton]%elem_of_app; [eauto | lia].
Qed.

Lemma queue_ok_attach (h : heap) (node : nat) (kid : ThoughtNode) (lvl : Z)
    (q : list nat) :
  queue_ok root h lvl q → node ∉ q → queue_ok root (attach h node kid) lvl q.
Proof.
  intros [Hnd Hq] Hnotin. split; [done|]. intros i Hi.
  destruct (Hq i Hi) as (Hroot & n & Hn & Hc & Hd). split; [done|].
  exists n. split; [|done].
  rewrite attach_lookup_ne; [done| |by eapply lookup_lt_Some].
  intros ->. contradiction.
Qed.

Lemma queue_ok_snoc (h : heap) (node : nat) (kid : ThoughtNode) (lvl : Z)
    (q : list nat) :
  queue_ok root h lvl q → node ∉ q → (root <= List.length h)%nat →
  depth kid = lvl → children kid = [] →
  queue_ok root (attach h node kid) lvl (q ++ [List.length h]).
Proof.
  intros Hq Hnotin Hroot Hd Hc.
  pose proof (queue_ok_attach h node kid lvl q Hq Hnotin) as [Hnd Hq'].
  split.
  - apply NoDup_app. split; [done|]. split; [|apply NoDup_singleton].
    intros i Hi ->%list_elem_of_singleton.
    destruct Hq as [_ Hq]. destruct (Hq _ Hi) as (_ & n & Hn & _).
    apply lookup_lt_Some in Hn. lia.
  - intros i [Hi | ->%list_elem_of_singleton]%elem_of_app; [auto|].
    split; [done|]. exists kid. by rewrite attach_lookup_new.
Qed.

Lemma carried_ok_attach (h : heap) (node : nat) (kid : ThoughtNode)
    (q : list nat) :
  carried_ok h q → carried_ok (attach h node kid) q.
Proof.
  intros Hq i Hi. destruct (Hq i Hi) as (n & Hn & Ht & Hs).
  pose proof (lookup_lt_Some _ _ _ Hn) as Hlt.
  destruct (decide (i = node)) as [->|Hne].
  - exists (append_child (List.length h) n).
    by rewrite (attach_lookup_node h node kid n Hn).
  - exists n. by rewrite attach_lookup_ne.
Qed.

(** With backward parent links, the walk of [get_path] from a node of
    the new tree ends within as many steps as the heap has nodes. *)
Lemma links_ok_path (h : heap) :
  links_ok root h → ∀ k i acc,
  (root <= i)%nat → (i < root + k)%nat → (i < List.length h)%nat →
  is_Some (get_path_from k h (Some i) acc).
Proof.
  intros Hl. induction k as [|k IH]; intros i acc Hroot Hk Hlt; [lia|].
  destruct (lookup_lt_is_Some_2 h i Hlt) as [n Hn]. simpl. rewrite Hn.
  destruct (parent n) as [p|] eqn:Hp; [|by destruct k; eexists].
  destruct (Hl i n p Hroot Hn Hp). apply IH; lia.
Qed.

Lemma in_tree_root_le (h : heap) (i : nat) :
  bounds_ok self root h → in_tree h root i → (root <= i)%nat.
Proof.
  intros Hb. induction 1 as [|p c pn _ IH Hpn Hc]; [lia|].
  destruct (Hb p pn IH Hpn) as (_ & _ & Hch). auto.
Qed.

End TreeHeapFacts.

Section TreeStepFacts.
Import TreeOfThoughts.
Variable llm : nat → prompt → result string.
Variable json_loads : string → result json.

Lemma wp_llm_generate (p : prompt) (Q : string → world → Prop) (w : world) :
  (∀ r, Q r {| nodes := nodes w; prompts := prompts w ++ [p];
               levels := levels w |}) →
  wp (llm_generate llm p) Q w.
Proof.
  intros H. unfold wp, llm_generate.
  destruct (llm (List.length (prompts w)) p); [apply H | done].
Qed.

Lemma wp_alloc (n : ThoughtNode) (Q : nat → world → Prop) (w : world) :
  Q (List.length (nodes w)) (with_nodes (nodes w ++ [n]) w) →
  wp (alloc n) Q w.
Proof. done. Qed.

Lemma wp_update_heap (f : heap → heap) (Q : unit → world → Prop) (w : world) :
  Q tt (with_nodes (f (nodes w)) w) → wp (update_heap f) Q w.
Proof. done. Qed.

Lemma wp_node_path (i : nat) (Q : list json → world → Prop) (w : world) :
  is_Some (get_path (List.length (nodes w)) (nodes w) i) →
  (∀ path, Q path w) → wp (node_path i) Q w.
Proof.
  intros [path Hpath] HQ. unfold wp, node_path. rewrite Hpath. apply HQ.
Qed.

Lemma wp_log_level (queue : list nat) (Q : unit → world → Prop) (w : world) :
  Q tt {| nodes := nodes w; prompts := prompts w;
          levels := levels w ++ [queue] |} →
  wp (log_level queue) Q w.
Proof. done. Qed.

Lemma evaluate_thought_frame (problem : string) (path : list json) (w : world) :
  wp (evaluate_thought llm json_loads problem path) (same_tree w) w.
Proof.
  unfold evaluate_thought.
  apply wp_bind, wp_lift. intros path_text _.
  apply wp_bind, wp_llm_generate. intros response.
  destruct (parse_response json_loads response) as [v|[]];
    first [by apply wp_ret | by apply wp_lift].
Qed.

Lemma is_terminal_check_frame (problem : string) (path : list json) (w : world) :
  wp (is_terminal_check llm json_loads problem path) (same_tree w) w.
Proof.
  unfold is_terminal_check.
  apply wp_bind, wp_lift. intros path_text _.
  apply wp_bind, wp_llm_generate. intros response.
  destruct (parse_response json_loads response) as [v|e]; simpl.
  - destruct (get v "is_complete" (JBool false)) as [x|[]];
      first [by apply wp_ret | by apply wp_lift].
  - destruct e; first [by apply wp_ret | by apply wp_lift].
Qed.

(** Slicing to a non-negative bound leaves at most that many items to
    iterate over. *)
Lemma slice_iterate_length (v t : json) (n : Z) (items : list json) :
  (0 <= n)%Z → slice v n = Ok t → iterate t = Ok items →
  (Z.of_nat (List.length items) <= n)%Z.
Proof.
  intros Hn Hs Hi. destruct v; try discriminate; simpl in Hs;
    injection Hs as <-; simpl in Hi; injection Hi as <-.
  - rewrite list_ascii_of_string_of_list_ascii, length_fmap.
    by apply slice_to_length.
  - by apply slice_to_length.
Qed.

Lemma generate_thoughts_frame (problem : string) (path : list json) (n : Z)
    (w : world) :
  (0 <= n)%Z →
  wp (generate_thoughts llm json_loads problem path n)
     (λ thoughts w',
        same_tree w thoughts w'
        ∧ ∀ items, iterate thoughts = Ok items →
                   (Z.of_nat (List.length items) <= n)%Z) w.
Proof.
  intros Hn. unfold generate_thoughts.
  apply wp_bind, wp_lift. intros path_context _.
  apply wp_bind, wp_llm_generate. intros response.
  destruct (parse_response json_loads response) as [v|e]; simpl.
  - destruct (slice v n) as [t|e] eqn:Hs.
    + apply wp_lift. intros a [= <-]. split; [done|].
      intros items Hi. by eapply slice_iterate_length.
    + destruct e; try (by apply wp_lift; intros ? [=]).
      apply wp_ret. split; [done|]. intros items [= <-].
      by apply slice_to_length.
  - destruct e; try (by apply wp_lift; intros ? [=]).
    apply wp_ret. split; [done|]. intros items [= <-].
    by apply slice_to_length.
Qed.

(** One pass of [for thought_content in thoughts]: a new node is attached
    to [node], and it enters the next queue only when it is not terminal
    and scores at least 6.0. *)
Lemma expand_thought_wp (root : nat) (problem : string) (node : nat)
    (item : json) (nq : list nat) (w : world) (pn : ThoughtNode) :
  links_ok root (nodes w) → (root <= node)%nat → nodes w !! node = Some pn →
  wp (expand_thought llm json_loads problem node item nq)
     (λ nq' w',
        ∃ kid,
          nodes w' = attach (nodes w) node kid
          ∧ parent kid = Some node
          ∧ depth kid = (depth pn + 1)%Z
          ∧ children kid = []
          ∧ levels w' = levels w
          ∧ (nq' = nq
             ∨ (nq' = nq ++ [List.length (nodes w)]
                ∧ truthy (is_terminal kid) = false
                ∧ ge_6 (evaluation_score kid) = Ok true))) w.
Proof.
  intros Hl Hroot Hpn. pose proof (lookup_lt_Some _ _ _ Hpn) as Hlt.
  set (h := nodes w) in *.
  set (kid0 := set_depth (depth pn + 1) (set_parent (Some node) (ThoughtNode_new item))).
  unfold expand_thought.
  apply wp_bind, wp_alloc. apply wp_bind, wp_update_heap.
  cbn [nodes with_nodes]. fold h.
  rewrite (add_child_fresh h node _ pn Hpn). fold kid0.
  change (alter (append_child (List.length h)) node h ++ [kid0])
    with (attach h node kid0).
  apply wp_bind, wp_node_path.
  { cbn [nodes with_nodes]. rewrite attach_length.
    apply (links_ok_path root).
    - apply links_ok_attach; [done | lia | done].
    - lia.
    - lia.
    - rewrite attach_length. lia. }
  intros new_path.
  apply wp_bind. eapply wp_mono; [apply evaluate_thought_frame|].
  intros evaluation w1 [Hn1 Hv1]. cbn [nodes levels with_nodes] in Hn1, Hv1.
  apply wp_bind, wp_lift. intros overall _.
  apply wp_bind, wp_update_heap.
  rewrite Hn1, alter_attach_new.
  apply wp_bind. eapply wp_mono; [apply is_terminal_check_frame|].
  intros terminal w2 [Hn2 Hv2]. cbn [nodes levels with_nodes] in Hn2, Hv2.
  apply wp_bind, wp_update_heap.
  rewrite Hn2, alter_attach_new.
  apply wp_bind, wp_lift. intros _ _.
  set (kid := set_is_terminal terminal (set_evaluation_score overall kid0)).
  assert (Hbase : ∀ nq', nq' = nq
                         ∨ (nq' = nq ++ [List.length h]
                            ∧ truthy (is_terminal kid) = false
                            ∧ ge_6 (evaluation_score kid) = Ok true) →
    ∃ k, nodes (with_nodes (attach h node kid) w2) = attach h node k
         ∧ parent k = Some node ∧ depth k = (depth pn + 1)%Z
         ∧ children k = []
         ∧ levels (with_nodes (attach h node kid) w2) = levels w
         ∧ (nq' = nq
            ∨ (nq' = nq ++ [List.length h]
               ∧ truthy (is_terminal k) = false
               ∧ ge_6 (evaluation_score k) = Ok true))).
  { intros nq' Hq. exists kid. repeat split; try done.
    cbn [levels with_nodes]. by rewrite Hv2, Hv1. }
  destruct (truthy terminal) eqn:Ht.
  - apply wp_ret, Hbase. by left.
  - apply wp_bind, wp_lift. intros good Hgood.
    destruct good; apply wp_ret, Hbase; [right | by left].
    split; [done|]. split; [exact Ht | exact Hgood].
Qed.

End TreeStepFacts.

Section TreeLoopFacts.
Import TreeOfThoughts.
Variable llm : nat → prompt → result string.
Variable json_loads : string → result json.
Variable self : TreeOfThoughts.
Variable problem : string.
Variable root : nat.
Hypothesis branching_nonneg : (0 <= branching_factor self)%Z.

Lemma queue_ok_not_in (h : heap) (lvl : Z) (q : list nat) (node : nat)
    (pn : ThoughtNode) :
  queue_ok root h (lvl + 1) q → h !! node = Some pn → depth pn = lvl →
  node ∉ q.
Proof.
  intros [_ Hq] Hpn Hd Hin.
  destruct (Hq node Hin) as (_ & n & Hn & _ & Hdn).
  rewrite Hpn in Hn. injection Hn as <-. lia.
Qed.

Lemma for_thoughts_wp (lvl : Z) (node : nat) (rest : list nat)
    (lv old : list (list nat)) (items : list json) :
  ∀ nq w,
    thoughts_inv self root lvl node rest nq (List.length items) lv old w →
    wp (for_thoughts llm json_loads problem node items nq)
       (λ nq' w', thoughts_inv self root lvl node rest nq' 0 lv old w') w.
Proof.
  induction items as [|item items IH]; intros nq w Hinv.
  - by apply wp_ret.
  - destruct Hinv as (Hl & Hb & Hroot & (pn & Hpn & Hd & Hroom) & Hlvl
                      & Hrest & Hnotin & Hnq & Hcar & Hlv & Hold).
    pose proof (lookup_lt_Some _ _ _ Hpn) as Hlt.
    cbn [for_thoughts]. apply wp_bind.
    eapply wp_mono; [by apply (expand_thought_wp llm json_loads root)|].
    intros nq' w' (kid & Hn' & Hkp & Hkd & Hkc & Hlv' & Hq').
    cbn [List.length] in Hroom.
    assert (Hnq_notin : node ∉ nq) by (by eapply queue_ok_not_in).
    apply IH. unfold thoughts_inv. rewrite Hn'.
    split; [|split; [|split; [|split; [|split]]]].
    + apply links_ok_attach; [done | lia | done].
    + eapply bounds_ok_attach; eauto; lia.
    + done.
    + exists (append_child (List.length (nodes w)) pn).
      split; [by apply attach_lookup_node|]. split; [done|].
      simpl. rewrite length_app. simpl. lia.
    + done.
    + split; [by apply queue_ok_attach|]. split; [done|].
      assert (Hnq' : queue_ok root (attach (nodes w) node kid) (lvl + 1) nq'
                     ∧ carried_ok (attach (nodes w) node kid) nq').
      { destruct Hq' as [-> | (-> & Ht & Hs)].
        - split; [by apply queue_ok_attach | by apply carried_ok_attach].
        - split; [apply queue_ok_snoc; [done | done | lia | lia | done]|].
          intros i [Hi | ->%list_elem_of_singleton]%elem_of_app.
          + by apply (carried_ok_attach _ _ _ nq).
          + exists kid. by rewrite attach_lookup_new. }
      destruct Hnq' as [Hq1 Hq2]. split; [done|]. split; [done|].
      split; [congruence|].
      eapply Forall_impl; [exact Hold|]. intros q. apply carried_ok_attach.
Qed.

Lemma expand_node_wp (lvl : Z) (node : nat) (rest nq : list nat)
    (lv old : list (list nat)) (w : world) :
  queue_inv self root lvl (node :: rest) nq lv old w →
  wp (expand_node llm json_loads self problem node nq)
     (λ nq' w', queue_inv self root lvl rest nq' lv old w') w.
Proof.
  intros Hinv. destruct Hinv as (Hl & Hb & Hlvl & Hqq & Hnq & Hcar & Hlv & Hold).
  destruct Hqq as [Hnd Hq].
  destruct (Hq node ltac:(by apply elem_of_cons; left))
    as (Hroot & pn & Hpn & Hpc & Hpd).
  pose proof (lookup_lt_Some _ _ _ Hpn) as Hlt.
  apply NoDup_cons in Hnd as [Hnotin Hnd].
  unfold expand_node. apply wp_bind, wp_node_path.
  { apply (links_ok_path root); [done | lia | lia | done]. }
  intros current_path. apply wp_bind.
  eapply wp_mono; [by apply generate_thoughts_frame|].
  intros thoughts w1 [[Hn1 Hv1] Hlen].
  apply wp_bind, wp_lift. intros items Hitems.
  eapply wp_mono.
  - apply (for_thoughts_wp lvl node rest lv old). unfold thoughts_inv.
    rewrite Hn1.
    split; [done|]. split; [done|]. split; [done|]. split.
    { exists pn. rewrite Hpc. simpl. split; [done|]. split; [done|].
      specialize (Hlen items Hitems). lia. }
    split; [done|]. split.
    { split; [done|]. intros i Hi. apply Hq, elem_of_cons. by right. }
    split; [exact Hnotin|]. split; [exact Hnq|]. split; [exact Hcar|].
    split; [congruence | exact Hold].
  - intros nq' w' Hinv'.
    destruct Hinv' as (Hl' & Hb' & _ & _ & _ & Hrest' & _ & Hnq' & Hcar' & Hlv' & Hold').
    split; [exact Hl'|]. split; [exact Hb'|]. split; [exact Hlvl|].
    split; [exact Hrest'|]. split; [exact Hnq'|]. split; [exact Hcar'|].
    split; [exact Hlv' | exact Hold'].
Qed.

Lemma for_queue_wp (lvl : Z) (lv old : list (list nat)) (queue : list nat) :
  ∀ nq w,
    queue_inv self root lvl queue nq lv old w →
    wp (for_queue llm json_loads self problem queue nq)
       (λ nq' w', queue_inv self root lvl [] nq' lv old w') w.
Proof.
  induction queue as [|node rest IH]; intros nq w Hinv.
  - by apply wp_ret.
  - cbn [for_queue]. apply wp_bind.
    eapply wp_mono; [by apply expand_node_wp|].
    intros nq' w' Hinv'. by apply IH.
Qed.

Lemma level_loop_wp (base : list (list nat)) (n : nat) :
  ∀ queue lvl logged w,
    links_ok root (nodes w) → bounds_ok self root (nodes w) →
    (0 <= lvl <= max_depth self)%Z →
    queue_ok root (nodes w) lvl queue →
    levels w = base ++ logged → Z.of_nat (List.length logged) = lvl →
    Forall (carried_ok (nodes w)) (tail logged) →
    (logged = [] ∨ carried_ok (nodes w) queue) →
    (max_depth self - lvl <= Z.of_nat n)%Z →
    wp (level_loop llm json_loads n self problem queue lvl)
       (λ _ w', tree_done self root base w') w.
Proof.
  induction n as [|n IH];
    intros queue lvl logged w Hl Hb Hlvl Hq Hlv Hlen Hold Hcar Hn.
  - assert (Hdone : tree_done self root base w).
    { split; [done|]. split; [done|]. exists logged.
      split; [done|]. split; [lia|done]. }
    destruct queue; [by apply wp_ret|]. simpl.
    destruct (lvl <? max_depth self)%Z eqn:E; [lia | by apply wp_ret].
  - assert (Hdone : tree_done self root base w).
    { split; [done|]. split; [done|]. exists logged.
      split; [done|]. split; [lia|done]. }
    destruct queue as [|node rest]; [by apply wp_ret|].
    cbn [level_loop].
    destruct (lvl <? max_depth self)%Z eqn:E; [|by apply wp_ret].
    apply Z.ltb_lt in E.
    apply wp_bind, wp_log_level. apply wp_bind.
    set (queue := node :: rest) in *.
    assert (Hold' : Forall (carried_ok (nodes w)) (tail (logged ++ [queue]))).
    { destruct logged as [|q0 logged]; [by constructor|].
      destruct Hcar as [|Hcar]; [done|]. simpl in *.
      apply Forall_app. split; [done|]. by constructor. }
    eapply wp_mono.
    + apply (for_queue_wp lvl (base ++ logged ++ [queue])
               (tail (logged ++ [queue])) queue []).
      cbn [nodes levels].
      split; [done|]. split; [done|]. split; [lia|]. split; [done|].
      split; [split; [constructor | set_solver]|].
      split; [intros i Hi; by apply elem_of_nil in Hi|].
      split; [by rewrite Hlv, <- app_assoc | done].
    + intros nq' w' (Hl' & Hb' & _ & _ & Hnq' & Hcar' & Hlv' & Holdq).
      apply (IH nq' (lvl + 1)%Z (logged ++ [queue])); try done; try lia.
      * rewrite length_app. simpl. lia.
      * by right.
Qed.

Lemma build_tree_wp (w : world) :
  root = List.length (nodes w) → (0 <= max_depth self)%Z →
  wp (build_tree llm json_loads (Z.to_nat (max_depth self)) self problem)
     (λ r w', r = root ∧ tree_done self root (levels w) w') w.
Proof.
  intros Hroot Hdepth. unfold build_tree.
  apply wp_bind, wp_alloc. rewrite <- Hroot. apply wp_bind.
  set (r0 := ThoughtNode_new (JStr "Start solving the problem")).
  assert (Hlook : ∀ i n, (root <= i)%nat → (nodes w ++ [r0]) !! i = Some n →
                         i = root ∧ n = r0).
  { intros i n Hi Hn. pose proof (lookup_lt_Some _ _ _ Hn) as Hlt.
    rewrite length_app in Hlt. simpl in Hlt.
    assert (i = root) as -> by lia. split; [done|].
    rewrite lookup_app_r, Hroot, Nat.sub_diag in Hn by lia.
    by injection Hn as <-. }
  eapply wp_mono.
  - apply (level_loop_wp (levels w) (Z.to_nat (max_depth self)) [root] 0%Z []);
      cbn [nodes levels with_nodes].
    + intros i n p Hi Hn Hp. destruct (Hlook i n Hi Hn) as [-> ->]. done.
    + intros i n Hi Hn. destruct (Hlook i n Hi Hn) as [-> ->]. simpl.
      split; [lia|]. split; [lia|]. intros c Hc. by apply elem_of_nil in Hc.
    + lia.
    + split; [apply NoDup_singleton|].
      intros i ->%list_elem_of_singleton. split; [done|]. exists r0.
      split; [|done]. by rewrite lookup_app_r, Hroot, Nat.sub_diag by lia.
    + by rewrite app_nil_r.
    + done.
    + constructor.
    + by left.
    + lia.
  - intros u w' Hdone. by apply wp_ret.
Qed.

End TreeLoopFacts.

(** The configuration of [main] ([max_depth=3], [branching_factor=2]) on
    that LLM: two children of the root are carried on (score 7.0, path
    of two entries), their four children have a path of three entries,
    count as terminal and end the walk after two levels. *)
Lemma build_tree_fallback_run :
  ∃ w,
    TreeOfThoughts.build_tree prose_llm no_json 3
      {| TreeOfThoughts.max_depth := 3; TreeOfThoughts.branching_factor := 2 |}
      "problem" empty_world = Some (Ok 0%nat, w)
    ∧ TreeOfThoughts.levels w = [[0%nat]; [1%nat; 2%nat]]
    ∧ (TreeOfThoughts.children <$> TreeOfThoughts.nodes w)
      = [[1; 2]; [3; 4]; [5; 6]; []; []; []; []]%nat
    ∧ (TreeOfThoughts.depth <$> TreeOfThoughts.nodes w) = [0; 1; 1; 2; 2; 2; 2]%Z
    ∧ List.length (TreeOfThoughts.prompts w) = 15%nat.
Proof. vm_compute. eexists. repeat split. Qed.

(** C5 (as stated: for every instance).  With [branching_factor = -1]
    the slice [[:-1]] keeps two of the three fallback thoughts, so the
    root gets two children, more than the branching factor; with
    [max_depth = -1] the loop does not run and the root, of depth 0, is
    deeper than [max_depth]. *)
Lemma build_tree_negative_counterexample :
  (∃ w n,
     TreeOfThoughts.build_tree prose_llm no_json 1
       {| TreeOfThoughts.max_depth := 1; TreeOfThoughts.branching_factor := -1 |}
       "problem" empty_world = Some (Ok 0%nat, w)
     ∧ TreeOfThoughts.nodes w !! 0%nat = Some n
     ∧ TreeOfThoughts.children n = [1%nat; 2%nat]
     ∧ ¬ (Z.of_nat (List.length (TreeOfThoughts.children n)) <= -1)%Z)
  ∧ (∃ w n,
       TreeOfThoughts.build_tree prose_llm no_json 0
         {| TreeOfThoughts.max_depth := -1; TreeOfThoughts.branching_factor := 3 |}
         "problem" empty_world = Some (Ok 0%nat, w)
       ∧ TreeOfThoughts.nodes w !! 0%nat = Some n
       ∧ ¬ (TreeOfThoughts.depth n <= -1)%Z).
Proof.
  split; vm_compute; eexists _, _; repeat split; try reflexivity;
    intros H; by apply H.
Qed.

(** C5 (amended).  For a non-negative [max_depth] and a non-negative
    [branching_factor], and whatever the LLM answers: the level loop of
    [build_tree] is over after at most [max_depth] iterations, so the call
    returns or raises; and when it returns, every node of the tree has a
    depth between 0 and [max_depth] and at most [branching_factor]
    children, and every node of every queue after the first, that is
    every child carried into a next level, is not terminal and has an
    evaluation score of at least 6.0. *)
Theorem build_tree_bounded
    (llm : nat → TreeOfThoughts.prompt → result string)
    (json_loads : string → result json)
    (self : TreeOfThoughts.TreeOfThoughts) (problem : string)
    (w : TreeOfThoughts.world) :
  (0 <= TreeOfThoughts.max_depth self)%Z →
  (0 <= TreeOfThoughts.branching_factor self)%Z →
  ∃ out,
    TreeOfThoughts.build_tree llm json_loads
      (Z.to_nat (TreeOfThoughts.max_depth self)) self problem w = Some out
    ∧ ∀ root w', out = (Ok root, w') →
        ∃ logged,
          TreeOfThoughts.levels w' = TreeOfThoughts.levels w ++ logged
          ∧ (Z.of_nat (List.length logged) <= TreeOfThoughts.max_depth self)%Z
          ∧ (∀ i n,
               TreeOfThoughts.in_tree (TreeOfThoughts.nodes w') root i →
               TreeOfThoughts.nodes w' !! i = Some n →
               (0 <= TreeOfThoughts.depth n <= TreeOfThoughts.max_depth self)%Z
               ∧ (Z.of_nat (List.length (TreeOfThoughts.children n))
                  <= TreeOfThoughts.branching_factor self)%Z)
          ∧ (∀ k q i,
               logged !! S k = Some q → i ∈ q →
               ∃ n, TreeOfThoughts.nodes w' !! i = Some n
                    ∧ truthy (TreeOfThoughts.is_terminal n) = false
                    ∧ ge_6 (TreeOfThoughts.evaluation_score n) = Ok true).
Proof.
  intros Hdepth Hbf.
  destruct (wp_total _ _ _
              (build_tree_wp llm json_loads self problem
                 (List.length (TreeOfThoughts.nodes w)) Hbf w eq_refl Hdepth))
    as (out & Hout & Hpost).
  exists out. split; [exact Hout|]. intros root w' ->.
  destruct (Hpost root w' eq_refl) as (-> & Hl & Hb & logged & Hlv & Hlen & Hcar).
  exists logged. split; [exact Hlv|]. split; [exact Hlen|]. split.
  - intros i n Htree Hn.
    pose proof (in_tree_root_le self _ _ i Hb Htree) as Hi.
    destruct (Hb i n Hi Hn) as (Hc & Hd & _). by split.
  - intros k q i Hq Hi.
    assert (Hin : q ∈ tail logged).
    { destruct logged as [|q0 logged]; [done|]. simpl in *.
      by eapply list_elem_of_lookup_2. }
    rewrite Forall_forall in Hcar. by apply (Hcar q Hin).
Qed.

Lemma build_tree_bounded_witness :
  ∃ out,
    TreeOfThoughts.build_tree prose_llm no_json
      (Z.to_nat (TreeOfThoughts.max_depth TreeOfThoughts.TreeOfThoughts_default))
      TreeOfThoughts.TreeOfThoughts_default "problem" empty_world = Some out
    ∧ ∀ root w', out = (Ok root, w') →
        ∃ logged,
          TreeOfThoughts.levels w' = TreeOfThoughts.levels empty_world ++ logged
          ∧ (Z.of_nat (List.length logged)
             <= TreeOfThoughts.max_depth TreeOfThoughts.TreeOfThoughts_default)%Z
          ∧ (∀ i n,
               TreeOfThoughts.in_tree (TreeOfThoughts.nodes w') root i →
               TreeOfThoughts.nodes w' !! i = Some n →
               (0 <= TreeOfThoughts.depth n
                <= TreeOfThoughts.max_depth TreeOfThoughts.TreeOfThoughts_default)%Z
               ∧ (Z.of_nat (List.length (TreeOfThoughts.children n))
                  <= TreeOfThoughts.branching_factor
                       TreeOfThoughts.TreeOfThoughts_default)%Z)
          ∧ (∀ k q i,
               logged !! S k = Some q → i ∈ q →
               ∃ n, TreeOfThoughts.nodes w' !! i = Some n
                    ∧ truthy (TreeOfThoughts.is_terminal n) = false
                    ∧ ge_6 (TreeOfThoughts.evaluation_score n) = Ok true).
Proof.
  apply (build_tree_bounded prose_llm no_json
           TreeOfThoughts.TreeOfThoughts_default "problem" empty_world).
  - simpl. lia.
  - simpl. lia.
Defined.

(* ===================================================================== *)
(** * Further properties: construction of the LLM client                  *)
(* ===================================================================== *)

Section ConstructionFacts.
Import LLMProvider.

Lemma detect_provider_supported (env : environ) (probe : result Z) (p : string) :
  _detect_provider env probe = Ok p → supported p.
Proof.
  unfold _detect_provider, supported.
  repeat (destruct (truthy_str_opt _); [intros [= <-]; set_solver|]).
  destruct (_check_ollama probe); [intros [= <-]; set_solver | discriminate].
Qed.

Lemma default_model_supported (p : string) :
  supported p → _get_default_model p ≠ "" ∧ defaults !! p = Some (_get_default_model p).
Proof.
  unfold supported. intros H.
  repeat (apply elem_of_cons in H as [-> | H]; [by vm_compute|]).
  by apply elem_of_nil in H.
Qed.

End ConstructionFacts.

(** X1.  An instance built without naming a provider ([None] or the
    empty string) always carries one of the six providers [generate]
    knows, and, when no model is named either, that provider's own entry
    of the default table, which is not empty. *)
Theorem init_autodetect_supported (env : LLMProvider.environ) (probe : result Z)
    (sdk_client : string → result unit) (provider model : option string)
    (self : LLMProvider.SimpleLLM) :
  truthy_str_opt provider = false →
  LLMProvider.SimpleLLM_init env probe sdk_client provider model = Ok self →
  LLMProvider.supported (LLMProvider.self_provider self)
  ∧ LLMProvider._detect_provider env probe = Ok (LLMProvider.self_provider self)
  ∧ (truthy_str_opt model = false →
     LLMProvider.defaults !! LLMProvider.self_provider self
     = Some (LLMProvider.self_model self)
     ∧ LLMProvider.self_model self ≠ "").
Proof.
  intros Hp. unfold LLMProvider.SimpleLLM_init. rewrite Hp.
  destruct (LLMProvider._detect_provider env probe) as [p|e] eqn:Hd; [|done].
  simpl. destruct (LLMProvider._create_client sdk_client p); [|done].
  simpl. intros [= <-]. simpl.
  pose proof (detect_provider_supported env probe p Hd) as Hs.
  split; [done|]. split; [done|]. intros ->.
  destruct (default_model_supported p Hs). by split.
Qed.

Lemma init_autodetect_supported_witness :
  let env : LLMProvider.environ := {[ "ANTHROPIC_API_KEY" := "sk-ant" ]} in
  let self := {| LLMProvider.self_provider := "anthropic";
                 LLMProvider.self_model := "claude-3-sonnet-20240229" |} in
  LLMProvider.supported (LLMProvider.self_provider self)
  ∧ LLMProvider._detect_provider env (Raise (Other "ConnectionError" ""))
    = Ok (LLMProvider.self_provider self)
  ∧ (truthy_str_opt None = false →
     LLMProvider.defaults !! LLMProvider.self_provider self
     = Some (LLMProvider.self_model self)
     ∧ LLMProvider.self_model self ≠ "").
Proof.
  intros env self.
  apply (init_autodetect_supported env (Raise (Other "ConnectionError" ""))
           (λ _, Ok tt) None None self); reflexivity.
Defined.

(* ===================================================================== *)
(** * Further properties: retry and fallback of pattern 12                *)
(* ===================================================================== *)

Section RecoveryFacts.
Import ExceptionHandling.

Lemma effects_app (l1 l2 : list event) :
  effects (l1 ++ l2) = effects l1 ++ effects l2.
Proof. unfold effects. apply List.filter_app. Qed.

Lemma slept_app (l1 l2 : list event) :
  (slept (l1 ++ l2) == slept l1 + slept l2)%Q.
Proof.
  induction l1 as [|[] l1 IH]; simpl; rewrite ?IH; ring.
Qed.

(** The waiting time of a run that reaches attempt [k] is a geometric
    sum. *)
Lemma slept_schedule (k : nat) :
  (slept (schedule k) == inject_Z (2 ^ Z.of_nat k - 1))%Q.
Proof.
  induction k as [|k IH]; [reflexivity|].
  cbn [schedule]. rewrite slept_app, IH. cbn [slept].
  rewrite Nat2Z.inj_succ, Z.pow_succ_r by lia.
  unfold Qeq, Qplus, inject_Z. simpl. lia.
Qed.

Lemma backlog_called (a : nat) :
  backlog a ++ [Called (Z.of_nat a)] = schedule a.
Proof. destruct a; [done|]. cbn [backlog schedule]. by rewrite <- app_assoc. Qed.

Context {A : Type}.
Variable operation : nat → result A.
Variable self : ExceptionHandler.
Variable n : nat.
Hypothesis max_retries_n : max_retries self = Z.of_nat n.

Lemma retry_loop_spec (m : nat) :
  ∀ a last log,
    (a + m = n)%nat → effects log = backlog a →
    let out := retry_loop operation self (Z.of_nat <$> seq a m) last log in
    (∀ k v, (a <= k < n)%nat →
       (∀ j, (a <= j < k)%nat → is_ok (operation j) = false) →
       operation k = Ok v →
       out.1 = Ok v ∧ effects out.2 = schedule k)
    ∧ ((∀ j, (a <= j < n)%nat → is_ok (operation j) = false) →
       (0 < m)%nat →
       out.1 = operation (n - 1)%nat ∧ effects out.2 = schedule (n - 1)).
Proof.
  induction m as [|m IH]; intros a last log Ham Hlog; cbv zeta.
  - split; [intros k v Hk; lia | intros _ Hm; lia].
  - cbn [seq fmap list_fmap retry_loop]. rewrite Nat2Z.id.
    assert (Hcalled : effects (log ++ [Called (Z.of_nat a)]) = schedule a).
    { rewrite effects_app, Hlog. apply backlog_called. }
    destruct (operation a) as [v|e] eqn:Hop.
    + split.
      * intros k v' Hk Hfail Hv'.
        destruct (decide (k = a)) as [->|Hne].
        -- rewrite Hop in Hv'. injection Hv' as <-. split; [done|].
           cbn [fst snd].
           destruct (0 <? Z.of_nat a)%Z; [|done].
           by rewrite effects_app, Hcalled, app_nil_r.
        -- specialize (Hfail a ltac:(lia)). by rewrite Hop in Hfail.
      * intros Hfail. specialize (Hfail a ltac:(lia)). by rewrite Hop in Hfail.
    + set (log' := if (Z.of_nat a <? max_retries self - 1)%Z then _ else _).
      assert (Hlog' : effects log'
                      = if decide (m = 0)%nat then schedule a else backlog (S a)).
      { subst log'. rewrite max_retries_n.
        destruct (decide (m = 0)%nat) as [->|Hm].
        - destruct (Z.of_nat a <? Z.of_nat n - 1)%Z eqn:E; [lia|].
          by rewrite effects_app, Hcalled, app_nil_r.
        - destruct (Z.of_nat a <? Z.of_nat n - 1)%Z eqn:E; [|lia].
          rewrite 2!effects_app, Hcalled. cbn [backlog].
          by rewrite app_nil_r. }
      destruct (decide (m = 0)%nat) as [->|Hm].
      * cbn [seq fmap list_fmap retry_loop]. simpl.
        assert (a = n - 1)%nat as Han by lia. split.
        -- intros k v Hk Hfail Hv. assert (k = a) as -> by lia. congruence.
        -- intros _ _. rewrite <- Han, Hop. by split.
      * destruct (IH (S a) (Some e) log' ltac:(lia) Hlog') as [IH1 IH2].
        split.
        -- intros k v Hk Hfail Hv.
           destruct (decide (k = a)) as [->|Hne]; [congruence|].
           apply IH1; [lia | intros j Hj; apply Hfail; lia | done].
        -- intros Hfail _. apply IH2; [intros j Hj; apply Hfail; lia | lia].
Qed.

End RecoveryFacts.

(** X2.  For any [max_retries = n >= 1]: when the operation first
    succeeds at invocation [k < n], [handle_with_retry] returns that
    result after exactly the invocations 0..k with sleeps of 1, 2, ...,
    [2^(k-1)] seconds between them, [2^k - 1] seconds in all; when all
    [n] invocations raise, it raises what the last one raised, after the
    same schedule up to [n - 1] and no sleep at the end. *)
Theorem handle_with_retry_schedule {A : Type} (operation : nat → result A)
    (self : ExceptionHandling.ExceptionHandler) (n : nat) :
  ExceptionHandling.max_retries self = Z.of_nat n → (0 < n)%nat →
  let out := ExceptionHandling.handle_with_retry operation self in
  (∀ k v, (k < n)%nat →
     (∀ j, (j < k)%nat → is_ok (operation j) = false) →
     operation k = Ok v →
     out.1 = Ok v
     ∧ ExceptionHandling.effects out.2 = ExceptionHandling.schedule k
     ∧ (ExceptionHandling.slept (ExceptionHandling.effects out.2)
        == inject_Z (2 ^ Z.of_nat k - 1))%Q)
  ∧ ((∀ j, (j < n)%nat → is_ok (operation j) = false) →
     out.1 = operation (n - 1)%nat
     ∧ ExceptionHandling.effects out.2 = ExceptionHandling.schedule (n - 1)
     ∧ (ExceptionHandling.slept (ExceptionHandling.effects out.2)
        == inject_Z (2 ^ Z.of_nat (n - 1) - 1))%Q).
Proof.
  intros Hmax Hn. cbv zeta. unfold ExceptionHandling.handle_with_retry.
  unfold ExceptionHandling.range. rewrite Hmax, Nat2Z.id.
  destruct (retry_loop_spec operation self n Hmax n 0%nat None []
              ltac:(lia) eq_refl) as [H1 H2].
  split.
  - intros k v Hk Hfail Hv.
    destruct (H1 k v ltac:(lia) ltac:(intros j Hj; apply Hfail; lia) Hv)
      as [Hr He].
    split; [done|]. split; [done|]. rewrite He. apply slept_schedule.
  - intros Hfail.
    destruct (H2 ltac:(intros j Hj; apply Hfail; lia) Hn) as [Hr He].
    split; [done|]. split; [done|]. rewrite He. apply slept_schedule.
Qed.

Lemma handle_with_retry_schedule_witness :
  let operation : nat → result string :=
    λ k, if (k <? 3)%nat then Raise (ServiceError "down") else Ok "up" in
  let self := {| ExceptionHandling.retry_count := 0;
                 ExceptionHandling.max_retries := 5 |} in
  let out := ExceptionHandling.handle_with_retry operation self in
  out.1 = Ok "up"
  ∧ ExceptionHandling.effects out.2 = ExceptionHandling.schedule 3
  ∧ (ExceptionHandling.slept (ExceptionHandling.effects out.2)
     == inject_Z (2 ^ Z.of_nat 3 - 1))%Q.
Proof.
  intros operation self.
  apply (proj1 (handle_with_retry_schedule operation self 5 eq_refl ltac:(lia))
           3%nat "up").
  - lia.
  - intros j Hj. unfold operation.
    destruct (Nat.ltb_spec j 3); [reflexivity | lia].
  - reflexivity.
Defined.

(** X3.  With [max_retries <= 0] the loop body never runs:
    [handle_with_retry] does not invoke the operation at all and its
    final [raise last_exception] raises [TypeError], [last_exception]
    still being [None]. *)
Theorem handle_with_retry_no_attempts {A : Type} (operation : nat → result A)
    (self : ExceptionHandling.ExceptionHandler) :
  (ExceptionHandling.max_retries self <= 0)%Z →
  ∃ msg, ExceptionHandling.handle_with_retry operation self
         = (Raise (TypeError msg), []).
Proof.
  intros H. unfold ExceptionHandling.handle_with_retry, ExceptionHandling.range.
  replace (Z.to_nat (ExceptionHandling.max_retries self)) with 0%nat by lia.
  by eexists.
Qed.

Lemma handle_with_retry_no_attempts_witness :
  ∃ msg,
    ExceptionHandling.handle_with_retry (λ _, Ok "never asked")
      {| ExceptionHandling.retry_count := 0; ExceptionHandling.max_retries := 0 |}
    = (Raise (TypeError msg), []).
Proof.
  apply (handle_with_retry_no_attempts (λ _, Ok "never asked")
           {| ExceptionHandling.retry_count := 0;
              ExceptionHandling.max_retries := 0 |}).
  simpl. lia.
Defined.

(** X4.  [handle_with_fallback] invokes the fallback only after the
    primary operation raised, and asks the LLM for an error message only
    after both raised, once, for the texts of the two exceptions.  What
    it returns is the first result obtained: the primary's, else the
    fallback's, else, both having raised, whatever the LLM call gives,
    its message or its exception.  So an exception gets out only when
    that LLM call raises. *)
Theorem handle_with_fallback_order (llm : string → string → result string)
    (primary fallback : result string * list ExceptionHandling.event) :
  let out := ExceptionHandling.handle_with_fallback llm primary fallback in
  (ExceptionHandling.FallbackTried ∈ out.2 ↔ is_ok primary.1 = false)
  ∧ ((∃ pe fe, ExceptionHandling.ErrorPrompt pe fe ∈ out.2)
     ↔ is_ok primary.1 = false ∧ is_ok fallback.1 = false)
  ∧ (∀ v, primary.1 = Ok v → out.1 = Ok v)
  ∧ (∀ v, is_ok primary.1 = false → fallback.1 = Ok v → out.1 = Ok v)
  ∧ (∀ pe fe, primary.1 = Raise pe → fallback.1 = Raise fe →
       out.1 = llm (str pe) (str fe)
       ∧ ∃ before,
           out.2 = before ++ [ExceptionHandling.ErrorPrompt (str pe) (str fe)]
           ∧ ∀ a b, ExceptionHandling.ErrorPrompt a b ∉ before)
  ∧ (∀ e, out.1 = Raise e →
       ∃ pe fe, primary.1 = Raise pe ∧ fallback.1 = Raise fe
                ∧ llm (str pe) (str fe) = Raise e).
Proof.
  cbv zeta. unfold ExceptionHandling.handle_with_fallback.
  destruct primary as [[pv|pe] pev], fallback as [[fv|fe] fev];
    cbn [fst snd is_ok].
  - split; [set_solver|]. split; [set_solver|]. repeat split; try done.
  - split; [set_solver|]. split; [set_solver|]. repeat split; try done.
  - split; [set_solver|]. split; [set_solver|]. repeat split; try done.
  - split; [set_solver|]. split.
    { split; [done|]. intros _. exists (str pe), (str fe). set_solver. }
    split; [done|]. split; [done|]. split.
    + intros pe' fe' [= <-] [= <-]. split; [done|].
      eexists. split; [reflexivity|]. intros a b. set_solver.
    + intros e He. by exists pe, fe.
Qed.

Section ServiceFacts.
Import ExceptionHandling.

(** Among the first [n] values of a boolean sequence, either one is true,
    and then there is a first such, or all are false. *)
Lemma first_true (P : nat → bool) (n : nat) :
  (∃ k, (k < n)%nat ∧ P k = true ∧ ∀ j, (j < k)%nat → P j = false)
  ∨ (∀ k, (k < n)%nat → P k = false).
Proof.
  induction n as [|n [(k & Hk & Hp & Hmin) | Hall]].
  - right. intros k Hk. lia.
  - left. exists k. split; [lia | done].
  - destruct (P n) eqn:E.
    + left. exists n. split; [lia|]. split; [done|]. intros j Hj. by apply Hall.
    + right. intros k Hk. destruct (decide (k = n)) as [->|]; [done|].
      apply Hall. lia.
Qed.

Lemma get_data_ok (ps : PrimaryService) (r : Q) (query : string) :
  is_ok (get_data ps r query).1 = negb (gt r (success_rate ps)).
Proof. unfold get_data. by destruct (gt r (success_rate ps)). Qed.

Lemma gt_spec (x y : Q) : gt x y = true ↔ (y < x)%Q.
Proof.
  unfold gt. destruct (Qle_bool x y) eqn:E; simpl.
  - apply Qle_bool_iff in E. split; [done|]. intros H.
    exfalso. by apply (Qlt_not_le _ _ H).
  - split; [|done]. intros _. apply Qnot_le_lt. intros H%Qle_bool_iff.
    congruence.
Qed.

End ServiceFacts.

(** X5.  [get_data_with_recovery] never raises and never asks the LLM
    for an error message: the fallback service cannot fail, so the result
    is the primary service's text when the draw is at most
    [success_rate], and the fallback service's text otherwise, the
    fallback being invoked in that case only. *)
Theorem get_data_with_recovery_total (llm : string → string → result string)
    (ps : ExceptionHandling.PrimaryService) (r : Q) (query : string) :
  let out := ExceptionHandling.get_data_with_recovery llm ps r query in
  ((ExceptionHandling.success_rate ps < r)%Q →
   out.1 = Ok ("Fallback service result for: " +:+ query))
  ∧ (¬ (ExceptionHandling.success_rate ps < r)%Q →
     out.1 = Ok ("Primary service result for: " +:+ query))
  ∧ (ExceptionHandling.FallbackTried ∈ out.2
     ↔ (ExceptionHandling.success_rate ps < r)%Q)
  ∧ ∀ pe fe, ExceptionHandling.ErrorPrompt pe fe ∉ out.2.
Proof.
  cbv zeta. rewrite <- !gt_spec.
  unfold ExceptionHandling.get_data_with_recovery,
    ExceptionHandling.handle_with_fallback, ExceptionHandling.get_data.
  destruct (ExceptionHandling.gt r _); cbn [fst snd].
  - split; [done|]. split; [done|]. set_solver.
  - split; [done|]. split; [done|]. set_solver.
Qed.

(** X6.  For a handler with [max_retries = n >= 1],
    [get_data_with_retry] returns the primary service's text exactly when
    one of the first [n] draws is at most [success_rate], and raises the
    service's [ServiceError] for the query exactly when all [n] draws
    exceed it; nothing else can come out. *)
Theorem get_data_with_retry_outcome
    (self : ExceptionHandling.ExceptionHandler)
    (ps : ExceptionHandling.PrimaryService) (draws : nat → Q)
    (query : string) (n : nat) :
  ExceptionHandling.max_retries self = Z.of_nat n → (0 < n)%nat →
  let out := ExceptionHandling.get_data_with_retry self ps draws query in
  ((∃ k, (k < n)%nat ∧ ¬ (ExceptionHandling.success_rate ps < draws k)%Q)
   ↔ out.1 = Ok ("Primary service result for: " +:+ query))
  ∧ ((∀ k, (k < n)%nat → (ExceptionHandling.success_rate ps < draws k)%Q)
     ↔ out.1 = Raise (ServiceError ("Primary service failed for query: " +:+ query))).
Proof.
  intros Hmax Hn. cbv zeta. unfold ExceptionHandling.get_data_with_retry.
  set (operation := λ k, (ExceptionHandling.get_data ps (draws k) query).1).
  unfold ExceptionHandling.handle_with_retry, ExceptionHandling.range.
  rewrite Hmax, Nat2Z.id.
  destruct (retry_loop_spec operation self n Hmax n 0%nat None []
              ltac:(lia) eq_refl) as [H1 H2].
  assert (Hok : ∀ k, is_ok (operation k) = true
                     ↔ ¬ (ExceptionHandling.success_rate ps < draws k)%Q).
  { intros k. unfold operation. rewrite get_data_ok, <- gt_spec.
    by destruct (ExceptionHandling.gt _ _). }
  assert (Hval : ∀ k, is_ok (operation k) = true →
                      operation k = Ok ("Primary service result for: " +:+ query)).
  { intros k. unfold operation, ExceptionHandling.get_data.
    by destruct (ExceptionHandling.gt _ _). }
  assert (Herr : ∀ k, is_ok (operation k) = false →
                      operation k = Raise (ServiceError ("Primary service failed for query: " +:+ query))).
  { intros k. unfold operation, ExceptionHandling.get_data.
    by destruct (ExceptionHandling.gt _ _). }
  destruct (first_true (λ k, is_ok (operation k)) n)
    as [(k & Hk & Hp & Hmin) | Hall].
  - destruct (H1 k _ ltac:(lia) ltac:(intros j Hj; apply Hmin; lia) (Hval k Hp))
      as [-> _]. split.
    + split; [done|]. intros _. exists k. split; [done|]. by apply Hok.
    + split; [|done]. intros Hfail. specialize (Hfail k Hk).
      by apply Hok in Hp.
  - destruct (H2 ltac:(intros j Hj; apply Hall; lia) Hn) as [-> _].
    rewrite (Herr (n - 1)%nat) by (apply Hall; lia). split.
    + split; [|done]. intros (k & Hk & Hnot). apply Hok in Hnot.
      rewrite Hall in Hnot by done. done.
    + split; [done|]. intros _ k Hk. specialize (Hall k Hk).
      destruct (Qlt_le_dec (ExceptionHandling.success_rate ps) (draws k)) as [|Hle];
        [done|].
      assert (is_ok (operation k) = true); [|congruence].
      apply Hok. by apply Qle_not_lt.
Qed.

Lemma get_data_with_retry_outcome_witness :
  let draws : nat → Q := λ k, if (k <? 2)%nat then 9 # 10 else 1 # 2 in
  let out := ExceptionHandling.get_data_with_retry
               ExceptionHandling.ExceptionHandler_init
               ExceptionHandling.PrimaryService_default draws "weather" in
  ((∃ k, (k < 3)%nat
         ∧ ¬ (ExceptionHandling.success_rate
                ExceptionHandling.PrimaryService_default < draws k)%Q)
   ↔ out.1 = Ok ("Primary service result for: " +:+ "weather"))
  ∧ ((∀ k, (k < 3)%nat →
           (ExceptionHandling.success_rate
              ExceptionHandling.PrimaryService_default < draws k)%Q)
     ↔ out.1 = Raise (ServiceError ("Primary service failed for query: " +:+ "weather"))).
Proof.
  intros draws.
  apply (get_data_with_retry_outcome ExceptionHandling.ExceptionHandler_init
           ExceptionHandling.PrimaryService_default draws "weather" 3).
  - reflexivity.
  - lia.
Defined.

(* ===================================================================== *)
(** * Further properties: the state machines of pattern 26                *)
(* ===================================================================== *)

Section HierarchicalFacts.
Import StateMachines.

Lemma lookup_active :
  default_parent_states !! "ACTIVE" = Some ["WORKING"; "RESTING"].
Proof. reflexivity. Qed.

Lemma lookup_inactive :
  default_parent_states !! "INACTIVE" = Some ["SLEEPING"; "MAINTENANCE"].
Proof. reflexivity. Qed.

Lemma transition_child_member (new_child : string)
    (self : HierarchicalStateMachine) (kids : list string) :
  parent_states self !! current_parent self = Some kids →
  new_child ∈ kids →
  transition_child new_child self
  = Ok (true, {| parent_states := parent_states self;
                 current_parent := current_parent self;
                 current_child := new_child;
                 hsm_context := hsm_context self |}).
Proof.
  intros Hk Hin. unfold transition_child. rewrite Hk.
  by rewrite bool_decide_eq_true_2.
Qed.

Lemma transition_parent_known (new_parent : string)
    (self : HierarchicalStateMachine) (first : string) (others : list string) :
  parent_states self !! new_parent = Some (first :: others) →
  transition_parent new_parent self
  = Ok (true, {| parent_states := parent_states self;
                 current_parent := new_parent;
                 current_child := first;
                 hsm_context := hsm_context self |}).
Proof. intros Hk. unfold transition_parent. by rewrite Hk. Qed.

Lemma process_event_settled (event : string) (self : HierarchicalStateMachine) :
  settled self →
  ∃ self', process_event event self = Ok (get_current_state self', self')
           ∧ settled self'
           ∧ hsm_context self' = hsm_context self.
Proof.
  destruct self as [ps cp cc ctx]. intros [Hps Hst]. simpl in Hps, Hst.
  subst ps. unfold process_event.
  assert (Hw : "WORKING" ∈ ["WORKING"; "RESTING"]) by set_solver.
  assert (Hr : "RESTING" ∈ ["WORKING"; "RESTING"]) by set_solver.
  assert (Hs : "SLEEPING" ∈ ["SLEEPING"; "MAINTENANCE"]) by set_solver.
  destruct Hst as [[-> ->] | [[-> ->] | [-> ->]]];
    destruct (String.eqb event "work_request");
    destruct (String.eqb event "rest_request");
    destruct (String.eqb event "sleep_request");
    destruct (String.eqb event "wake_request");
    cbn [andb String.eqb Ascii.eqb Bool.eqb current_parent];
    rewrite ?(transition_parent_known "INACTIVE" _ _ _ lookup_inactive),
      ?(transition_parent_known "ACTIVE" _ _ _ lookup_active);
    cbn [mbind result_bind];
    rewrite ?(transition_child_member "WORKING" _ _ lookup_active Hw),
      ?(transition_child_member "RESTING" _ _ lookup_active Hr),
      ?(transition_child_member "SLEEPING" _ _ lookup_inactive Hs);
    cbn [mbind result_bind];
    (eexists; split; [reflexivity|]);
    (split; [|reflexivity]); (split; [reflexivity|]); simpl; auto.
Qed.

End HierarchicalFacts.

(** X7.  Whatever events it is fed, the hierarchical machine built by
    [__init__] never raises, keeps its table of parent states and its
    context, and is always in one of ACTIVE.WORKING, ACTIVE.RESTING and
    INACTIVE.SLEEPING: the child state always belongs to the current
    parent, and MAINTENANCE is never entered. *)
Theorem hierarchical_machine_settled (events : list string) :
  ∃ self,
    StateMachines.process_events events StateMachines.HierarchicalStateMachine_init
    = Ok self
    ∧ StateMachines.parent_states self = StateMachines.default_parent_states
    ∧ StateMachines.hsm_context self = ∅
    ∧ StateMachines.get_current_state self
      ∈ ["ACTIVE.WORKING"; "ACTIVE.RESTING"; "INACTIVE.SLEEPING"]
    ∧ ∃ kids, StateMachines.parent_states self !! StateMachines.current_parent self
              = Some kids
              ∧ StateMachines.current_child self ∈ kids.
Proof.
  assert (Hgen : ∀ self0, StateMachines.settled self0 →
            ∃ self, StateMachines.process_events events self0 = Ok self
                    ∧ StateMachines.settled self
                    ∧ StateMachines.hsm_context self = StateMachines.hsm_context self0).
  { induction events as [|event rest IH]; intros self0 Hs.
    - by exists self0.
    - destruct (process_event_settled event self0 Hs) as (self1 & He & Hs1 & Hc1).
      destruct (IH self1 Hs1) as (self & Hr & Hs2 & Hc2).
      exists self. cbn [StateMachines.process_events]. rewrite He.
      cbn [mbind result_bind]. rewrite Hr. split; [done|]. split; [done|].
      congruence. }
  destruct (Hgen StateMachines.HierarchicalStateMachine_init) as (self & Hr & [Hps Hst] & Hc).
  { split; [reflexivity|]. left. by split. }
  exists self. split; [done|]. split; [done|]. split; [done|].
  unfold StateMachines.get_current_state. rewrite Hps.
  destruct Hst as [[-> ->] | [[-> ->] | [-> ->]]].
  - split; [set_solver|]. eexists. split; [apply lookup_active | set_solver].
  - split; [set_solver|]. eexists. split; [apply lookup_active | set_solver].
  - split; [set_solver|]. eexists. split; [apply lookup_inactive | set_solver].
Qed.

Section TransitionFacts.
Import StateMachines.
Variable llm : nat → pyval → result string.
Variable now : nat → string.

(** What a call of [transition] on a valid key does before and after the
    state action. *)
Lemma transition_valid (d : nat) (event : Event) (data : pydict)
    (sm : StateMachine) (w : world) (new_state : AgentState) :
  transitions sm !! (current_state sm, event) = Some new_state →
  transition llm now (S d) event data sm w
  = let sm1 :=
      append_history
        {| from_ := state_value (current_state sm);
           to_ := state_value new_state;
           event_ := event_value event;
           data_ := data;
           timestamp_ := now (clock_reads w) |}
        (set_current_state new_state
           (set_previous_state (Some (current_state sm)) sm)) in
    let w1 :=
      {| prompts := prompts w; clock_reads := S (clock_reads w);
         stdout := stdout w
                   ++ ["🔄 Transition: " +:+ state_value (current_state sm)
                       +:+ " → " +:+ state_value new_state
                       +:+ " (event: " +:+ event_value event +:+ ")"];
         actions_run := actions_run w |} in
    match state_actions sm !! new_state with
    | None => Some (true, sm1, w1)
    | Some a =>
        match run_action llm (transition llm now d) a data sm1
                (note_action a w1) with
        | Some (sm2, w2) => Some (true, sm2, w2)
        | None => None
        end
    end.
Proof.
  intros Hkey. cbn [transition]. rewrite Hkey. cbv zeta.
  cbn [_get_timestamp print set_previous_state set_current_state
       append_history current_state previous_state state_actions
       from_option prompts clock_reads stdout actions_run].
  destruct (state_actions sm !! new_state) as [a|]; [|reflexivity].
  cbn [mbind option_bind].
  by destruct (run_action _ _ _ _ _ _) as [[sm2 w2]|].
Qed.

Lemma keeps_history_refl (sm : StateMachine) :
  history_ok sm → keeps_history sm sm.
Proof. intros H. split; [done|]. split; [done|]. by split. Qed.

Lemma keeps_history_context (k : string) (v : pyval) (sm sm' : StateMachine) :
  keeps_history (set_context k v sm) sm' → keeps_history sm sm'.
Proof. intros H. exact H. Qed.

Lemma run_action_history
    (rec : Event → pydict → StateMachine → world
           → option (bool * StateMachine * world)) :
  (∀ event data sm w b sm' w',
     history_ok sm → rec event data sm w = Some (b, sm', w') →
     keeps_history sm sm') →
  ∀ a data sm w sm' w',
    history_ok sm → run_action llm rec a data sm w = Some (sm', w') →
    keeps_history sm sm'.
Proof.
  intros Hrec a data sm w sm' w' Hok Hrun.
  destruct a; cbn [run_action] in Hrun.
  - injection Hrun as <- <-. exact (keeps_history_refl sm Hok).
  - destruct (rec _ _ _ _) as [[[b sm2] w2]|] eqn:E; [|done].
    cbn in Hrun. injection Hrun as <- <-.
    eapply Hrec in E; [exact E | exact Hok].
  - destruct (llm_generate llm _ _) as [[response|e] w1].
    + destruct (rec _ _ _ _) as [[[b sm2] w2]|] eqn:E; [|done].
      cbn in Hrun. injection Hrun as <- <-.
      eapply Hrec in E; [exact E | exact Hok].
    + destruct (rec _ _ _ _) as [[[b sm2] w2]|] eqn:E; [|done].
      cbn in Hrun. injection Hrun as <- <-.
      eapply Hrec in E; [exact E | exact Hok].
  - destruct (rec _ _ _ _) as [[[b sm2] w2]|] eqn:E; [|done].
    cbn in Hrun. injection Hrun as <- <-.
    eapply Hrec in E; [exact E | exact Hok].
  - injection Hrun as <- <-. exact (keeps_history_refl sm Hok).
  - injection Hrun as <- <-. exact (keeps_history_refl sm Hok).
Qed.

Lemma history_ok_record (sm : StateMachine) (event : Event) (data : pydict)
    (ts : string) (new_state : AgentState) :
  history_ok sm →
  history_ok
    (append_history
       {| from_ := state_value (current_state sm);
          to_ := state_value new_state;
          event_ := event_value event; data_ := data; timestamp_ := ts |}
       (set_current_state new_state
          (set_previous_state (Some (current_state sm)) sm))).
Proof.
  intros [Hlink Hlast]. split; cbn [history append_history set_current_state
    set_previous_state current_state previous_state].
  - intros i r1 r2 H1 H2.
    destruct (decide (S i < List.length (history sm))%nat) as [Hlt|Hge].
    + rewrite lookup_app_l in H1 by lia. rewrite lookup_app_l in H2 by lia.
      eauto.
    + pose proof (lookup_lt_Some _ _ _ H2) as Hlen.
      rewrite length_app in Hlen. simpl in Hlen.
      assert (S i = List.length (history sm)) as Hi by lia.
      rewrite lookup_app_l in H1 by lia.
      rewrite lookup_app_r, Hi, Nat.sub_diag in H2 by lia.
      injection H2 as <-. simpl.
      assert (last (history sm) = Some r1) as Hl.
      { rewrite last_lookup. rewrite <- Hi. simpl. done. }
      by destruct (Hlast r1 Hl).
  - intros r. rewrite last_snoc. intros [= <-]. simpl. eauto.
Qed.

Lemma transition_history (d : nat) :
  ∀ event data sm w b sm' w',
    history_ok sm → transition llm now d event data sm w = Some (b, sm', w') →
    keeps_history sm sm'
    ∧ (b = true ↔ is_Some (transitions sm !! (current_state sm, event)))
    ∧ (b = true → (List.length (history sm) < List.length (history sm'))%nat).
Proof.
  induction d as [|d IH]; intros event data sm w b sm' w' Hok Hrun; [done|].
  destruct (transitions sm !! (current_state sm, event)) as [new_state|] eqn:Hkey.
  - rewrite (transition_valid d _ _ _ _ _ Hkey) in Hrun. cbv zeta in Hrun.
    pose proof (history_ok_record sm event data (now (clock_reads w)) new_state Hok)
      as Hok1.
    set (sm1 := append_history _ _) in *.
    assert (Hgrow : history sm1 = history sm ++ [
              {| from_ := state_value (current_state sm);
                 to_ := state_value new_state;
                 event_ := event_value event; data_ := data;
                 timestamp_ := now (clock_reads w) |}]) by reflexivity.
    assert (Hstep : keeps_history sm1 sm' ∧ b = true).
    { destruct (state_actions sm !! new_state) as [a|].
      - destruct (run_action _ _ _ _ _ _) as [[sm2 w2]|] eqn:E; [|done].
        injection Hrun as <- <- <-. split; [|done].
        eapply run_action_history; [|exact Hok1|exact E].
        intros. by eapply IH.
      - injection Hrun as <- <- <-. split; [|done].
        by apply keeps_history_refl. }
    destruct Hstep as [(Hok' & Hpre & Ht & Ha) ->].
    split; [|split].
    + split; [done|]. split; [|done].
      etrans; [|exact Hpre]. rewrite Hgrow. by apply prefix_app_r.
    + split; [by eexists | done].
    + intros _. apply prefix_length in Hpre. rewrite Hgrow in Hpre.
      rewrite length_app in Hpre. simpl in Hpre. lia.
  - cbn [transition] in Hrun. rewrite Hkey in Hrun.
    injection Hrun as <- <- <-. split; [by apply keeps_history_refl|].
    split; [|done]. split; [done|]. by intros [? ?].
Qed.

End TransitionFacts.

(** X8.  The history of the machine is a chain.  If every record of the
    history continues the one before it and the last one leads from the
    previous state to the current state, then after any call of
    [transition] that returns this is still so; the records that were
    there are still there, in place; the two tables are the same; and the
    call returns [True] exactly when [(current_state, event)] is a key of
    the transitions table, in which case the history has grown. *)
Theorem transition_history_chain
    (llm : nat → StateMachines.pyval → result string) (now : nat → string)
    (depth : nat) (event : StateMachines.Event) (data : StateMachines.pydict)
    (sm sm' : StateMachines.StateMachine) (w w' : StateMachines.world) (b : bool) :
  StateMachines.history_ok sm →
  StateMachines.transition llm now depth event data sm w = Some (b, sm', w') →
  StateMachines.history_ok sm'
  ∧ StateMachines.history sm `prefix_of` StateMachines.history sm'
  ∧ StateMachines.transitions sm' = StateMachines.transitions sm
  ∧ StateMachines.state_actions sm' = StateMachines.state_actions sm
  ∧ (b = true
     ↔ is_Some (StateMachines.transitions sm !! (StateMachines.current_state sm, event)))
  ∧ (b = true →
     (List.length (StateMachines.history sm)
      < List.length (StateMachines.history sm'))%nat).
Proof.
  intros Hok Hrun.
  destruct (transition_history llm now depth event data sm w b sm' w' Hok Hrun)
    as ((H1 & H2 & H3 & H4) & H5 & H6).
  done.
Qed.

Lemma transition_history_chain_witness :
  let w0 := {| StateMachines.prompts := []; StateMachines.clock_reads := 0;
               StateMachines.stdout := []; StateMachines.actions_run := [] |} in
  let sm0 := StateMachines.StateMachine_init StateMachines.IDLE in
  let sm1 :=
    StateMachines.set_context "last_action" (StateMachines.PStr "sleeping")
      (StateMachines.append_history
         {| StateMachines.from_ := "idle"; StateMachines.to_ := "sleeping";
            StateMachines.event_ := "sleep_command"; StateMachines.data_ := ∅;
            StateMachines.timestamp_ := "12:00:00" |}
         (StateMachines.set_current_state StateMachines.SLEEPING
            (StateMachines.set_previous_state (Some StateMachines.IDLE) sm0))) in
  StateMachines.history_ok sm1
  ∧ StateMachines.history sm0 `prefix_of` StateMachines.history sm1
  ∧ StateMachines.transitions sm1 = StateMachines.transitions sm0
  ∧ StateMachines.state_actions sm1 = StateMachines.state_actions sm0
  ∧ (true = true
     ↔ is_Some (StateMachines.transitions sm0
                  !! (StateMachines.current_state sm0, StateMachines.SLEEP_COMMAND)))
  ∧ (true = true →
     (List.length (StateMachines.history sm0)
      < List.length (StateMachines.history sm1))%nat).
Proof.
  intros w0 sm0 sm1.
  apply (transition_history_chain (λ _ _, Ok "Hi") (λ _, "12:00:00") 2
           StateMachines.SLEEP_COMMAND ∅ sm0 sm1 w0
           {| StateMachines.prompts := []; StateMachines.clock_reads := 1;
              StateMachines.stdout :=
                ["🔄 Transition: idle → sleeping (event: sleep_command)";
                 "😴 Agent is sleeping..."];
              StateMachines.actions_run := [StateMachines._sleeping_action] |}
           true).
  - split.
    + intros i r1 r2 H. destruct i; discriminate H.
    + intros r H. discriminate H.
  - vm_compute. reflexivity.
Defined.

Ltac key_of Htr :=
  cbn [StateMachines.transitions StateMachines.current_state
       StateMachines.set_context StateMachines.append_history
       StateMachines.set_current_state StateMachines.set_previous_state];
  rewrite Htr.

Section DefaultMachineFacts.
Import StateMachines.
Variable llm : nat → pyval → result string.
Variable now : nat → string.

Lemma lookup_default_transitions (s : AgentState) (e : Event) :
  default_transitions !! (s, e) = default_next s e.
Proof. destruct s, e; reflexivity. Qed.

Lemma lookup_default_actions (s : AgentState) :
  default_state_actions !! s = Some (default_action s).
Proof. destruct s; reflexivity. Qed.

Lemma came_to_rest_weaken (sm : StateMachine) (w : world) (n p n' p' : nat)
    (sm' : StateMachine) (w' : world) :
  (n ≤ n')%nat → (p ≤ p')%nat →
  came_to_rest sm w n p sm' w' → came_to_rest sm w n' p' sm' w'.
Proof.
  intros Hn Hp (Ht & Hr & Hh & Hq). split; [done|]. split; [done|]. split; lia.
Qed.

(** Entering a resting state takes one call. *)
Lemma enter_rest (d : nat) (event : Event) (data : pydict)
    (sm : StateMachine) (w : world) (t : AgentState) :
  default_tables sm →
  transitions sm !! (current_state sm, event) = Some t →
  resting t = true →
  ∃ sm' w', transition llm now (S d) event data sm w = Some (true, sm', w')
            ∧ came_to_rest sm w 1 0 sm' w'.
Proof.
  intros [Htr Hact] Hkey Hrest.
  rewrite (transition_valid llm now d _ _ _ _ _ Hkey). cbv zeta.
  rewrite Hact, lookup_default_actions.
  destruct t; try discriminate Hrest; cbn [default_action run_action];
    eexists _, _; (split; [reflexivity|]);
    (split; [by split|]); (split; [reflexivity|]);
    cbn [history set_context append_history prompts print note_action];
    rewrite ?length_app; simpl; split; lia.
Qed.

(** The action of a state that is not resting fires one more event. *)
Lemma enter_responding (d : nat) (event : Event) (data : pydict)
    (sm : StateMachine) (w : world) :
  default_tables sm →
  transitions sm !! (current_state sm, event) = Some RESPONDING →
  ∃ sm' w', transition llm now (S (S d)) event data sm w = Some (true, sm', w')
            ∧ came_to_rest sm w 2 0 sm' w'.
Proof.
  intros [Htr Hact] Hkey.
  rewrite (transition_valid llm now (S d) _ _ _ _ _ Hkey). cbv zeta.
  rewrite Hact, lookup_default_actions. cbn [default_action run_action].
  match goal with
  | |- context [transition llm now (S d) ?e ?dt ?m ?v] =>
      destruct (enter_rest d e dt m v IDLE) as (sm' & w' & E & Ht' & Hr & Hh & Hq);
        [split; [exact Htr | exact Hact] | by key_of Htr; rewrite lookup_default_transitions | done |];
        rewrite E
  end.
  cbn [mbind option_bind]. exists sm', w'. split; [done|].
  split; [done|]. split; [done|].
  cbn [history set_context append_history set_current_state set_previous_state
       prompts print note_action] in Hh, Hq.
  rewrite ?length_app in Hh. rewrite ?length_app in Hq. simpl in Hh, Hq. split; lia.
Qed.

Lemma enter_processing (d : nat) (event : Event) (data : pydict)
    (sm : StateMachine) (w : world) :
  default_tables sm →
  transitions sm !! (current_state sm, event) = Some PROCESSING →
  ∃ sm' w', transition llm now (S (S (S d))) event data sm w = Some (true, sm', w')
            ∧ came_to_rest sm w 3 1 sm' w'.
Proof.
  intros [Htr Hact] Hkey.
  rewrite (transition_valid llm now (S (S d)) _ _ _ _ _ Hkey). cbv zeta.
  rewrite Hact, lookup_default_actions. cbn [default_action run_action].
  unfold llm_generate.
  destruct (llm _ _) as [response|e].
  - match goal with
    | |- context [transition llm now (S (S d)) ?e ?dt ?m ?v] =>
        destruct (enter_responding d e dt m v) as (sm' & w' & E & Ht' & Hr & Hh & Hq);
          [split; [exact Htr | exact Hact] | by key_of Htr; rewrite lookup_default_transitions |];
          rewrite E
    end.
    cbn [mbind option_bind]. exists sm', w'. split; [done|].
    split; [done|]. split; [done|].
    cbn [history set_context append_history set_current_state set_previous_state
       prompts print note_action] in Hh, Hq.
    rewrite ?length_app in Hh. rewrite ?length_app in Hq. simpl in Hh, Hq. split; lia.
  - match goal with
    | |- context [transition llm now (S (S d)) ?e ?dt ?m ?v] =>
        destruct (enter_rest (S d) e dt m v ERROR) as (sm' & w' & E & Ht' & Hr & Hh & Hq);
          [split; [exact Htr | exact Hact] | by key_of Htr; rewrite lookup_default_transitions | done |];
          rewrite E
    end.
    cbn [mbind option_bind]. exists sm', w'. split; [done|].
    split; [done|]. split; [done|].
    cbn [history set_context append_history set_current_state set_previous_state
       prompts print note_action] in Hh, Hq.
    rewrite ?length_app in Hh. rewrite ?length_app in Hq. simpl in Hh, Hq. split; lia.
Qed.

Lemma enter_listening (d : nat) (event : Event) (data : pydict)
    (sm : StateMachine) (w : world) :
  default_tables sm →
  transitions sm !! (current_state sm, event) = Some LISTENING →
  ∃ sm' w', transition llm now (S (S (S (S d)))) event data sm w
            = Some (true, sm', w')
            ∧ came_to_rest sm w 4 1 sm' w'.
Proof.
  intros [Htr Hact] Hkey.
  rewrite (transition_valid llm now (S (S (S d))) _ _ _ _ _ Hkey). cbv zeta.
  rewrite Hact, lookup_default_actions. cbn [default_action run_action].
  match goal with
  | |- context [transition llm now (S (S (S d))) ?e ?dt ?m ?v] =>
      destruct (enter_processing d e dt m v) as (sm' & w' & E & Ht' & Hr & Hh & Hq);
        [split; [exact Htr | exact Hact] | by key_of Htr; rewrite lookup_default_transitions |];
        rewrite E
  end.
  cbn [mbind option_bind]. exists sm', w'. split; [done|].
  split; [done|]. split; [done|].
  cbn [history set_context append_history set_current_state set_previous_state
       prompts print note_action] in Hh, Hq.
  rewrite ?length_app in Hh. rewrite ?length_app in Hq. simpl in Hh, Hq. split; lia.
Qed.

Lemma transition_default (d : nat) (event : Event) (data : pydict)
    (sm : StateMachine) (w : world) (t : AgentState) :
  default_tables sm →
  transitions sm !! (current_state sm, event) = Some t →
  ∃ sm' w', transition llm now (4 + d) event data sm w = Some (true, sm', w')
            ∧ came_to_rest sm w 4 1 sm' w'.
Proof.
  intros Hdef Hkey.
  destruct (resting t) eqn:Hrest.
  - destruct (enter_rest (3 + d) event data sm w t Hdef Hkey Hrest)
      as (sm' & w' & E & H).
    exists sm', w'. split; [exact E|].
    eapply came_to_rest_weaken; [| |exact H]; lia.
  - destruct t; try discriminate Hrest.
    + by apply enter_listening.
    + destruct (enter_processing (1 + d) event data sm w Hdef Hkey)
        as (sm' & w' & E & H).
      exists sm', w'. split; [exact E|].
      eapply came_to_rest_weaken; [| |exact H]; lia.
    + destruct (enter_responding (2 + d) event data sm w Hdef Hkey)
        as (sm' & w' & E & H).
      exists sm', w'. split; [exact E|].
      eapply came_to_rest_weaken; [| |exact H]; lia.
Qed.

End DefaultMachineFacts.

(** X9.  A machine with the tables of [__init__] always comes to rest.
    Whatever its state and the event, four nested calls are enough for
    [transition] to return (however the LLM answers); the tables are
    untouched; an accepted event leaves the machine in IDLE, ERROR or
    SLEEPING, never in LISTENING, PROCESSING or RESPONDING, a refused one
    leaves the state as it was; and one event writes at most four records
    and sends at most one prompt. *)
Theorem default_machine_comes_to_rest
    (llm : nat → StateMachines.pyval → result string) (now : nat → string)
    (d : nat) (event : StateMachines.Event) (data : StateMachines.pydict)
    (sm : StateMachines.StateMachine) (w : StateMachines.world) :
  StateMachines.default_tables sm →
  ∃ b sm' w',
    StateMachines.transition llm now (4 + d) event data sm w = Some (b, sm', w')
    ∧ StateMachines.default_tables sm'
    ∧ (b = true →
       StateMachines.current_state sm'
       ∈ [StateMachines.IDLE; StateMachines.ERROR; StateMachines.SLEEPING])
    ∧ (b = false →
       StateMachines.current_state sm' = StateMachines.current_state sm)
    ∧ (List.length (StateMachines.history sm')
       ≤ 4 + List.length (StateMachines.history sm))%nat
    ∧ (List.length (StateMachines.prompts w')
       ≤ 1 + List.length (StateMachines.prompts w))%nat.
Proof.
  intros Hdef.
  destruct (StateMachines.transitions sm !! (StateMachines.current_state sm, event))
    as [t|] eqn:Hkey.
  - destruct (transition_default llm now d event data sm w t Hdef Hkey)
      as (sm' & w' & E & Ht & Hr & Hh & Hq).
    exists true, sm', w'. split; [exact E|]. split; [exact Ht|].
    split; [|split; [done|split; [exact Hh|exact Hq]]].
    intros _. destruct (StateMachines.current_state sm');
      try discriminate Hr; set_solver.
  - exists false, sm. eexists. split.
    + change (4 + d)%nat with (S (3 + d)). cbn [StateMachines.transition].
      rewrite Hkey. reflexivity.
    + split; [exact Hdef|]. split; [done|]. split; [done|].
      cbn [StateMachines.prompts StateMachines.print]. split; lia.
Qed.

Lemma default_machine_comes_to_rest_witness :
  ∃ b sm' w',
    StateMachines.transition (λ _ _, Raise (Other "TimeoutError" "no answer"))
      (λ _, "12:00:00") 4 StateMachines.USER_INPUT ∅
      (StateMachines.StateMachine_init StateMachines.IDLE)
      {| StateMachines.prompts := []; StateMachines.clock_reads := 0;
         StateMachines.stdout := []; StateMachines.actions_run := [] |}
    = Some (b, sm', w')
    ∧ StateMachines.default_tables sm'
    ∧ (b = true →
       StateMachines.current_state sm'
       ∈ [StateMachines.IDLE; StateMachines.ERROR; StateMachines.SLEEPING])
    ∧ (b = false → StateMachines.current_state sm' = StateMachines.IDLE)
    ∧ (List.length (StateMachines.history sm') ≤ 4 + 0)%nat
    ∧ (List.length (StateMachines.prompts w') ≤ 1 + 0)%nat.
Proof.
  apply (default_machine_comes_to_rest
           (λ _ _, Raise (Other "TimeoutError" "no answer")) (λ _, "12:00:00") 0
           StateMachines.USER_INPUT ∅
           (StateMachines.StateMachine_init StateMachines.IDLE)
           {| StateMachines.prompts := []; StateMachines.clock_reads := 0;
              StateMachines.stdout := []; StateMachines.actions_run := [] |}).
  split; reflexivity.
Defined.

Section RoundTripFacts.
Import StateMachines.
Variable llm : nat → pyval → result string.
Variable now : nat → string.

Lemma dict_get_insert (d : pydict) (k : string) (v default : pyval) :
  dict_get (<[k := v]> d) k default = v.
Proof. unfold dict_get. by rewrite lookup_insert_eq. Qed.

Lemma dict_get_insert_ne (d : pydict) (k k' : string) (v default : pyval) :
  k ≠ k' → dict_get (<[k := v]> d) k' default = dict_get d k' default.
Proof. intros H. unfold dict_get. by rewrite lookup_insert_ne. Qed.

Lemma dict_get_singleton (k : string) (v default : pyval) :
  dict_get {[ k := v ]} k default = v.
Proof. unfold dict_get. by rewrite lookup_singleton_eq. Qed.

Ltac machine_norm :=
  cbn [state_actions transitions context history current_state previous_state
       set_context append_history set_current_state set_previous_state
       prompts clock_reads stdout actions_run print note_action].

Ltac machine_step t Htr Hact :=
  erewrite (transition_valid llm now _ _ _ _ _ t);
    [|by key_of Htr; rewrite lookup_default_transitions];
  cbv zeta; machine_norm;
  rewrite Hact, lookup_default_actions; cbn [default_action run_action];
  machine_norm.

Ltac context_lookup :=
  repeat (rewrite lookup_insert_ne by done); rewrite ?lookup_insert_eq; reflexivity.

Lemma user_input_run (d : nat) (data : pydict) (sm : StateMachine) (w : world) :
  default_tables sm →
  current_state sm = IDLE →
  let user_input := dict_get data "input" (PStr "") in
  ∃ sm' w',
    transition llm now (4 + d) USER_INPUT data sm w = Some (true, sm', w')
    ∧ prompts w' = prompts w ++ [user_input]
    ∧ context sm' !! "user_input" = Some user_input
    ∧ match llm (List.length (prompts w)) user_input with
      | Ok response =>
          current_state sm' = IDLE
          ∧ context sm' !! "llm_response" = Some (PStr response)
          ∧ context sm' !! "final_response" = Some (PStr response)
          ∧ context sm' !! "error" = context sm !! "error"
          ∧ to_ <$> drop (List.length (history sm)) (history sm')
            = ["listening"; "processing"; "responding"; "idle"]
      | Raise e =>
          current_state sm' = ERROR
          ∧ context sm' !! "error" = Some (PStr (str e))
          ∧ context sm' !! "llm_response" = context sm !! "llm_response"
          ∧ context sm' !! "final_response" = context sm !! "final_response"
          ∧ to_ <$> drop (List.length (history sm)) (history sm')
            = ["listening"; "processing"; "error"]
      end.
Proof.
  intros [Htr Hact] Hcs user_input.
  change (4 + d)%nat with (S (S (S (S d)))).
  assert (Hkey : transitions sm !! (current_state sm, USER_INPUT) = Some LISTENING).
  { by rewrite Htr, Hcs, lookup_default_transitions. }
  rewrite (transition_valid llm now _ _ _ _ _ _ Hkey). cbv zeta.
  rewrite Hact, lookup_default_actions. cbn [default_action run_action].
  machine_norm.
  machine_step PROCESSING Htr Hact.
  unfold llm_generate. machine_norm.
  rewrite dict_get_insert_ne by done. rewrite dict_get_insert.
  fold user_input.
  destruct (llm (List.length (prompts w)) user_input) as [response|e].
  - machine_step RESPONDING Htr Hact.
    machine_step IDLE Htr Hact.
    cbn [mbind option_bind]. eexists _, _. split; [reflexivity|].
    machine_norm. rewrite dict_get_singleton.
    split; [reflexivity|].
    split; [context_lookup|].
    split; [reflexivity|].
    split; [context_lookup|].
    split; [context_lookup|].
    split; [context_lookup|].
    rewrite <- !app_assoc. rewrite drop_app_length. reflexivity.
  - machine_step ERROR Htr Hact.
    cbn [mbind option_bind]. eexists _, _. split; [reflexivity|].
    machine_norm. rewrite dict_get_singleton.
    split; [reflexivity|].
    split; [context_lookup|].
    split; [reflexivity|].
    split; [context_lookup|].
    split; [context_lookup|].
    split; [context_lookup|].
    rewrite <- !app_assoc. rewrite drop_app_length. reflexivity.
Qed.

End RoundTripFacts.

(** X10.  One user input, from IDLE, on a machine with the tables of
    [__init__].  The call returns [True]; exactly one prompt is sent, for
    [data.get("input", "")], which is also stored under "user_input".  If
    the LLM answers, the machine goes through LISTENING, PROCESSING and
    RESPONDING back to IDLE, the answer is stored under "llm_response" and
    "final_response", and "error" is untouched.  If the LLM raises, the
    machine goes through LISTENING and PROCESSING to ERROR, [str(e)] is
    stored under "error", and no response is stored. *)
Theorem user_input_round_trip
    (llm : nat → StateMachines.pyval → result string) (now : nat → string)
    (d : nat) (data : StateMachines.pydict)
    (sm : StateMachines.StateMachine) (w : StateMachines.world) :
  StateMachines.default_tables sm →
  StateMachines.current_state sm = StateMachines.IDLE →
  let user_input := StateMachines.dict_get data "input" (StateMachines.PStr "") in
  ∃ sm' w',
    StateMachines.transition llm now (4 + d) StateMachines.USER_INPUT data sm w
    = Some (true, sm', w')
    ∧ StateMachines.prompts w' = StateMachines.prompts w ++ [user_input]
    ∧ StateMachines.context sm' !! "user_input" = Some user_input
    ∧ match llm (List.length (StateMachines.prompts w)) user_input with
      | Ok response =>
          StateMachines.current_state sm' = StateMachines.IDLE
          ∧ StateMachines.context sm' !! "llm_response"
            = Some (StateMachines.PStr response)
          ∧ StateMachines.context sm' !! "final_response"
            = Some (StateMachines.PStr response)
          ∧ StateMachines.context sm' !! "error"
            = StateMachines.context sm !! "error"
          ∧ StateMachines.to_
              <$> drop (List.length (StateMachines.history sm))
                    (StateMachines.history sm')
            = ["listening"; "processing"; "responding"; "idle"]
      | Raise e =>
          StateMachines.current_state sm' = StateMachines.ERROR
          ∧ StateMachines.context sm' !! "error"
            = Some (StateMachines.PStr (str e))
          ∧ StateMachines.context sm' !! "llm_response"
            = StateMachines.context sm !! "llm_response"
          ∧ StateMachines.context sm' !! "final_response"
            = StateMachines.context sm !! "final_response"
          ∧ StateMachines.to_
              <$> drop (List.length (StateMachines.history sm))
                    (StateMachines.history sm')
            = ["listening"; "processing"; "error"]
      end.
Proof. intros Hdef Hcs. exact (user_input_run llm now d data sm w Hdef Hcs). Qed.

Lemma user_input_round_trip_witness :
  let w0 := {| StateMachines.prompts := []; StateMachines.clock_reads := 0;
               StateMachines.stdout := []; StateMachines.actions_run := [] |} in
  let sm0 := StateMachines.StateMachine_init StateMachines.IDLE in
  ∃ sm' w',
    StateMachines.transition (λ _ _, Raise (Other "TimeoutError" "no answer"))
      (λ _, "12:00:00") 4 StateMachines.USER_INPUT
      {[ "input" := StateMachines.PStr "Hello" ]} sm0 w0
    = Some (true, sm', w')
    ∧ StateMachines.prompts w'
      = [] ++ [StateMachines.dict_get {[ "input" := StateMachines.PStr "Hello" ]}
                 "input" (StateMachines.PStr "")]
    ∧ StateMachines.context sm' !! "user_input"
      = Some (StateMachines.dict_get {[ "input" := StateMachines.PStr "Hello" ]}
                "input" (StateMachines.PStr ""))
    ∧ StateMachines.current_state sm' = StateMachines.ERROR
    ∧ StateMachines.context sm' !! "error"
      = Some (StateMachines.PStr (str (Other "TimeoutError" "no answer")))
    ∧ StateMachines.context sm' !! "llm_response"
      = StateMachines.context sm0 !! "llm_response"
    ∧ StateMachines.context sm' !! "final_response"
      = StateMachines.context sm0 !! "final_response"
    ∧ StateMachines.to_ <$> drop (List.length (StateMachines.history sm0))
                              (StateMachines.history sm')
      = ["listening"; "processing"; "error"].
Proof.
  intros w0 sm0.
  apply (user_input_round_trip
           (λ _ _, Raise (Other "TimeoutError" "no answer")) (λ _, "12:00:00") 0
           {[ "input" := StateMachines.PStr "Hello" ]} sm0 w0).
  - split; reflexivity.
  - reflexivity.
Defined.

(* ===================================================================== *)
(** * Further properties: the loop of pattern 35                          *)
(* ===================================================================== *)

Section PEVLoopFacts.
Import PEV.
Variable llm : nat → prompt → result string.
Variable json_loads : string → result json.
Variable run_tool : nat → string → json → json.
Variable str_of : json → string.

(** What a pass that did not raise has done. *)
Lemma iteration_outcome (self : PEVAgent) (step : json) (rest results : list json)
    (retry_count : Z) (w w' : world) (c : control) :
  iteration llm json_loads run_tool str_of self step rest results retry_count w
  = Some (Ok c, w') →
  ∃ res verification success,
    subscript verification "success" = Ok success
    ∧ ((truthy success = true
        ∧ c = Next rest (results ++ [result_entry step res verification "success"]) 0)
       ∨ (truthy success = false
          ∧ c = Next (step :: rest) results (retry_count + 1)
          ∧ (retry_count + 1 < max_retries self)%Z)
       ∨ (truthy success = false
          ∧ c = Stop (results ++ [result_entry step res verification "failed"]))).
Proof.
  unfold iteration. intros H.
  apply bind_Ok_inv in H as (_ & w1 & _ & H).
  apply bind_Ok_inv in H as (res & w2 & _ & H).
  apply bind_Ok_inv in H as (verification & w3 & _ & H).
  apply bind_Ok_inv in H as (_ & w4 & _ & H).
  apply bind_Ok_inv in H as (success & w5 & Hs & H).
  apply lift_Ok_inv in Hs as [Hs _].
  exists res, verification, success. split; [exact Hs|].
  destruct (truthy success).
  - apply ret_Ok_inv in H as [-> _]. by left.
  - apply bind_Ok_inv in H as (_ & w6 & _ & H).
    apply bind_Ok_inv in H as (_ & w7 & _ & H). cbv zeta in H.
    destruct (max_retries self <=? retry_count + 1)%Z eqn:E;
      apply ret_Ok_inv in H as [-> _].
    + right. right. by split.
    + right. left. split; [done|]. split; [done|]. lia.
Qed.

Lemma execute_and_verify_records_from (self : PEVAgent) (n : nat) :
  ∀ current results retry_count w results' w',
    (0 <= retry_count < max_retries self)%Z →
    execute_and_verify llm json_loads run_tool str_of n self current results
      retry_count w = Some (Ok results', w') →
    ∃ more : list attempt,
      Forall (verified true) more
      ∧ ((results' = results ++ (recorded "success" <$> more)
          ∧ attempt_step <$> more = current)
         ∨ ∃ failed,
             verified false failed
             ∧ results' = results ++ (recorded "success" <$> more)
                          ++ [recorded "failed" failed]
             ∧ (attempt_step <$> more) ++ [attempt_step failed]
               `prefix_of` current).
Proof.
  induction n as [|n IH]; intros current results retry_count w results' w' Hlt Hrun.
  - destruct current as [|step rest].
    + apply ret_Ok_inv in Hrun as [-> _]. exists []. split; [constructor|].
      left. by rewrite app_nil_r.
    + simpl in Hrun. destruct Hlt as [_ Hlt]. apply Z.ltb_lt in Hlt.
      rewrite Hlt in Hrun. discriminate.
  - destruct current as [|step rest].
    + apply ret_Ok_inv in Hrun as [-> _]. exists []. split; [constructor|].
      left. by rewrite app_nil_r.
    + simpl in Hrun. pose proof (proj2 Hlt) as Hlt'. apply Z.ltb_lt in Hlt'.
      rewrite Hlt' in Hrun.
      apply bind_Ok_inv in Hrun as (c & w1 & Hit & Hrun).
      destruct (iteration_outcome _ _ _ _ _ _ _ _ Hit)
        as (res & ver & success & Hs & [[Ht ->] | [(Ht & -> & Hlt2) | [Ht ->]]]).
      * apply IH in Hrun as (more & Hall & Hcases); [|lia].
        exists ((step, res, ver) :: more). split.
        { constructor; [by exists success | exact Hall]. }
        destruct Hcases as [[-> <-] | (failed & Hf & -> & Hpre)].
        -- left. split; [|reflexivity]. by rewrite <- app_assoc.
        -- right. exists failed. split; [exact Hf|]. split.
           ++ by rewrite <- !app_assoc.
           ++ rewrite fmap_cons. simpl. by apply prefix_cons.
      * apply IH in Hrun; [exact Hrun | lia].
      * apply ret_Ok_inv in Hrun as [-> _]. exists []. split; [constructor|].
        right. exists (step, res, ver). split; [by exists success|].
        split; [reflexivity|]. simpl. apply prefix_cons, prefix_nil.
Qed.

Lemma spends_ret {A} (a : A) : spends 0 0 (ret a : M world A).
Proof. intros w out w' [= <- <-]. lia. Qed.

Lemma spends_raise {A} (e : exn) : spends 0 0 (raise e : M world A).
Proof. intros w out w' [= <- <-]. lia. Qed.

Lemma spends_lift {A} (r : result A) : spends 0 0 (lift r : M world A).
Proof. intros w out w' [= <- <-]. lia. Qed.

Lemma spends_bind {A B} (a p a' p' : nat) (m : M world A) (k : A → M world B) :
  spends a p m → (∀ x, spends a' p' (k x)) → spends (a + a') (p + p') (m ≫= k).
Proof.
  intros Hm Hk w out w'. unfold mbind, M_bind, bind.
  destruct (m w) as [[[x|e] w1]|] eqn:E; [| |done].
  - intros Hrun. destruct (Hm _ _ _ E), (Hk x _ _ _ Hrun). lia.
  - intros [= <- <-]. destruct (Hm _ _ _ E). lia.
Qed.

Lemma spends_weaken {A} (a p a' p' : nat) (m : M world A) :
  (a ≤ a')%nat → (p ≤ p')%nat → spends a p m → spends a' p' m.
Proof. intros Ha Hp Hm w out w' E. destruct (Hm _ _ _ E). lia. Qed.

Lemma spends_llm_generate (q : prompt) : spends 0 1 (llm_generate llm q).
Proof.
  intros w out w' [= <- <-]. simpl. rewrite length_app. simpl. lia.
Qed.

Lemma spends_call_tool (name : string) (ps : json) :
  spends 1 0 (call_tool run_tool name ps).
Proof.
  intros w out w' [= <- <-]. simpl. rewrite length_app. simpl. lia.
Qed.

Lemma spends_execute_step (step : json) :
  spends 1 0 (execute_step run_tool str_of step).
Proof.
  unfold execute_step.
  apply (spends_bind 0 0 1 0); [apply spends_lift|]. intros tool_name.
  apply (spends_bind 0 0 1 0); [apply spends_lift|]. intros parameters.
  destruct tool_name;
    try (eapply spends_weaken; [| |apply spends_ret]; lia);
    try (eapply spends_weaken; [| |apply spends_raise]; lia).
  case_bool_decide; [apply spends_call_tool|].
  eapply spends_weaken; [| |apply spends_ret]; lia.
Qed.

Lemma spends_verify_step (step res : json) :
  spends 0 1 (verify_step llm json_loads step res).
Proof.
  unfold verify_step.
  apply (spends_bind 0 0 0 1); [apply spends_lift|]. intros description.
  apply (spends_bind 0 0 0 1); [apply spends_lift|]. intros tool.
  apply (spends_bind 0 0 0 1); [apply spends_lift|]. intros parameters.
  apply (spends_bind 0 1 0 0); [apply spends_llm_generate|]. intros response.
  destruct (parse_response json_loads response) as [v|[]]; apply spends_lift.
Qed.

Lemma spends_iteration (self : PEVAgent) (step : json) (rest results : list json)
    (retry_count : Z) :
  spends 1 1 (iteration llm json_loads run_tool str_of self step rest results
                retry_count).
Proof.
  unfold iteration.
  apply (spends_bind 0 0 1 1); [apply spends_lift|]. intros _.
  apply (spends_bind 1 0 0 1); [apply spends_execute_step|]. intros res.
  apply (spends_bind 0 1 0 0); [apply spends_verify_step|]. intros verification.
  apply (spends_bind 0 0 0 0); [apply spends_lift|]. intros _.
  apply (spends_bind 0 0 0 0); [apply spends_lift|]. intros success.
  destruct (truthy success); [apply spends_ret|].
  apply (spends_bind 0 0 0 0); [apply spends_lift|]. intros _.
  apply (spends_bind 0 0 0 0); [apply spends_lift|]. intros _.
  cbv zeta. destruct (_ <=? _)%Z; apply spends_ret.
Qed.

Lemma execute_and_verify_spends (self : PEVAgent) (n : nat) :
  ∀ current results retry_count,
    (0 <= retry_count < max_retries self)%Z →
    spends (Z.to_nat (max_retries self) * List.length current - Z.to_nat retry_count)
           (Z.to_nat (max_retries self) * List.length current - Z.to_nat retry_count)
           (execute_and_verify llm json_loads run_tool str_of n self current
              results retry_count).
Proof.
  induction n as [|n IH]; intros current results retry_count Hr w out w' Hrun.
  - destruct current as [|step rest].
    + injection Hrun as <- <-. lia.
    + simpl in Hrun. destruct (retry_count <? max_retries self)%Z; [done|].
      injection Hrun as <- <-. lia.
  - destruct current as [|step rest].
    + injection Hrun as <- <-. lia.
    + simpl in Hrun. destruct (retry_count <? max_retries self)%Z eqn:E.
      2:{ injection Hrun as <- <-. lia. }
      unfold mbind, M_bind, bind in Hrun.
      destruct (iteration _ _ _ _ _ _ _ _ _ w) as [[[c|e] w1]|] eqn:Hit; [| |done].
      * destruct (spends_iteration _ _ _ _ _ _ _ _ Hit) as [Ha Hp].
        change (List.length (step :: rest)) with (S (List.length rest)).
        destruct (iteration_outcome _ _ _ _ _ _ _ _ Hit)
          as (res & ver & success & Hs & [[Ht ->] | [(Ht & -> & Hlt2) | [Ht ->]]]).
        -- destruct (IH rest _ 0%Z ltac:(lia) _ _ _ Hrun) as [Ha' Hp'].
           split; nia.
        -- destruct (IH (step :: rest) _ (retry_count + 1)%Z ltac:(lia) _ _ _ Hrun)
             as [Ha' Hp'].
           change (List.length (step :: rest)) with (S (List.length rest)) in Ha', Hp'.
           split; nia.
        -- injection Hrun as <- <-. split; nia.
      * injection Hrun as <- <-.
        destruct (spends_iteration _ _ _ _ _ _ _ _ Hit) as [Ha Hp].
        change (List.length (step :: rest)) with (S (List.length rest)).
        split; nia.
Qed.

(** The verification built by the fallback has the three entries the loop
    reads. *)
Lemma fallback_verification_entries (fields : list (string * json)) :
  ∃ success suggestion,
    fallback_verification (JObj fields)
    = Ok (JObj [("success", success);
                ("reason", JStr "Basic verification based on result success flag");
                ("suggestion", JStr suggestion)]).
Proof.
  unfold fallback_verification, get.
  destruct (lookup_field "success" fields) as [flag|];
    cbn [mbind result_bind]; eauto.
Qed.

Lemma execute_step_returns (step : json) (w : world) :
  (∀ n name ps, ∃ fields, run_tool n name ps = JObj fields) →
  well_formed_step step →
  ∃ fields w', execute_step run_tool str_of step w = Some (Ok (JObj fields), w').
Proof.
  intros Htool (description & name & parameters & Hd & Ht & Hp).
  unfold execute_step, mbind, M_bind, bind, lift. rewrite Ht, Hp.
  case_bool_decide.
  - destruct (Htool (List.length (tool_calls w)) name parameters) as [fields Hf].
    unfold call_tool. rewrite Hf. eauto.
  - unfold tool_not_found, ret. eauto.
Qed.

Lemma iteration_returns (self : PEVAgent) (step : json) (rest results : list json)
    (retry_count : Z) (w : world) :
  (∀ n q, ∃ response msg,
     llm n q = Ok response
     ∧ parse_response json_loads response = Raise (JSONDecodeError msg)) →
  (∀ n name ps, ∃ fields, run_tool n name ps = JObj fields) →
  well_formed_step step →
  returns (iteration llm json_loads run_tool str_of self step rest results
             retry_count) w.
Proof.
  intros Hllm Htool Hstep.
  destruct (execute_step_returns step w Htool Hstep) as (fields & w1 & Hexec).
  destruct Hstep as (description & name & parameters & Hd & Ht & Hp).
  destruct (fallback_verification_entries fields) as (success & suggestion & Hfb).
  destruct (Hllm (List.length (prompts w1))
              (VerifyPrompt description (JStr name) parameters (JObj fields)))
    as (response & msg & Hr & Hparse).
  unfold returns, iteration, mbind, M_bind, bind, lift.
  rewrite Hd, Hexec. unfold verify_step, mbind, M_bind, bind, lift, llm_generate.
  rewrite Hd, Ht, Hp, Hr, Hparse, Hfb.
  cbn [get subscript lookup_field String.eqb Ascii.eqb Bool.eqb].
  destruct (truthy success); [unfold ret; eauto|].
  cbv zeta. destruct (_ <=? _)%Z; unfold ret; eauto.
Qed.

Lemma execute_and_verify_returns (self : PEVAgent) (n : nat) :
  (∀ n q, ∃ response msg,
     llm n q = Ok response
     ∧ parse_response json_loads response = Raise (JSONDecodeError msg)) →
  (∀ n name ps, ∃ fields, run_tool n name ps = JObj fields) →
  ∀ current results retry_count w,
    Forall well_formed_step current →
    (0 <= retry_count)%Z →
    (Z.to_nat (max_retries self) * List.length current
     <= n + Z.to_nat retry_count)%nat →
    returns (execute_and_verify llm json_loads run_tool str_of n self current
               results retry_count) w.
Proof.
  intros Hllm Htool.
  induction n as [|n IH]; intros current results retry_count w Hwf Hpos Hn.
  - destruct current as [|step rest]; [by eexists _, _|]. simpl.
    destruct (retry_count <? max_retries self)%Z eqn:E; [|by eexists _, _].
    apply Z.ltb_lt in E.
    change (List.length (step :: rest)) with (S (List.length rest)) in Hn. nia.
  - destruct current as [|step rest]; [by eexists _, _|]. simpl.
    destruct (retry_count <? max_retries self)%Z eqn:E; [|by eexists _, _].
    apply Z.ltb_lt in E.
    pose proof (Forall_inv Hwf) as Hstep. pose proof (Forall_inv_tail Hwf) as Hrest.
    destruct (iteration_returns self step rest results retry_count w Hllm Htool Hstep)
      as (c & w1 & Hit).
    unfold returns, mbind, M_bind, bind. rewrite Hit.
    change (List.length (step :: rest)) with (S (List.length rest)) in Hn.
    destruct (iteration_outcome _ _ _ _ _ _ _ _ Hit)
      as (res & ver & success & Hs & [[Ht ->] | [(Ht & -> & Hlt2) | [Ht ->]]]).
    + apply IH; [done | lia | nia].
    + apply IH; [done | lia |].
      change (List.length (step :: rest)) with (S (List.length rest)). lia.
    + by eexists _, _.
Qed.

End PEVLoopFacts.



(** X12.  The effort of the loop is bounded, however it ends (by running
    out of steps, by the [break] or by an exception): for a plan of [k]
    steps it makes at most [max_retries * k] tool calls and sends at most
    [max_retries * k] verification prompts. *)
Theorem execute_and_verify_effort
    (llm : nat → PEV.prompt → result string)
    (json_loads : string → result json)
    (run_tool : nat → string → json → json) (str_of : json → string)
    (self : PEV.PEVAgent) (plan : list json) (w : PEV.world) :
  let budget := (Z.to_nat (PEV.max_retries self) * List.length plan)%nat in
  ∃ out w',
    PEV.execute_and_verify llm json_loads run_tool str_of budget self plan [] 0 w
    = Some (out, w')
    ∧ (List.length (PEV.tool_calls w') ≤ budget + List.length (PEV.tool_calls w))%nat
    ∧ (List.length (PEV.prompts w') ≤ budget + List.length (PEV.prompts w))%nat.
Proof.
  intros budget.
  destruct (execute_and_verify_total llm json_loads run_tool str_of self budget
              plan [] 0%Z ltac:(lia) ltac:(lia) w) as [[out w'] Hout].
  exists out, w'. split; [exact Hout|].
  destruct (decide (0 < PEV.max_retries self)%Z) as [Hmax|Hmax].
  - destruct (execute_and_verify_spends llm json_loads run_tool str_of self budget
                plan [] 0%Z ltac:(lia) w out w' Hout) as [Ha Hp].
    fold budget in Ha, Hp. split; lia.
  - assert (Hw : w' = w).
    { destruct budget, plan as [|step rest]; simpl in Hout;
        try (injection Hout as <- <-; reflexivity);
        destruct (0 <? PEV.max_retries self)%Z eqn:E;
        try (apply Z.ltb_lt in E; lia);
        injection Hout as <- <-; reflexivity. }
    subst w'. split; lia.
Qed.

(** X13.  When the LLM answers every prompt with text that is not JSON,
    the loop cannot raise.  Every verification is then the fallback one,
    which always carries the "success", "reason" and "suggestion" entries
    the loop reads; so for a plan whose steps have their "step", "tool"
    (a string) and "parameters" entries, and tools that return dicts (as
    the four tools and the [except] clause of [execute_step] do), the loop
    returns its list of results. *)
Theorem execute_and_verify_fallback_never_raises
    (llm : nat → PEV.prompt → result string)
    (json_loads : string → result json)
    (run_tool : nat → string → json → json) (str_of : json → string)
    (self : PEV.PEVAgent) (plan : list json) (w : PEV.world) :
  (∀ n q, ∃ response msg,
     llm n q = Ok response
     ∧ parse_response json_loads response = Raise (JSONDecodeError msg)) →
  (∀ n name ps, ∃ fields, run_tool n name ps = JObj fields) →
  Forall PEV.well_formed_step plan →
  ∃ results w',
    PEV.execute_and_verify llm json_loads run_tool str_of
      (Z.to_nat (PEV.max_retries self) * List.length plan) self plan [] 0 w
    = Some (Ok results, w').
Proof.
  intros Hllm Htool Hwf.
  apply (execute_and_verify_returns llm json_loads run_tool str_of self _ Hllm Htool
           plan [] 0%Z w Hwf); lia.
Qed.

Lemma execute_and_verify_fallback_never_raises_witness :
  let llm : nat → PEV.prompt → result string := λ _ _, Ok "It did not work." in
  let json_loads : string → result json :=
    λ _, Raise (JSONDecodeError "Expecting value") in
  let run_tool : nat → string → json → json := λ _ _ _, search_unavailable in
  ∃ results w',
    PEV.execute_and_verify llm json_loads run_tool (λ _, "")
      (Z.to_nat (PEV.max_retries PEV.PEVAgent_init)
       * List.length [search_step "apple ceo"; search_step "aapl"])
      PEV.PEVAgent_init [search_step "apple ceo"; search_step "aapl"] [] 0
      {| PEV.prompts := []; PEV.tool_calls := [] |}
    = Some (Ok results, w').
Proof.
  intros llm json_loads run_tool.
  apply (execute_and_verify_fallback_never_raises llm json_loads run_tool (λ _, "")
           PEV.PEVAgent_init [search_step "apple ceo"; search_step "aapl"]
           {| PEV.prompts := []; PEV.tool_calls := [] |}).
  - intros n q. exists "It did not work.", "Expecting value". split; reflexivity.
  - intros n name ps. eexists. reflexivity.
  - repeat constructor; eexists _, _, _; repeat split; reflexivity.
Defined.

Section SolveFacts.
Import PEV.
Variable llm : nat → prompt → result string.
Variable json_loads : string → result json.
Variable run_tool : nat → string → json → json.
Variable str_of : json → string.
Variable synthesize : nat → string → list json → result string.

Lemma count_success_cons (status : string) (a : attempt) (rest : list json) :
  count_success (recorded status a :: rest)
  = match count_success rest with
    | Ok n => Ok (if String.eqb status "success" then S n else n)
    | Raise e => Raise e
    end.
Proof. reflexivity. Qed.

Lemma count_success_recorded (done : list attempt) :
  count_success (recorded "success" <$> done) = Ok (List.length done).
Proof.
  induction done as [|a done IH]; [reflexivity|].
  rewrite fmap_cons, count_success_cons, IH. reflexivity.
Qed.

Lemma count_success_failed (done : list attempt) (failed : attempt) :
  count_success ((recorded "success" <$> done) ++ [recorded "failed" failed])
  = Ok (List.length done).
Proof.
  induction done as [|a done IH]; [reflexivity|].
  rewrite fmap_cons. cbn [app]. rewrite count_success_cons, IH. reflexivity.
Qed.

Lemma total_plan (goal : string) : total (plan llm json_loads goal).
Proof.
  unfold plan. apply total_bind; [apply total_llm_generate|]. intros response.
  destruct (parse_response json_loads response) as [v|[]]; auto with total.
Qed.

Lemma total_solve (self : PEVAgent) (goal : string) :
  total (solve llm json_loads run_tool str_of synthesize self goal).
Proof.
  unfold solve.
  apply total_bind; [apply total_plan|]. intros the_plan.
  apply total_bind; [auto with total|]. intros _.
  apply total_bind.
  { destruct the_plan as [| | | | |steps|[|]]; auto with total.
    apply execute_and_verify_total; lia. }
  intros results.
  apply total_bind; [by intros w; eexists|]. intros final_answer.
  apply total_bind; [apply total_lift|]. intros rate. apply total_ret.
Qed.

Lemma success_rate_recorded (done : list attempt) :
  done ≠ [] →
  ∃ q, success_rate (recorded "success" <$> done) = Ok (JFloat (Finite q))
       ∧ (q == 1)%Q.
Proof.
  intros Hne. unfold success_rate.
  destruct done as [|a done]; [done|].
  rewrite fmap_cons. rewrite <- fmap_cons.
  rewrite count_success_recorded. cbn [mbind result_bind].
  rewrite length_fmap. eexists. split; [reflexivity|].
  apply Qmult_inv_r. simpl. unfold Qeq. simpl. lia.
Qed.

Lemma success_rate_failed (done : list attempt) (failed : attempt) :
  ∃ q, success_rate ((recorded "success" <$> done) ++ [recorded "failed" failed])
       = Ok (JFloat (Finite q))
       ∧ (q == inject_Z (Z.of_nat (List.length done))
               / inject_Z (Z.of_nat (List.length done) + 1))%Q.
Proof.
  unfold success_rate.
  destruct (_ ++ [_]) as [|r rs] eqn:E; [by destruct done|].
  rewrite <- E. rewrite count_success_failed. cbn [mbind result_bind].
  eexists. split; [reflexivity|].
  rewrite length_app, length_fmap. simpl.
  replace (Z.of_nat (List.length done + 1)) with (Z.of_nat (List.length done) + 1)%Z by lia.
  reflexivity.
Qed.

Lemma success_rate_loop (self : PEVAgent) (n : nat) (steps results : list json)
    (w w' : world) :
  (0 < max_retries self)%Z →
  execute_and_verify llm json_loads run_tool str_of n self steps [] 0 w
  = Some (Ok results, w') →
  ∃ rate, success_rate results = Ok rate.
Proof.
  intros Hmax Hloop.
  apply execute_and_verify_records_from in Hloop as Hshape; [|lia].
  destruct Hshape as (done & _ & [[-> _] | (failed & _ & -> & _)]).
  - destruct done as [|a done]; [by eexists|].
    destruct (success_rate_recorded (a :: done)) as (q & Hq & _); [done|].
    by eexists.
  - destruct (success_rate_failed done failed) as (q & Hq & _). by eexists.
Qed.

Lemma solve_returns_list (self : PEVAgent) (goal : string) (w w1 w2 : world)
    (steps results : list json) (answer : string) :
  (0 < max_retries self)%Z →
  plan llm json_loads goal w = Some (Ok (JArr steps), w1) →
  print_steps steps = Ok tt →
  execute_and_verify llm json_loads run_tool str_of
    (Z.to_nat (max_retries self) * List.length steps) self steps [] 0 w1
  = Some (Ok results, w2) →
  synthesize (List.length (prompts w2)) goal results = Ok answer →
  ∃ rate,
    solve llm json_loads run_tool str_of synthesize self goal w
    = Some (Ok {| solution_goal := goal;
                  solution_plan := JArr steps;
                  solution_results := results;
                  solution_final_answer := answer;
                  solution_success_rate := rate |}, w2).
Proof.
  intros Hmax Hplan Hprint Hloop Hanswer.
  destruct (success_rate_loop self _ steps results w1 w2 Hmax Hloop) as [rate Hrate].
  exists rate.
  unfold solve, mbind, M_bind, bind. rewrite Hplan. cbv iota beta.
  unfold lift, describe_plan. cbn [iterate mbind result_bind]. rewrite Hprint.
  cbv iota beta. rewrite Hloop. unfold synthesize_results. rewrite Hanswer.
  rewrite Hrate. reflexivity.
Qed.

Lemma solve_returns_dict (self : PEVAgent) (goal : string) (w w1 : world)
    (answer : string) :
  plan llm json_loads goal w = Some (Ok (JObj []), w1) →
  synthesize (List.length (prompts w1)) goal [] = Ok answer →
  solve llm json_loads run_tool str_of synthesize self goal w
  = Some (Ok {| solution_goal := goal;
                solution_plan := JObj [];
                solution_results := [];
                solution_final_answer := answer;
                solution_success_rate := JInt 0 |}, w1).
Proof.
  intros Hplan Hanswer.
  unfold solve, mbind, M_bind, bind. rewrite Hplan. cbv iota beta.
  change (lift (describe_plan (JObj [])) w1) with (Some (Ok tt, w1)).
  cbv iota beta. change ((ret [] : M world (list json)) w1) with (Some (Ok ([] : list json), w1)).
  cbv iota beta. unfold synthesize_results. rewrite Hanswer. reflexivity.
Qed.

Lemma raise_Ok_inv {W A} (e : exn) (w w' : W) (a : A) :
  (raise e : M W A) w = Some (Ok a, w') → False.
Proof. discriminate. Qed.

Lemma solve_outcome (self : PEVAgent) (goal : string) (w w' : world)
    (sol : solution) :
  (0 < max_retries self)%Z →
  solve llm json_loads run_tool str_of synthesize self goal w = Some (Ok sol, w') →
  solution_goal sol = goal
  ∧ ∃ done : list attempt,
      Forall (verified true) done
      ∧ ((solution_results sol = recorded "success" <$> done
          ∧ (solution_plan sol = JArr (attempt_step <$> done)
             ∨ (done = [] ∧ solution_plan sol = JObj []))
          ∧ ((done = [] ∧ solution_success_rate sol = JInt 0)
             ∨ (done ≠ []
                ∧ ∃ q, solution_success_rate sol = JFloat (Finite q)
                       ∧ (q == 1)%Q)))
         ∨ ∃ failed steps q,
             verified false failed
             ∧ solution_plan sol = JArr steps
             ∧ (attempt_step <$> done) ++ [attempt_step failed] `prefix_of` steps
             ∧ solution_results sol
               = (recorded "success" <$> done) ++ [recorded "failed" failed]
             ∧ solution_success_rate sol = JFloat (Finite q)
             ∧ (q == inject_Z (Z.of_nat (List.length done))
                     / inject_Z (Z.of_nat (List.length done) + 1))%Q).
Proof.
  intros Hmax H. unfold solve in H.
  apply bind_Ok_inv in H as (the_plan & w1 & _ & H).
  apply bind_Ok_inv in H as (_ & w2 & _ & H).
  apply bind_Ok_inv in H as (results & w3 & Hloop & H).
  apply bind_Ok_inv in H as (final_answer & w4 & _ & H).
  apply bind_Ok_inv in H as (rate & w5 & Hrate & H).
  apply lift_Ok_inv in Hrate as [Hrate _].
  apply ret_Ok_inv in H as [-> _]. cbn [solution_goal solution_plan
    solution_results solution_success_rate].
  split; [reflexivity|].
  assert (Hshape : ∃ done : list attempt,
            Forall (verified true) done
            ∧ ((results = recorded "success" <$> done
                ∧ (the_plan = JArr (attempt_step <$> done)
                   ∨ (done = [] ∧ the_plan = JObj [])))
               ∨ ∃ failed steps,
                   verified false failed
                   ∧ the_plan = JArr steps
                   ∧ (attempt_step <$> done) ++ [attempt_step failed]
                     `prefix_of` steps
                   ∧ results = (recorded "success" <$> done)
                               ++ [recorded "failed" failed])).
  { destruct the_plan as [| | | | |steps|[|]];
      try (by apply raise_Ok_inv in Hloop).
    - apply execute_and_verify_records_from in Hloop
        as (done & Hall & [[-> <-] | (failed & Hf & -> & Hpre)]); [| |lia].
      + exists done. split; [done|]. left. split; [done|]. by left.
      + exists done. split; [done|]. right. by exists failed, steps.
    - apply ret_Ok_inv in Hloop as [-> _]. exists []. split; [constructor|].
      left. split; [done|]. by right. }
  destruct Hshape as (done & Hall & [[-> Hplan] | (failed & steps & Hf & Hp & Hpre & ->)]).
  - exists done. split; [done|]. left. split; [done|]. split; [done|].
    destruct done as [|a done].
    + left. split; [done|]. simpl in Hrate. by injection Hrate as <-.
    + right. split; [done|].
      destruct (success_rate_recorded (a :: done)) as (q & Hq & Hone); [done|].
      rewrite Hq in Hrate. injection Hrate as <-. by exists q.
  - exists done. split; [done|]. right.
    destruct (success_rate_failed done failed) as (q & Hq & Hval).
    rewrite Hq in Hrate. injection Hrate as <-.
    by exists failed, steps, q.
Qed.

Lemma solve_fallback (self : PEVAgent) (goal : string) (w : world) :
  (0 < max_retries self)%Z →
  (∀ n q, ∃ response msg,
     llm n q = Ok response
     ∧ parse_response json_loads response = Raise (JSONDecodeError msg)) →
  (∀ n name ps, ∃ fields, run_tool n name ps = JObj fields) →
  (∀ n g results, ∃ answer, synthesize n g results = Ok answer) →
  ∃ sol w',
    solve llm json_loads run_tool str_of synthesize self goal w = Some (Ok sol, w')
    ∧ solution_plan sol = fallback_plan goal
    ∧ synthesize (List.length (prompts w')) goal (solution_results sol)
      = Ok (solution_final_answer sol)
    ∧ (List.length (tool_calls w')
       ≤ 2 * Z.to_nat (max_retries self) + List.length (tool_calls w))%nat
    ∧ (List.length (prompts w')
       ≤ 1 + 2 * Z.to_nat (max_retries self) + List.length (prompts w))%nat.
Proof.
  intros Hmax Hllm Htool Hsyn.
  destruct (Hllm (List.length (prompts w)) (PlanPrompt goal))
    as (response & msg & Hr & Hparse).
  set (w1 := {| prompts := prompts w ++ [PlanPrompt goal];
                tool_calls := tool_calls w |}).
  assert (Hplan : plan llm json_loads goal w = Some (Ok (fallback_plan goal), w1)).
  { unfold plan, mbind, M_bind, bind, llm_generate. by rewrite Hr, Hparse. }
  set (steps :=
    [JObj [("step", JStr ("Search for information about: " +:+ goal));
           ("tool", JStr "search"); ("parameters", JArr [JStr goal])];
     JObj [("step", JStr "Analyze the results"); ("tool", JStr "search");
           ("parameters", JArr [JStr ("analysis of " +:+ goal)])]]).
  assert (Hwf : Forall well_formed_step steps).
  { repeat constructor; eexists _, _, _; repeat split; reflexivity. }
  destruct (execute_and_verify_returns llm json_loads run_tool str_of self
              (Z.to_nat (max_retries self) * List.length steps) Hllm Htool
              steps [] 0%Z w1 Hwf ltac:(lia) ltac:(lia)) as (results & w2 & Hloop).
  destruct (Hsyn (List.length (prompts w2)) goal results) as [answer Hanswer].
  assert (Hrate : ∃ rate, success_rate results = Ok rate).
  { apply execute_and_verify_records_from in Hloop as Hshape; [|lia].
    destruct Hshape as (done & _ & [[-> _] | (failed & _ & -> & _)]).
    - destruct done as [|a done]; [by eexists|].
      destruct (success_rate_recorded (a :: done)) as (q & Hq & _); [done|].
      by eexists.
    - destruct (success_rate_failed done failed) as (q & Hq & _). by eexists. }
  destruct Hrate as [rate Hrate].
  destruct (execute_and_verify_spends llm json_loads run_tool str_of self _
              steps [] 0%Z ltac:(lia) w1 _ _ Hloop) as [Ha Hp].
  eexists _, w2. split.
  { unfold solve, mbind, M_bind, bind. rewrite Hplan.
    change (lift (describe_plan (fallback_plan goal)) w1) with (Some (Ok tt, w1)).
    cbv iota beta. change (fallback_plan goal) with (JArr steps). cbv iota beta.
    rewrite Hloop. unfold synthesize_results. rewrite Hanswer.
    unfold lift. rewrite Hrate. reflexivity. }
  cbn [solution_plan solution_results solution_final_answer].
  split; [reflexivity|]. split; [exact Hanswer|].
  subst w1. cbn [prompts tool_calls] in Ha, Hp. rewrite length_app in Hp.
  change (List.length steps) with 2%nat in Ha, Hp. simpl in Hp. split; lia.
Qed.

End SolveFacts.

(** X14.  What [solve] returns, and that it does return: the call never
    divides by zero.  Once the plan is there and printed, the loop has
    ended normally and the synthesis has answered, [solve] returns, with
    that plan, those results and that answer, the world being left as the
    loop left it; nothing raises while [success_rate] is computed, also
    when there is no result at all (an empty list as plan, or an empty
    dict, for which [success_rate] is the int 0).  And the results it
    returns follow the plan in order: either all of them are "success"
    and they cover the whole plan, and then [success_rate] is the int 0
    when there is no result and 1.0 when there is one; or the last one
    is "failed", no step after it is recorded, and [success_rate] is
    k / (k + 1) for the k steps that succeeded. *)
Theorem solve_success_rate
    (llm : nat → PEV.prompt → result string)
    (json_loads : string → result json)
    (run_tool : nat → string → json → json) (str_of : json → string)
    (synthesize : nat → string → list json → result string)
    (self : PEV.PEVAgent) (goal : string) (w : PEV.world) :
  let solve := PEV.solve llm json_loads run_tool str_of synthesize self goal in
  (0 < PEV.max_retries self)%Z →
  (∀ steps w1 results w2 answer,
     PEV.plan llm json_loads goal w = Some (Ok (JArr steps), w1) →
     PEV.print_steps steps = Ok tt →
     PEV.execute_and_verify llm json_loads run_tool str_of
       (Z.to_nat (PEV.max_retries self) * List.length steps) self steps [] 0 w1
     = Some (Ok results, w2) →
     synthesize (List.length (PEV.prompts w2)) goal results = Ok answer →
     ∃ rate,
       solve w = Some (Ok {| PEV.solution_goal := goal;
                             PEV.solution_plan := JArr steps;
                             PEV.solution_results := results;
                             PEV.solution_final_answer := answer;
                             PEV.solution_success_rate := rate |}, w2))
  ∧ (∀ w1 answer,
       PEV.plan llm json_loads goal w = Some (Ok (JObj []), w1) →
       synthesize (List.length (PEV.prompts w1)) goal [] = Ok answer →
       solve w = Some (Ok {| PEV.solution_goal := goal;
                             PEV.solution_plan := JObj [];
                             PEV.solution_results := [];
                             PEV.solution_final_answer := answer;
                             PEV.solution_success_rate := JInt 0 |}, w1))
  ∧ (∀ sol w',
       solve w = Some (Ok sol, w') →
       PEV.solution_goal sol = goal
       ∧ ∃ done : list PEV.attempt,
           Forall (PEV.verified true) done
           ∧ ((PEV.solution_results sol = PEV.recorded "success" <$> done
               ∧ (PEV.solution_plan sol = JArr (PEV.attempt_step <$> done)
                  ∨ (done = [] ∧ PEV.solution_plan sol = JObj []))
               ∧ ((done = [] ∧ PEV.solution_success_rate sol = JInt 0)
                  ∨ (done ≠ []
                     ∧ ∃ q, PEV.solution_success_rate sol = JFloat (Finite q)
                            ∧ (q == 1)%Q)))
              ∨ ∃ failed steps q,
                  PEV.verified false failed
                  ∧ PEV.solution_plan sol = JArr steps
                  ∧ (PEV.attempt_step <$> done) ++ [PEV.attempt_step failed]
                    `prefix_of` steps
                  ∧ PEV.solution_results sol
                    = (PEV.recorded "success" <$> done)
                      ++ [PEV.recorded "failed" failed]
                  ∧ PEV.solution_success_rate sol = JFloat (Finite q)
                  ∧ (q == inject_Z (Z.of_nat (List.length done))
                          / inject_Z (Z.of_nat (List.length done) + 1))%Q)).
Proof.
  intros solve Hmax. subst solve. split; [|split].
  - intros steps w1 results w2 answer Hplan Hprint Hloop Hanswer.
    exact (solve_returns_list llm json_loads run_tool str_of synthesize self
             goal w w1 w2 steps results answer Hmax Hplan Hprint Hloop Hanswer).
  - intros w1 answer Hplan Hanswer.
    exact (solve_returns_dict llm json_loads run_tool str_of synthesize self
             goal w w1 answer Hplan Hanswer).
  - intros sol w' Hrun.
    exact (solve_outcome llm json_loads run_tool str_of synthesize self goal
             w w' sol Hmax Hrun).
Qed.

(** An LLM that plans nothing: the plan is the empty list, there is no
    result, and the call returns. *)
Lemma solve_success_rate_witness :
  let llm : nat → PEV.prompt → result string := λ _ _, Ok "[]" in
  let json_loads : string → result json := λ _, Ok (JArr []) in
  let run_tool : nat → string → json → json := λ _ _ _, search_unavailable in
  let synthesize : nat → string → list json → result string :=
    λ _ _ _, Ok "Nothing was done." in
  ∃ rate,
    PEV.solve llm json_loads run_tool (λ _, "") synthesize PEV.PEVAgent_init
      "ceo" {| PEV.prompts := []; PEV.tool_calls := [] |}
    = Some (Ok {| PEV.solution_goal := "ceo";
                  PEV.solution_plan := JArr [];
                  PEV.solution_results := [];
                  PEV.solution_final_answer := "Nothing was done.";
                  PEV.solution_success_rate := rate |},
            {| PEV.prompts := [PEV.PlanPrompt "ceo"]; PEV.tool_calls := [] |}).
Proof.
  intros llm json_loads run_tool synthesize.
  apply (proj1 (solve_success_rate llm json_loads run_tool (λ _, "") synthesize
                  PEV.PEVAgent_init "ceo"
                  {| PEV.prompts := []; PEV.tool_calls := [] |}
                  ltac:(reflexivity))
           [] {| PEV.prompts := [PEV.PlanPrompt "ceo"]; PEV.tool_calls := [] |}
           [] {| PEV.prompts := [PEV.PlanPrompt "ceo"]; PEV.tool_calls := [] |}
           "Nothing was done.");
    reflexivity.
Defined.

(** X15.  [solve] with an LLM that never answers in JSON.  The plan is
    the two-step search plan written for the goal, the loop over it does
    not raise (tools returning dicts), and so the call returns whenever
    the synthesis does; it has then made at most [2 * max_retries] tool
    calls and sent at most [1 + 2 * max_retries] prompts before the
    synthesis. *)
Theorem solve_fallback_plan_runs
    (llm : nat → PEV.prompt → result string)
    (json_loads : string → result json)
    (run_tool : nat → string → json → json) (str_of : json → string)
    (synthesize : nat → string → list json → result string)
    (self : PEV.PEVAgent) (goal : string) (w : PEV.world) :
  (0 < PEV.max_retries self)%Z →
  (∀ n q, ∃ response msg,
     llm n q = Ok response
     ∧ parse_response json_loads response = Raise (JSONDecodeError msg)) →
  (∀ n name ps, ∃ fields, run_tool n name ps = JObj fields) →
  (∀ n g results, ∃ answer, synthesize n g results = Ok answer) →
  ∃ sol w',
    PEV.solve llm json_loads run_tool str_of synthesize self goal w
    = Some (Ok sol, w')
    ∧ PEV.solution_plan sol = PEV.fallback_plan goal
    ∧ synthesize (List.length (PEV.prompts w')) goal (PEV.solution_results sol)
      = Ok (PEV.solution_final_answer sol)
    ∧ (List.length (PEV.tool_calls w')
       ≤ 2 * Z.to_nat (PEV.max_retries self) + List.length (PEV.tool_calls w))%nat
    ∧ (List.length (PEV.prompts w')
       ≤ 1 + 2 * Z.to_nat (PEV.max_retries self) + List.length (PEV.prompts w))%nat.
Proof.
  intros Hmax Hllm Htool Hsyn.
  exact (solve_fallback llm json_loads run_tool str_of synthesize self goal w
           Hmax Hllm Htool Hsyn).
Qed.

Lemma solve_fallback_plan_runs_witness :
  let llm : nat → PEV.prompt → result string := λ _ _, Ok "It did not work." in
  let json_loads : string → result json :=
    λ _, Raise (JSONDecodeError "Expecting value") in
  let run_tool : nat → string → json → json := λ _ _ _, search_unavailable in
  let synthesize : nat → string → list json → result string :=
    λ _ _ _, Ok "The search failed." in
  let w0 := {| PEV.prompts := []; PEV.tool_calls := [] |} in
  ∃ sol w',
    PEV.solve llm json_loads run_tool (λ _, "") synthesize PEV.PEVAgent_init
      "apple ceo" w0
    = Some (Ok sol, w')
    ∧ PEV.solution_plan sol = PEV.fallback_plan "apple ceo"
    ∧ synthesize (List.length (PEV.prompts w')) "apple ceo" (PEV.solution_results sol)
      = Ok (PEV.solution_final_answer sol)
    ∧ (List.length (PEV.tool_calls w')
       ≤ 2 * Z.to_nat (PEV.max_retries PEV.PEVAgent_init)
         + List.length (PEV.tool_calls w0))%nat
    ∧ (List.length (PEV.prompts w')
       ≤ 1 + 2 * Z.to_nat (PEV.max_retries PEV.PEVAgent_init)
         + List.length (PEV.prompts w0))%nat.
Proof.
  intros llm json_loads run_tool synthesize w0.
  apply (solve_fallback_plan_runs llm json_loads run_tool (λ _, "") synthesize
           PEV.PEVAgent_init "apple ceo" w0).
  - reflexivity.
  - intros n q. exists "It did not work.", "Expecting value". split; reflexivity.
  - intros n name ps. eexists. reflexivity.
  - intros n g results. eexists. reflexivity.
Defined.

(* ===================================================================== *)
(** * Further properties: the extraction of the JSON text                 *)
(* ===================================================================== *)

Section FenceFacts.


Lemma prefix_app (s t : string) : String.prefix s (s +:+ t) = true.
Proof.
  induction s as [|c s IH]; simpl; [by destruct t|].
  by destruct (ascii_dec c c).
Qed.

Lemma drop_prefix_app (s t : string) : drop_prefix (String.length s) (s +:+ t) = t.
Proof. induction s as [|c s IH]; simpl; [by destruct t|done]. Qed.

Lemma contains_cons (c : ascii) (s : string) :
  contains "`" (String c s) = false → c ≠ "`"%char ∧ contains "`" s = false.
Proof.
  unfold contains. cbn [split_at String.prefix].
  destruct (ascii_dec "`" c) as [<-|Hne].
  - by destruct s.
  - intros H. split; [by intros ->|].
    by destruct (split_at "`" s) as [[??]|].
Qed.

Lemma append_nothing (s : string) : s +:+ "" = s.
Proof.
  induction s as [|c s IH]; [done|].
  change (String c (s +:+ "") = String c s). by rewrite IH.
Qed.

Lemma split_at_step (sep : string) (c : ascii) (s : string) :
  split_at sep (String c s)
  = if String.prefix sep (String c s)
    then Some ("", drop_prefix (String.length sep) (String c s))
    else match split_at sep s with
         | Some (before, after) => Some (String c before, after)
         | None => None
         end.
Proof. reflexivity. Qed.

(** In text without a backtick a separator that starts with one does not
    occur. *)
Lemma split_at_no_tick (sep s : string) :
  contains "`" s = false → split_at (String "`"%char sep) s = None.
Proof.
  induction s as [|c s IH]; intros H; [reflexivity|].
  apply contains_cons in H as [Hc Hs]. cbn [split_at String.prefix].
  destruct (ascii_dec "`" c) as [<-|_]; [done|].
  by rewrite IH.
Qed.

(** The first occurrence of such a separator after text without a
    backtick is where that text ends. *)
Lemma split_at_after (sep pre rest : string) :
  contains "`" pre = false →
  split_at (String "`"%char sep) (pre +:+ String "`"%char sep +:+ rest) = Some (pre, rest).
Proof.
  induction pre as [|c pre IH]; intros H.
  - change ("" +:+ String "`"%char sep +:+ rest) with (String "`"%char sep +:+ rest).
    destruct (String "`"%char sep +:+ rest) eqn:E; [discriminate|].
    cbn [split_at]. rewrite <- E, prefix_app.
    by rewrite drop_prefix_app.
  - apply contains_cons in H as [Hc Hs].
    change (String c pre +:+ String "`"%char sep +:+ rest)
      with (String c (pre +:+ String "`"%char sep +:+ rest)).
    cbn [split_at String.prefix].
    destruct (ascii_dec "`" c) as [<-|_]; [done|].
    by rewrite IH.
Qed.

(** A later occurrence lies in what follows that text. *)
Lemma split_at_skip (sep body t before after : string) :
  contains "`" body = false →
  split_at (String "`"%char sep) (body +:+ t) = Some (before, after) →
  ∃ t', before = body +:+ t' ∧ split_at (String "`"%char sep) t = Some (t', after).
Proof.
  revert before. induction body as [|c body IH]; intros before H Hs.
  - exists before. split; [done|]. by destruct t.
  - apply contains_cons in H as [Hc Hb].
    change (String c body +:+ t) with (String c (body +:+ t)) in Hs.
    cbn [split_at String.prefix] in Hs.
    destruct (ascii_dec "`" c) as [<-|_]; [done|].
    destruct (split_at (String "`"%char sep) (body +:+ t)) as [[b a]|] eqn:E; [|done].
    injection Hs as <- <-.
    destruct (IH b Hb eq_refl) as (t' & -> & Ht). by exists t'.
Qed.

Lemma split_upto_head (n : nat) (sep s : string) :
  ∃ h l, split_upto n sep s = h :: l
         ∧ (h = s ∨ ∃ after, split_at sep s = Some (h, after)).
Proof.
  destruct n as [|n]; simpl; [by eexists _, _; split; [|left]|].
  destruct (split_at sep s) as [[before after]|].
  - eexists _, _. split; [done|]. right. by eexists.
  - eexists _, _. split; [done|]. by left.
Qed.

Lemma split_first (sep s before after : string) :
  split_at (String "`"%char sep) s = Some (before, after) →
  ∃ n, split (String "`"%char sep) s = before :: split_upto n (String "`"%char sep) after.
Proof.
  intros H. unfold split. destruct s as [|c s]; [discriminate|].
  simpl String.length. cbn [split_upto]. rewrite H. by eexists.
Qed.

(** The text taken from a fenced block. *)
Lemma extract_json_fence (pre body post : string) :
  contains "`" pre = false →
  contains "`" body = false →
  contains "`" post = false →
  extract_json (pre +:+ "```json" +:+ body +:+ "```" +:+ post) = Ok (strip body).
Proof.
  intros Hpre Hbody Hpost.
  pose proof (split_at_after "``json" pre (body +:+ "```" +:+ post) Hpre) as H1.
  unfold extract_json, contains.
  change (String "`"%char "``json") with "```json" in H1. rewrite H1.
  destruct (split_first _ _ _ _ H1) as [n ->].
  destruct (split_upto_head n "```json" (body +:+ "```" +:+ post))
    as (inner & l & -> & Hinner).
  cbn [item lookup list_lookup].
  assert (Hhead : ∃ l', split "```" inner = body :: l').
  { destruct Hinner as [-> | [after Hafter]].
    - pose proof (split_at_after "``" body post Hbody) as H2.
      destruct (split_first _ _ _ _ H2) as [m ->]. by eexists.
    - apply (split_at_skip "``json" body ("```" +:+ post)) in Hafter
        as (t' & -> & Ht'); [|done].
      assert (t' = "") as ->.
      { assert (Hp : split_at "```json" post = None)
          by apply (split_at_no_tick "``json" post Hpost).
        assert (P1 : String.prefix "```json" (String "`"%char post) = false).
        { destruct post as [|c post]; [reflexivity|].
          apply contains_cons in Hpost as [Hc _]. cbn [String.prefix].
          destruct (ascii_dec "`" "`") as [_|]; [|done].
          by destruct (ascii_dec "`" c) as [<-|_]. }
        assert (P2 : String.prefix "```json" (String "`"%char (String "`"%char post)) = false).
        { destruct post as [|c post]; [reflexivity|].
          apply contains_cons in Hpost as [Hc _]. cbn [String.prefix].
          destruct (ascii_dec "`" "`") as [_|]; [|done].
          by destruct (ascii_dec "`" c) as [<-|_]. }
        change ("```" +:+ post) with (String "`"%char (String "`"%char (String "`"%char post))) in Ht'.
        rewrite (split_at_step "```json" "`"%char (String "`"%char (String "`"%char post))) in Ht'.
        destruct (String.prefix "```json" (String "`"%char (String "`"%char (String "`"%char post))));
          [by injection Ht' as <- _|].
        rewrite (split_at_step "```json" "`"%char (String "`"%char post)), P2 in Ht'.
        rewrite (split_at_step "```json" "`"%char post), P1, Hp in Ht'.
        discriminate. }
      rewrite append_nothing.
      unfold split.
      destruct (split_upto_head (String.length body) "```" body)
        as (h & l' & -> & [-> | [after' Ha]]); [by eexists|].
      by rewrite (split_at_no_tick "``" body Hbody) in Ha. }
  destruct Hhead as [l' ->]. reflexivity.
Qed.

Lemma prefix_fence (s : string) :
  String.prefix "```" s = false → String.prefix "```json" s = false.
Proof.
  destruct s as [|c1 [|c2 [|c3 s]]]; cbn [String.prefix];
    repeat (destruct (ascii_dec _ _)); try done.
  by destruct s.
Qed.

Lemma contains_fence (s : string) :
  contains "```" s = false → contains "```json" s = false.
Proof.
  unfold contains. induction s as [|c s IH]; [done|].
  rewrite !split_at_step.
  destruct (String.prefix "```" (String c s)) eqn:E; [done|].
  rewrite (prefix_fence _ E).
  destruct (split_at "```" s) as [[??]|]; [done|]. intros _.
  by destruct (split_at "```json" s) as [[??]|]; [discriminate IH|].
Qed.

Lemma extract_json_plain (response : string) :
  contains "```" response = false → extract_json response = Ok response.
Proof.
  intros H. unfold extract_json. by rewrite (contains_fence _ H), H.
Qed.

End FenceFacts.

(** X16.  The extraction of the JSON text from a response never raises:
    whenever a fence occurs, [split] has the item that is indexed.  And a
    response without a fence is handed to [json.loads] as it is, without
    being stripped. *)
Theorem extract_json_never_raises (response : string) :
  ∃ json_str,
    extract_json response = Ok json_str
    ∧ (contains "```" response = true ∨ json_str = response).
Proof.
  destruct (contains "```" response) eqn:E.
  - destruct (extract_json_total response) as [json_str H].
    exists json_str. split; [exact H | by left].
  - exists response. split; [by apply extract_json_plain | by right].
Qed.

(** X17.  A JSON text in a fenced block is found: when the response is
    some text, the opening fence with its json tag, the body, the closing
    fence and some more text, none of the three texts containing a
    backtick, what is handed to [json.loads] is the body, stripped. *)
Theorem extract_json_fenced_block (pre body post : string) :
  contains "`" pre = false →
  contains "`" body = false →
  contains "`" post = false →
  extract_json (pre +:+ "```json" +:+ body +:+ "```" +:+ post) = Ok (strip body).
Proof. apply extract_json_fence. Qed.

Lemma extract_json_fenced_block_witness :
  extract_json ("Here it is: " +:+ "```json" +:+ " [1, 2] " +:+ "```"
                +:+ " Anything else?")
  = Ok (strip " [1, 2] ").
Proof.
  apply (extract_json_fenced_block "Here it is: " " [1, 2] " " Anything else?");
    reflexivity.
Defined.

(* ===================================================================== *)
(** * Further properties: thought nodes                                   *)
(* ===================================================================== *)

Section CycleFacts.
Import TreeOfThoughts.

Lemma parent_after_add_child (h : heap) (p c x : nat) (n : ThoughtNode) :
  h !! x = Some n →
  ∃ n', add_child p c h !! x = Some n'
        ∧ parent n' = if decide (x = c) then Some p else parent n.
Proof.
  intros Hx. unfold add_child. cbv zeta.
  set (h1 := alter (set_parent (Some p)) c h).
  assert (H1 : ∃ n1, h1 !! x = Some n1
                     ∧ parent n1 = if decide (x = c) then Some p else parent n).
  { subst h1. destruct (decide (x = c)) as [->|Hne].
    - rewrite list_lookup_alter_eq, Hx. simpl. eexists. split; reflexivity.
    - rewrite list_lookup_alter_ne by done. by eexists. }
  destruct H1 as (n1 & Hn1 & Hp1).
  set (h2 := match h1 !! p with
             | Some s => alter (set_depth (depth s + 1)) c h1
             | None => h1
             end).
  assert (H2 : ∃ n2, h2 !! x = Some n2 ∧ parent n2 = parent n1).
  { subst h2. destruct (h1 !! p) as [s|]; [|by eexists].
    destruct (decide (x = c)) as [->|Hne].
    - rewrite list_lookup_alter_eq, Hn1. simpl. eexists. split; reflexivity.
    - rewrite list_lookup_alter_ne by done. by eexists. }
  destruct H2 as (n2 & Hn2 & Hp2).
  destruct (decide (x = p)) as [->|Hne].
  - rewrite list_lookup_alter_eq, Hn2. simpl. eexists. split; [done|]. simpl. congruence.
  - rewrite list_lookup_alter_ne by done. eexists. split; [done|]. congruence.
Qed.

Lemma add_child_cycle_from (h : heap) (p c : nat) :
  ancestor h c p →
  ∀ n path, get_path_from n (add_child p c h) (Some c) path = None.
Proof.
  intros Hanc n. induction n as [n IHn] using lt_wf_ind. intros path.
  destruct n as [|n1]; [reflexivity|].
  assert (Hc : ∃ nc, h !! c = Some nc).
  { clear IHn. induction Hanc; eauto. }
  destruct Hc as [nc Hc].
  destruct (parent_after_add_child h p c c nc Hc) as (nc' & Hc' & Hpc).
  rewrite decide_True in Hpc by done.
  cbn [get_path_from]. rewrite Hc', Hpc.
  assert (Hwalk : ∀ x, ancestor h c x →
            ∀ m path, (m ≤ n1)%nat →
              get_path_from m (add_child p c h) (Some x) path = None).
  { intros x Hx. induction Hx as [nx Hnx | x q nx Hnx Hq Hx IH]; intros m path' Hm.
    - apply IHn. lia.
    - destruct (decide (x = c)) as [->|Hne]; [apply IHn; lia|].
      destruct m as [|m1]; [reflexivity|].
      destruct (parent_after_add_child h p c x nx Hnx) as (nx' & Hnx' & Hpx).
      rewrite decide_False in Hpx by done.
      cbn [get_path_from]. rewrite Hnx', Hpx, Hq. apply IH. lia. }
  by apply Hwalk.
Qed.

Lemma add_child_cycle_below (h : heap) (p c x : nat) :
  ancestor h c p → ancestor h c x →
  ∀ n path, get_path_from n (add_child p c h) (Some x) path = None.
Proof.
  intros Hp Hx. induction Hx as [nx Hnx | x q nx Hnx Hq Hx IH]; intros n path.
  - by apply add_child_cycle_from.
  - destruct (decide (x = c)) as [->|Hne]; [by apply add_child_cycle_from|].
    destruct n as [|n1]; [reflexivity|].
    destruct (parent_after_add_child h p c x nx Hnx) as (nx' & Hnx' & Hpx).
    rewrite decide_False in Hpx by done.
    cbn [get_path_from]. rewrite Hnx', Hpx, Hq. apply IH.
Qed.

End CycleFacts.

(** X18.  [add_child] does not look for cycles.  When the child handed to
    [node.add_child] is the node itself or one of its ancestors, the
    parent references form a cycle afterwards, and [get_path] never
    returns (its loop has no bound) for the child, for the node, and for
    every node whose chain of parents passed through the child. *)
Theorem add_child_cycle_no_path (h : TreeOfThoughts.heap) (node child x : nat) :
  TreeOfThoughts.ancestor h child node →
  TreeOfThoughts.ancestor h child x →
  ∀ n, TreeOfThoughts.get_path n (TreeOfThoughts.add_child node child h) x = None.
Proof.
  intros Hnode Hx n. unfold TreeOfThoughts.get_path.
  by apply add_child_cycle_below.
Qed.

Lemma add_child_cycle_no_path_witness :
  let h := TreeOfThoughts.add_child 0 1
             [TreeOfThoughts.ThoughtNode_new (JStr "root");
              TreeOfThoughts.ThoughtNode_new (JStr "idea")] in
  TreeOfThoughts.get_path 1000 (TreeOfThoughts.add_child 1 0 h) 1 = None.
Proof.
  intros h.
  apply (add_child_cycle_no_path h 1 0 1).
  - eapply TreeOfThoughts.ancestor_up; [reflexivity | reflexivity |].
    eapply TreeOfThoughts.ancestor_self. reflexivity.
  - eapply TreeOfThoughts.ancestor_up; [reflexivity | reflexivity |].
    eapply TreeOfThoughts.ancestor_self. reflexivity.
Defined.

(* ===================================================================== *)
(** * Further properties: a provider name [generate] does not know        *)
(* ===================================================================== *)

Section UnknownProviderFacts.
Import LLMProvider.

Lemma unknown_no_call (self : SimpleLLM) (prompt : string) (temperature : Q) :
  ¬ supported (self_provider self) →
  completion_call self prompt temperature = None.
Proof.
  unfold supported, completion_call. intros H. cbv zeta.
  repeat match goal with
  | |- context [String.eqb (self_provider self) ?s] =>
      destruct (String.eqb_spec (self_provider self) s) as [E|_];
        [exfalso; apply H; rewrite E; set_solver|]
  end.
  reflexivity.
Qed.

Lemma unknown_default_model (p : string) :
  ¬ supported p → _get_default_model p = "gpt-3.5-turbo".
Proof.
  unfold supported, _get_default_model, defaults. intros H.
  rewrite (not_elem_of_list_to_map_1 _ p); [reflexivity|].
  simpl. exact H.
Qed.

Lemma unknown_no_client (sdk_client : string → result unit) (p : string) :
  ¬ supported p → _create_client sdk_client p = Ok tt.
Proof.
  unfold supported, _create_client. intros H.
  rewrite bool_decide_eq_false_2; [reflexivity|].
  intros Hin. apply H. set_solver.
Qed.

Lemma init_unknown_provider (env : environ) (probe : result Z)
    (sdk_client : string → result unit) (p : string) (model : option string) :
  p ≠ "" → ¬ supported p →
  SimpleLLM_init env probe sdk_client (Some p) model
  = Ok {| self_provider := p;
          self_model := if truthy_str_opt model then default "" model
                        else "gpt-3.5-turbo" |}.
Proof.
  intros Hne Hp. unfold SimpleLLM_init.
  assert (Ht : truthy_str_opt (Some p) = true).
  { simpl. by destruct (String.eqb_spec p ""). }
  rewrite Ht. change (default "" (Some p)) with p.
  cbn [mbind result_bind].
  rewrite (unknown_no_client sdk_client p Hp), (unknown_default_model p Hp).
  reflexivity.
Qed.

End UnknownProviderFacts.

(** X19.  A provider name outside the six that [generate] knows is not
    rejected when the instance is built: [__init__] takes the name as it
    is, without looking at the environment, the Ollama endpoint or any
    SDK, and falls back on the model "gpt-3.5-turbo" when none is named.
    The mistake shows at the first use: every [generate] raises the
    wrapped error naming the provider, and makes no call. *)
Theorem unknown_provider_fails_late
    (env : LLMProvider.environ) (probe : result Z)
    (sdk_client : string → result unit) (p : string) (model : option string) :
  p ≠ "" →
  ¬ LLMProvider.supported p →
  ∃ self,
    LLMProvider.SimpleLLM_init env probe sdk_client (Some p) model = Ok self
    ∧ LLMProvider.self_provider self = p
    ∧ LLMProvider.self_model self
      = (if truthy_str_opt model then default "" model else "gpt-3.5-turbo")
    ∧ ∀ sdk prompt temperature w,
        ∃ m, LLMProvider.generate sdk self prompt temperature w
             = (Raise (Exception ("Error with " +:+ p +:+ ": " +:+ m)), w).
Proof.
  intros Hne Hp.
  set (self := {| LLMProvider.self_provider := p;
                  LLMProvider.self_model :=
                    if truthy_str_opt model then default "" model
                    else "gpt-3.5-turbo" |}).
  exists self. split; [by apply init_unknown_provider|].
  split; [reflexivity|]. split; [reflexivity|].
  intros sdk prompt temperature w.
  exact (generate_unknown_provider sdk self prompt temperature w
           (unknown_no_call self prompt temperature Hp)).
Qed.

Lemma unknown_provider_fails_late_witness :
  ∃ self,
    LLMProvider.SimpleLLM_init ∅ (Raise (Other "ConnectionError" ""))
      (λ _, Raise (Other "ImportError" "")) (Some "cohere") None = Ok self
    ∧ LLMProvider.self_provider self = "cohere"
    ∧ LLMProvider.self_model self
      = (if truthy_str_opt None then default "" None else "gpt-3.5-turbo")
    ∧ ∀ sdk prompt temperature w,
        ∃ m, LLMProvider.generate sdk self prompt temperature w
             = (Raise (Exception ("Error with " +:+ "cohere" +:+ ": " +:+ m)), w).
Proof.
  apply (unknown_provider_fails_late ∅ (Raise (Other "ConnectionError" ""))
           (λ _, Raise (Other "ImportError" "")) "cohere" None).
  - discriminate.
  - unfold LLMProvider.supported. intros H.
    repeat (apply elem_of_cons in H as [H|H]; [discriminate|]).
    by apply elem_of_nil in H.
Defined.

(* ===================================================================== *)
(** * Further properties: which nodes [build_tree] expands                *)
(* ===================================================================== *)

Section GrowthFacts.
Import TreeOfThoughts.
Variable llm : nat → prompt → result string.
Variable json_loads : string → result json.
Variable self : TreeOfThoughts.
Variable problem : string.
Variable root : nat.
Hypothesis branching_nonneg : (0 <= branching_factor self)%Z.

Lemma eligible_attach (h : heap) (node : nat) (kid : ThoughtNode) (i : nat) :
  eligible root h i → eligible root (attach h node kid) i.
Proof.
  intros [->|Hc]; [by left|]. right.
  destruct (carried_ok_attach h node kid [i]) with (i := i)
    as (n & Hn & Ht & Hs); [|set_solver|by exists n].
  intros j ->%list_elem_of_singleton. exact Hc.
Qed.

Lemma growth_ok_attach (old h : heap) (node : nat) (kid : ThoughtNode) :
  growth_ok root old h → (root <= node < List.length h)%nat →
  eligible root h node → children kid = [] →
  format_1f (evaluation_score kid) = Ok tt →
  growth_ok root old (attach h node kid).
Proof.
  intros (Hold & (rn & Hrn & Hrp & Hrd & Hrc & Hrt) & Hleaves & Hfwd & Hsc)
    Hnode Hel Hkid Hfmt.
  split; [|split; [|split; [|split]]].
  - rewrite <- Hold. unfold attach.
    rewrite take_app_le by (rewrite length_alter; lia).
    apply list_eq. intros j. rewrite !lookup_take.
    destruct (decide (j < root)%nat); [|done].
    rewrite list_lookup_alter_ne by lia. done.
  - destruct (decide (root = node)) as [<-|Hne].
    + exists (append_child (List.length h) rn).
      by rewrite (attach_lookup_node h root kid rn Hrn).
    + exists rn. rewrite attach_lookup_ne; [done | done | lia].
  - intros i n Hi Hn Hch.
    destruct (attach_lookup_inv _ _ _ _ _ Hn)
      as [[-> ->] | [[Hne Hold'] | [-> (pn & Hpn & ->)]]].
    + done.
    + apply eligible_attach. by apply (Hleaves i n).
    + by apply eligible_attach.
  - intros i n c Hi Hn Hc. rewrite attach_length.
    destruct (attach_lookup_inv _ _ _ _ _ Hn)
      as [[-> ->] | [[Hne Hold'] | [-> (pn & Hpn & ->)]]].
    + rewrite Hkid in Hc. by apply elem_of_nil in Hc.
    + destruct (Hfwd i n c Hi Hold' Hc). lia.
    + simpl in Hc. apply elem_of_app in Hc as [Hc | ->%list_elem_of_singleton].
      * destruct (Hfwd node pn c Hi Hpn Hc). lia.
      * lia.
  - intros i n Hi Hn.
    destruct (attach_lookup_inv _ _ _ _ _ Hn)
      as [[-> ->] | [[Hne Hold'] | [-> (pn & Hpn & ->)]]].
    + done.
    + by apply (Hsc i n).
    + simpl. by apply (Hsc node pn).
Qed.

Lemma wp_and {A} (m : M world A) (P Q : A → world → Prop) (w : world) :
  wp m P w → wp m Q w → wp m (λ a w', P a w' ∧ Q a w') w.
Proof. unfold wp. by destruct (m w) as [[[a|e] w1]|]. Qed.

Lemma attach_inj (h : heap) (node : nat) (k1 k2 : ThoughtNode) :
  attach h node k1 = attach h node k2 → k1 = k2.
Proof. unfold attach. intros H. by apply app_inj_tail in H as [_ ->]. Qed.

(** A child that was printed has a score that is a number. *)
Lemma expand_thought_score (node : nat) (item : json) (nq : list nat)
    (w : world) (pn : ThoughtNode) :
  links_ok root (nodes w) → (root <= node)%nat → nodes w !! node = Some pn →
  wp (expand_thought llm json_loads problem node item nq)
     (λ nq' w',
        ∃ kid, nodes w' = attach (nodes w) node kid
               ∧ format_1f (evaluation_score kid) = Ok tt) w.
Proof.
  intros Hl Hroot Hpn. pose proof (lookup_lt_Some _ _ _ Hpn) as Hlt.
  set (h := nodes w) in *.
  set (kid0 := set_depth (depth pn + 1) (set_parent (Some node) (ThoughtNode_new item))).
  unfold expand_thought.
  apply wp_bind, wp_alloc. apply wp_bind, wp_update_heap.
  cbn [nodes with_nodes]. fold h.
  rewrite (add_child_fresh h node _ pn Hpn). fold kid0.
  change (alter (append_child (List.length h)) node h ++ [kid0])
    with (attach h node kid0).
  apply wp_bind, wp_node_path.
  { cbn [nodes with_nodes]. rewrite attach_length.
    apply (links_ok_path root).
    - apply links_ok_attach; [done | lia | done].
    - lia.
    - lia.
    - rewrite attach_length. lia. }
  intros new_path.
  apply wp_bind. eapply wp_mono; [apply evaluate_thought_frame|].
  intros evaluation w1 [Hn1 Hv1]. cbn [nodes levels with_nodes] in Hn1, Hv1.
  apply wp_bind, wp_lift. intros overall _.
  apply wp_bind, wp_update_heap.
  rewrite Hn1, alter_attach_new.
  apply wp_bind. eapply wp_mono; [apply is_terminal_check_frame|].
  intros terminal w2 [Hn2 Hv2]. cbn [nodes levels with_nodes] in Hn2, Hv2.
  apply wp_bind, wp_update_heap.
  rewrite Hn2, alter_attach_new.
  apply wp_bind, wp_lift. intros [] Hfmt.
  set (kid := set_is_terminal terminal (set_evaluation_score overall kid0)).
  assert (Hbase : ∃ k, nodes (with_nodes (attach h node kid) w2) = attach h node k
                       ∧ format_1f (evaluation_score k) = Ok tt).
  { by exists kid. }
  destruct (truthy terminal) eqn:Ht.
  - by apply wp_ret.
  - apply wp_bind, wp_lift. intros good Hgood.
    by destruct good; apply wp_ret.
Qed.

(** One pass of [for thought_content in thoughts], with what the
    invariants of the walk need of it. *)
Lemma expand_thought_inv (lvl : Z) (node : nat) (rest nq : list nat) (r : nat)
    (lv old : list (list nat)) (item : json) (w : world) :
  thoughts_inv self root lvl node rest nq (S r) lv old w →
  wp (expand_thought llm json_loads problem node item nq)
     (λ nq' w',
        thoughts_inv self root lvl node rest nq' r lv old w'
        ∧ ∃ kid, nodes w' = attach (nodes w) node kid ∧ children kid = []
                 ∧ format_1f (evaluation_score kid) = Ok tt) w.
Proof.
  intros Hinv.
  destruct Hinv as (Hl & Hb & Hroot & (pn & Hpn & Hd & Hroom) & Hlvl
                    & Hrest & Hnotin & Hnq & Hcar & Hlv & Hold).
  pose proof (lookup_lt_Some _ _ _ Hpn) as Hlt.
  eapply wp_mono;
    [apply wp_and;
       [by apply (expand_thought_wp llm json_loads root)
       |by apply (expand_thought_score node item nq w pn)]|].
  intros nq' w' [(kid & Hn' & Hkp & Hkd & Hkc & Hlv' & Hq') (kid2 & Hn2 & Hfmt)].
  rewrite Hn' in Hn2. apply attach_inj in Hn2 as <-.
  assert (Hnq_notin : node ∉ nq).
  { destruct Hnq as [_ Hq]. intros Hin.
    destruct (Hq node Hin) as (_ & n & Hn & _ & Hdn).
    rewrite Hpn in Hn. injection Hn as <-. lia. }
  split; [|by exists kid].
  unfold thoughts_inv. rewrite Hn'.
  split; [|split; [|split; [|split; [|split]]]].
  + apply links_ok_attach; [done | lia | done].
  + eapply bounds_ok_attach; eauto; lia.
  + done.
  + exists (append_child (List.length (nodes w)) pn).
    split; [by apply attach_lookup_node|]. split; [done|].
    simpl. rewrite length_app. simpl. lia.
  + done.
  + split; [by apply queue_ok_attach|]. split; [done|].
    assert (Hnq' : queue_ok root (attach (nodes w) node kid) (lvl + 1) nq'
                   ∧ carried_ok (attach (nodes w) node kid) nq').
    { destruct Hq' as [-> | (-> & Ht & Hs)].
      - split; [by apply queue_ok_attach | by apply carried_ok_attach].
      - split; [apply queue_ok_snoc; [done | done | lia | lia | done]|].
        intros i [Hi | ->%list_elem_of_singleton]%elem_of_app.
        + by apply (carried_ok_attach _ _ _ nq).
        + exists kid. by rewrite attach_lookup_new. }
    destruct Hnq' as [Hq1 Hq2]. split; [done|]. split; [done|].
    split; [congruence|].
    eapply Forall_impl; [exact Hold|]. intros q. apply carried_ok_attach.
Qed.

Lemma for_thoughts_growth (before : heap) (lvl : Z) (node : nat)
    (rest : list nat) (lv old : list (list nat)) (items : list json) :
  ∀ nq w,
    thoughts_inv self root lvl node rest nq (List.length items) lv old w →
    growth_ok root before (nodes w) →
    Forall (eligible root (nodes w)) (node :: rest) →
    wp (for_thoughts llm json_loads problem node items nq)
       (λ nq' w',
          thoughts_inv self root lvl node rest nq' 0 lv old w'
          ∧ growth_ok root before (nodes w')
          ∧ Forall (eligible root (nodes w')) (node :: rest)) w.
Proof.
  induction items as [|item items IH]; intros nq w Hinv Hg Hel.
  - by apply wp_ret.
  - cbn [for_thoughts]. apply wp_bind.
    eapply wp_mono; [by apply expand_thought_inv|].
    intros nq' w' (Hinv' & kid & Hn' & Hkid & Hfmt).
    destruct Hinv as (_ & _ & Hroot & (pn & Hpn & _) & _).
    pose proof (lookup_lt_Some _ _ _ Hpn) as Hlt.
    apply IH; [done | |]; rewrite Hn'.
    + apply growth_ok_attach;
        [done | lia | by apply Forall_inv in Hel | done | done].
    + eapply Forall_impl; [exact Hel|]. intros i. apply eligible_attach.
Qed.

Lemma expand_node_growth (before : heap) (lvl : Z) (node : nat)
    (rest nq : list nat) (lv old : list (list nat)) (w : world) :
  queue_inv self root lvl (node :: rest) nq lv old w →
  growth_ok root before (nodes w) →
  Forall (eligible root (nodes w)) (node :: rest) →
  wp (expand_node llm json_loads self problem node nq)
     (λ nq' w',
        queue_inv self root lvl rest nq' lv old w'
        ∧ growth_ok root before (nodes w')
        ∧ Forall (eligible root (nodes w')) rest) w.
Proof.
  intros Hinv Hg Hel.
  destruct Hinv as (Hl & Hb & Hlvl & Hqq & Hnq & Hcar & Hlv & Hold).
  destruct Hqq as [Hnd Hq].
  destruct (Hq node ltac:(by apply elem_of_cons; left))
    as (Hroot & pn & Hpn & Hpc & Hpd).
  pose proof (lookup_lt_Some _ _ _ Hpn) as Hlt.
  apply NoDup_cons in Hnd as [Hnotin Hnd].
  unfold expand_node. apply wp_bind, wp_node_path.
  { apply (links_ok_path root); [done | lia | lia | done]. }
  intros current_path. apply wp_bind.
  eapply wp_mono; [by apply generate_thoughts_frame|].
  intros thoughts w1 [[Hn1 Hv1] Hlen].
  apply wp_bind, wp_lift. intros items Hitems.
  eapply wp_mono.
  - apply (for_thoughts_growth before lvl node rest lv old).
    + unfold thoughts_inv. rewrite Hn1.
      split; [done|]. split; [done|]. split; [done|]. split.
      { exists pn. rewrite Hpc. simpl. split; [done|]. split; [done|].
        specialize (Hlen items Hitems). lia. }
      split; [done|]. split.
      { split; [done|]. intros i Hi. apply Hq, elem_of_cons. by right. }
      split; [exact Hnotin|]. split; [exact Hnq|]. split; [exact Hcar|].
      split; [congruence | exact Hold].
    + by rewrite Hn1.
    + by rewrite Hn1.
  - intros nq' w' (Hinv' & Hg' & Hel').
    destruct Hinv' as (Hl' & Hb' & _ & _ & _ & Hrest' & _ & Hnq' & Hcar' & Hlv' & Hold').
    split; [|split; [exact Hg' | by apply Forall_inv_tail in Hel']].
    split; [exact Hl'|]. split; [exact Hb'|]. split; [exact Hlvl|].
    split; [exact Hrest'|]. split; [exact Hnq'|]. split; [exact Hcar'|].
    split; [exact Hlv' | exact Hold'].
Qed.

Lemma for_queue_growth (before : heap) (lvl : Z) (lv old : list (list nat))
    (queue : list nat) :
  ∀ nq w,
    queue_inv self root lvl queue nq lv old w →
    growth_ok root before (nodes w) →
    Forall (eligible root (nodes w)) queue →
    wp (for_queue llm json_loads self problem queue nq)
       (λ nq' w',
          queue_inv self root lvl [] nq' lv old w'
          ∧ growth_ok root before (nodes w')) w.
Proof.
  induction queue as [|node rest IH]; intros nq w Hinv Hg Hel.
  - by apply wp_ret.
  - cbn [for_queue]. apply wp_bind.
    eapply wp_mono; [by apply expand_node_growth|].
    intros nq' w' (Hinv' & Hg' & Hel'). by apply IH.
Qed.

Lemma carried_eligible (h : heap) (q : list nat) :
  carried_ok h q → Forall (eligible root h) q.
Proof.
  intros Hq. apply Forall_forall. intros i Hi. right. by apply Hq.
Qed.

Lemma level_loop_growth (before : heap) (base : list (list nat)) (n : nat) :
  ∀ queue lvl logged w,
    links_ok root (nodes w) → bounds_ok self root (nodes w) →
    (0 <= lvl <= max_depth self)%Z →
    queue_ok root (nodes w) lvl queue →
    levels w = base ++ logged → Z.of_nat (List.length logged) = lvl →
    Forall (carried_ok (nodes w)) (tail logged) →
    (logged = [] ∨ carried_ok (nodes w) queue) →
    (max_depth self - lvl <= Z.of_nat n)%Z →
    growth_ok root before (nodes w) →
    Forall (eligible root (nodes w)) queue →
    wp (level_loop llm json_loads n self problem queue lvl)
       (λ _ w', growth_ok root before (nodes w')) w.
Proof.
  induction n as [|n IH];
    intros queue lvl logged w Hl Hb Hlvl Hq Hlv Hlen Hold Hcar Hn Hg Hel.
  - destruct queue; [by apply wp_ret|]. simpl.
    destruct (lvl <? max_depth self)%Z eqn:E; [lia | by apply wp_ret].
  - destruct queue as [|node rest]; [by apply wp_ret|].
    cbn [level_loop].
    destruct (lvl <? max_depth self)%Z eqn:E; [|by apply wp_ret].
    apply Z.ltb_lt in E.
    apply wp_bind, wp_log_level. apply wp_bind.
    set (queue := node :: rest) in *.
    assert (Hold' : Forall (carried_ok (nodes w)) (tail (logged ++ [queue]))).
    { destruct logged as [|q0 logged]; [by constructor|].
      destruct Hcar as [|Hcar]; [done|]. simpl in *.
      apply Forall_app. split; [done|]. by constructor. }
    eapply wp_mono.
    + apply (for_queue_growth before lvl (base ++ logged ++ [queue])
               (tail (logged ++ [queue])) queue []); cbn [nodes levels]; [|done|done].
      split; [done|]. split; [done|]. split; [lia|]. split; [done|].
      split; [split; [constructor | set_solver]|].
      split; [intros i Hi; by apply elem_of_nil in Hi|].
      split; [by rewrite Hlv, <- app_assoc | done].
    + intros nq' w' ((Hl' & Hb' & _ & _ & Hnq' & Hcar' & Hlv' & Holdq) & Hg').
      apply (IH nq' (lvl + 1)%Z (logged ++ [queue])); try done; try lia.
      * rewrite length_app. simpl. lia.
      * by right.
      * by apply carried_eligible.
Qed.

Lemma build_tree_growth (w : world) :
  root = List.length (nodes w) → (0 <= max_depth self)%Z →
  wp (build_tree llm json_loads (Z.to_nat (max_depth self)) self problem)
     (λ r w', r = root ∧ growth_ok root (nodes w) (nodes w')) w.
Proof.
  intros Hroot Hdepth. unfold build_tree.
  apply wp_bind, wp_alloc. rewrite <- Hroot. apply wp_bind.
  set (r0 := ThoughtNode_new (JStr "Start solving the problem")).
  assert (Hlook : ∀ i n, (root <= i)%nat → (nodes w ++ [r0]) !! i = Some n →
                         i = root ∧ n = r0).
  { intros i n Hi Hn. pose proof (lookup_lt_Some _ _ _ Hn) as Hlt.
    rewrite length_app in Hlt. simpl in Hlt.
    assert (i = root) as -> by lia. split; [done|].
    rewrite lookup_app_r, Hroot, Nat.sub_diag in Hn by lia.
    by injection Hn as <-. }
  eapply wp_mono.
  - apply (level_loop_growth (nodes w) (levels w) (Z.to_nat (max_depth self))
             [root] 0%Z []);
      cbn [nodes levels with_nodes].
    + intros i n p Hi Hn Hp. destruct (Hlook i n Hi Hn) as [-> ->]. done.
    + intros i n Hi Hn. destruct (Hlook i n Hi Hn) as [-> ->]. simpl.
      split; [lia|]. split; [lia|]. intros c Hc. by apply elem_of_nil in Hc.
    + lia.
    + split; [apply NoDup_singleton|].
      intros i ->%list_elem_of_singleton. split; [done|]. exists r0.
      split; [|done]. by rewrite lookup_app_r, Hroot, Nat.sub_diag by lia.
    + by rewrite app_nil_r.
    + done.
    + constructor.
    + by left.
    + lia.
    + split; [|split; [|split; [|split]]].
      * rewrite Hroot. by rewrite take_app_length.
      * exists r0. split; [|done].
        by rewrite lookup_app_r, Hroot, Nat.sub_diag by lia.
      * intros i n Hi Hn Hch. destruct (Hlook i n Hi Hn) as [-> ->]. by left.
      * intros i n c Hi Hn Hc. destruct (Hlook i n Hi Hn) as [-> ->].
        by apply elem_of_nil in Hc.
      * intros i n Hi Hn. destruct (Hlook i n ltac:(lia) Hn) as [-> ->]. lia.
    + constructor; [by left | constructor].
  - intros u w' Hg. by apply wp_ret.
Qed.

End GrowthFacts.

(** X20.  Which nodes [build_tree] expands, and what it leaves alone.
    For non-negative [max_depth] and [branching_factor], when the call
    returns: the root is a new node, without parent, of depth 0 and with
    the fixed content; the nodes that were in the heap before the call
    (earlier trees) are unchanged; and among the nodes the call created
    only the root and the nodes that are not terminal and score at least
    6.0 have children, so that a node that is terminal, or whose score is
    below 6.0, is a leaf. *)
Theorem build_tree_expands_eligible
    (llm : nat → TreeOfThoughts.prompt → result string)
    (json_loads : string → result json)
    (self : TreeOfThoughts.TreeOfThoughts) (problem : string)
    (w : TreeOfThoughts.world) :
  (0 <= TreeOfThoughts.max_depth self)%Z →
  (0 <= TreeOfThoughts.branching_factor self)%Z →
  ∃ out,
    TreeOfThoughts.build_tree llm json_loads
      (Z.to_nat (TreeOfThoughts.max_depth self)) self problem w = Some out
    ∧ ∀ root w', out = (Ok root, w') →
        root = List.length (TreeOfThoughts.nodes w)
        ∧ take root (TreeOfThoughts.nodes w') = TreeOfThoughts.nodes w
        ∧ (∃ n, TreeOfThoughts.nodes w' !! root = Some n
                ∧ TreeOfThoughts.parent n = None
                ∧ TreeOfThoughts.depth n = 0%Z
                ∧ TreeOfThoughts.content n = JStr "Start solving the problem")
        ∧ ∀ i n,
            (root < i)%nat → TreeOfThoughts.nodes w' !! i = Some n →
            truthy (TreeOfThoughts.is_terminal n) = true
            ∨ ge_6 (TreeOfThoughts.evaluation_score n) ≠ Ok true →
            TreeOfThoughts.children n = [].
Proof.
  intros Hdepth Hbf.
  destruct (wp_total _ _ _
              (build_tree_growth llm json_loads self problem
                 (List.length (TreeOfThoughts.nodes w)) Hbf w eq_refl Hdepth))
    as (out & Hout & Hpost).
  exists out. split; [exact Hout|]. intros root w' ->.
  destruct (Hpost root w' eq_refl)
    as (-> & Hold & (rn & Hrn & Hrp & Hrd & Hrc & _) & Hleaves & _).
  split; [reflexivity|]. split; [exact Hold|]. split; [by exists rn|].
  intros i n Hi Hn Hbad.
  destruct (TreeOfThoughts.children n) as [|c cs] eqn:Hch; [reflexivity|].
  destruct (Hleaves i n ltac:(lia) Hn ltac:(by rewrite Hch))
    as [-> | (n' & Hn' & Ht & Hs)]; [lia|].
  rewrite Hn in Hn'. injection Hn' as <-.
  destruct Hbad as [Hbad | Hbad]; [congruence | contradiction].
Qed.

Lemma build_tree_expands_eligible_witness :
  ∃ out,
    TreeOfThoughts.build_tree prose_llm no_json
      (Z.to_nat (TreeOfThoughts.max_depth TreeOfThoughts.TreeOfThoughts_default))
      TreeOfThoughts.TreeOfThoughts_default "problem" empty_world = Some out
    ∧ ∀ root w', out = (Ok root, w') →
        root = List.length (TreeOfThoughts.nodes empty_world)
        ∧ take root (TreeOfThoughts.nodes w') = TreeOfThoughts.nodes empty_world
        ∧ (∃ n, TreeOfThoughts.nodes w' !! root = Some n
                ∧ TreeOfThoughts.parent n = None
                ∧ TreeOfThoughts.depth n = 0%Z
                ∧ TreeOfThoughts.content n = JStr "Start solving the problem")
        ∧ ∀ i n,
            (root < i)%nat → TreeOfThoughts.nodes w' !! i = Some n →
            truthy (TreeOfThoughts.is_terminal n) = true
            ∨ ge_6 (TreeOfThoughts.evaluation_score n) ≠ Ok true →
            TreeOfThoughts.children n = [].
Proof.
  apply (build_tree_expands_eligible prose_llm no_json
           TreeOfThoughts.TreeOfThoughts_default "problem" empty_world).
  - simpl. lia.
  - simpl. lia.
Defined.

(* ===================================================================== *)
(** * Further properties: [find_best_solution]                            *)
(* ===================================================================== *)

Section SearchFacts.
Import TreeOfThoughts.
Variable llm : nat → prompt → result string.
Variable json_loads : string → result json.
Variable finalize : nat → string → string → result string.
Variable self : TreeOfThoughts.
Variable problem : string.
Variable root : nat.

Lemma in_tree_trans (h : heap) (i c j : nat) :
  in_tree h i c → in_tree h c j → in_tree h i j.
Proof.
  intros Hic Hcj. induction Hcj as [|p c' pn _ IH Hpn Hc']; [done|].
  by eapply in_tree_child.
Qed.

Lemma in_tree_step (h : heap) (i j : nat) (nd : ThoughtNode) :
  h !! i = Some nd →
  in_tree h i j ↔ j = i ∨ ∃ c, c ∈ children nd ∧ in_tree h c j.
Proof.
  intros Hnd. split.
  - induction 1 as [|p c pn _ IH Hpn Hc]; [by left|]. right.
    destruct IH as [-> | (c0 & Hc0 & Hp)].
    + rewrite Hnd in Hpn. injection Hpn as <-.
      exists c. split; [done | constructor].
    + exists c0. split; [done|]. by eapply in_tree_child.
  - intros [-> | (c & Hc & Hj)]; [constructor|].
    eapply in_tree_trans; [|exact Hj].
    eapply in_tree_child; [constructor | exact Hnd | exact Hc].
Qed.

Lemma in_tree_forward (h : heap) (i j : nat) :
  forward_ok root h → (root <= i)%nat → in_tree h i j → (i <= j)%nat.
Proof.
  intros Hf Hi. induction 1 as [|p c pn _ IH Hpn Hc]; [lia|].
  destruct (Hf p pn c ltac:(lia) Hpn Hc). lia.
Qed.

Lemma find_terminal_nodes_spec (h : heap) :
  forward_ok root h →
  ∀ fuel i, (root <= i < List.length h)%nat → (List.length h - i <= fuel)%nat →
    ∃ l, _find_terminal_nodes fuel h i = Some l
         ∧ ∀ j, j ∈ l ↔ in_tree h i j ∧ terminal h j.
Proof.
  intros Hf. induction fuel as [|fuel IH]; intros i Hi Hfuel; [lia|].
  destruct (lookup_lt_is_Some_2 h i ltac:(lia)) as [nd Hnd].
  cbn [_find_terminal_nodes]. rewrite Hnd. cbv zeta.
  assert (Hkids : ∀ cs, (∀ c, c ∈ cs → c ∈ children nd) →
            ∃ more, mapM (_find_terminal_nodes fuel h) cs = Some more
                    ∧ ∀ j, j ∈ concat more
                           ↔ ∃ c, c ∈ cs ∧ in_tree h c j ∧ terminal h j).
  { induction cs as [|c cs IHcs]; intros Hsub.
    - exists []. split; [reflexivity|]. intros j. split.
      + intros Hj. by apply elem_of_nil in Hj.
      + intros (c & Hc & _). by apply elem_of_nil in Hc.
    - destruct (Hf i nd c ltac:(lia) Hnd (Hsub c ltac:(by left))) as [Hlo Hhi].
      destruct (IH c ltac:(lia) ltac:(lia)) as (l & Hl & Hspec).
      destruct IHcs as (more & Hmore & Hmspec).
      { intros c' Hc'. apply Hsub. by right. }
      exists (l :: more). split.
      + cbn [mapM]. rewrite Hl. cbn [mbind option_bind]. rewrite Hmore.
        reflexivity.
      + intros j. cbn [concat]. rewrite elem_of_app, Hspec, Hmspec. split.
        * intros [[Hin Ht] | (c' & Hc' & Hin & Ht)].
          -- exists c. split; [by left|done].
          -- exists c'. split; [by right|done].
        * intros (c' & [-> | Hc']%elem_of_cons & Hin & Ht).
          -- by left.
          -- right. by exists c'. }
  destruct (Hkids (children nd) ltac:(done)) as (more & -> & Hmspec).
  cbn [mbind option_bind]. eexists. split; [reflexivity|].
  intros j. rewrite elem_of_app, Hmspec, (in_tree_step h i j nd Hnd). split.
  - intros [Hj | (c & Hc & Hin & Ht)].
    + destruct (truthy (is_terminal nd)) eqn:E.
      * apply list_elem_of_singleton in Hj as ->. split; [by left|].
        by exists nd.
      * by apply elem_of_nil in Hj.
    + split; [|done]. right. by exists c.
  - intros [[-> | (c & Hc & Hin)] Ht].
    + left. destruct Ht as (n & Hn & Ht). rewrite Hnd in Hn.
      injection Hn as <-. rewrite Ht. by apply list_elem_of_singleton.
    + right. by exists c.
Qed.

Lemma float_gt_irrefl (x : pyfloat) : float_gt x x = false.
Proof.
  destruct x as [q| | |]; try reflexivity. simpl.
  apply negb_false_iff, Qle_bool_iff, Qle_refl.
Qed.

Lemma float_gt_chain (t c x : pyfloat) :
  float_gt t c = false → float_gt x c = true → float_gt t x = false.
Proof.
  destruct t as [qt| | |], c as [qc| | |], x as [qx| | |]; simpl;
    try discriminate; try reflexivity.
  intros H1 H2. apply negb_false_iff in H1. apply negb_true_iff in H2.
  apply negb_false_iff. apply Qle_bool_iff in H1. apply Qle_bool_iff.
  assert (Hlt : (qc < qx)%Q).
  { apply Qnot_le_lt. intros H%Qle_bool_iff. congruence. }
  apply Qlt_le_weak. eapply Qle_lt_trans; eauto.
Qed.

Lemma max_by_score_from (h : heap) (rest : list nat) :
  ∀ cur seen best,
    cur ∈ seen →
    (∀ t, t ∈ seen → score_gt (score_of h t) (score_of h cur) ≠ Ok true) →
    max_by_score h cur rest = Ok best →
    best ∈ seen ++ rest
    ∧ ∀ t, t ∈ seen ++ rest →
           score_gt (score_of h t) (score_of h best) ≠ Ok true.
Proof.
  induction rest as [|x rest IH]; intros cur seen best Hcur Hseen Hmax.
  - injection Hmax as <-. rewrite app_nil_r. by split.
  - cbn [max_by_score] in Hmax.
    destruct (score_gt (score_of h x) (score_of h cur)) as [[|]|e] eqn:Hgt;
      cbn [mbind result_bind] in Hmax; [| |done].
    + destruct (IH x (seen ++ [x]) best) as [Hin Hall].
      * apply elem_of_app. right. by apply list_elem_of_singleton.
      * intros t [Ht | ->%list_elem_of_singleton]%elem_of_app.
        -- specialize (Hseen t Ht). unfold score_gt in *.
           destruct (to_float (score_of h t)) as [ft|]; [|done].
           destruct (to_float (score_of h cur)) as [fc|];
             [|by destruct (to_float (score_of h x))].
           destruct (to_float (score_of h x)) as [fx|]; [|done].
           injection Hgt as Hgt.
           rewrite (float_gt_chain ft fc fx); [done| |done].
           destruct (float_gt ft fc); [by contradict Hseen|done].
        -- unfold score_gt in *.
           destruct (to_float (score_of h x)) as [fx|]; [|done].
           by rewrite float_gt_irrefl.
      * exact Hmax.
      * rewrite <- app_assoc in Hin, Hall. by split.
    + destruct (IH cur (seen ++ [x]) best) as [Hin Hall].
      * apply elem_of_app. by left.
      * intros t [Ht | ->%list_elem_of_singleton]%elem_of_app; [by apply Hseen|].
        by rewrite Hgt.
      * exact Hmax.
      * rewrite <- app_assoc in Hin, Hall. by split.
Qed.

Lemma max_by_score_spec (h : heap) (first : nat) (rest : list nat) (best : nat) :
  max_by_score h first rest = Ok best →
  best ∈ first :: rest
  ∧ ∀ t, t ∈ first :: rest →
         score_gt (score_of h t) (score_of h best) ≠ Ok true.
Proof.
  intros H. apply (max_by_score_from h rest first [first] best); [by left| |done].
  intros t ->%list_elem_of_singleton. unfold score_gt.
  destruct (to_float (score_of h first)) as [f|]; [|done].
  by rewrite float_gt_irrefl.
Qed.

Lemma format_1f_number (v : json) :
  format_1f v = Ok tt → ∃ f, to_float v = Some f.
Proof. destruct v; try discriminate; intros _; by eexists. Qed.

Lemma wp_node_path_eq (i : nat) (Q : list json → world → Prop) (w : world) :
  is_Some (get_path (List.length (nodes w)) (nodes w) i) →
  (∀ path, get_path (List.length (nodes w)) (nodes w) i = Some path → Q path w) →
  wp (node_path i) Q w.
Proof.
  intros [path Hpath] HQ. unfold wp, node_path. rewrite Hpath. by apply HQ.
Qed.

Lemma find_best_solution_wp (w : world) :
  root = List.length (nodes w) →
  (0 <= max_depth self)%Z → (0 <= branching_factor self)%Z →
  wp (find_best_solution llm json_loads finalize (Z.to_nat (max_depth self))
        self problem)
     (found finalize problem root w) w.
Proof.
  intros Hroot Hdepth Hbf. unfold find_best_solution.
  apply wp_bind. eapply wp_mono.
  { apply wp_and.
    - by apply (build_tree_wp llm json_loads self problem root Hbf w).
    - by apply (build_tree_growth llm json_loads self problem root Hbf w). }
  intros r w1 [[-> (Hl & Hb & _)] [_ Hg]].
  pose proof Hg as (Hold & (rn & Hrn & Hrp & Hrd & Hrc & Hrt) & Hleaves & Hfwd & Hsc).
  pose proof (lookup_lt_Some _ _ _ Hrn) as Hrlt.
  destruct (find_terminal_nodes_spec (nodes w1) Hfwd (List.length (nodes w1)) root
              ltac:(lia) ltac:(lia)) as (terminals & Hfind & Hspec).
  apply wp_bind. unfold wp at 1, find_terminals. rewrite Hfind.
  destruct terminals as [|first rest].
  - apply wp_ret. split; [exact Hg|]. left.
    repeat (split; [reflexivity|]).
    intros j Hj Ht. by apply (elem_of_nil j), Hspec.
  - apply wp_bind. unfold wp at 1, best_of.
    destruct (max_by_score (nodes w1) first rest) as [best|e] eqn:Hmax; [|done].
    destruct (max_by_score_spec _ _ _ _ Hmax) as [Hbest Hall].
    apply Hspec in Hbest as [Htree (n & Hn & Hterm)].
    pose proof (in_tree_forward (nodes w1) root best Hfwd ltac:(lia) Htree) as Hle.
    pose proof (lookup_lt_Some _ _ _ Hn) as Hblt.
    apply wp_bind, wp_node_path_eq.
    { apply (links_ok_path root); [done | lia | lia | done]. }
    intros path Hpath.
    apply wp_bind. unfold _generate_final_solution.
    apply wp_bind, wp_lift. intros text Htext.
    unfold wp at 1, final_generate.
    destruct (finalize (List.length (prompts w1)) problem text) as [answer|e] eqn:Hans;
      [|done].
    apply wp_bind. unfold wp at 1, read_score, score_of. rewrite Hn.
    apply wp_bind, wp_lift. intros [] Hfmt.
    apply wp_ret. split; [exact Hg|]. right.
    exists best, n, text. cbn [solution best_path score explanation].
    repeat (split; [done|]).
    intros t tn Ht Htn Htt.
    assert (Hin : t ∈ first :: rest).
    { apply Hspec. split; [done|]. by exists tn. }
    specialize (Hall t Hin). unfold score_of in Hall. rewrite Htn, Hn in Hall.
    assert (Hne : t ≠ root).
    { intros ->. rewrite Hrn in Htn. injection Htn as <-. congruence. }
    pose proof (in_tree_forward (nodes w1) root t Hfwd ltac:(lia) Ht) as Hlt.
    destruct (format_1f_number _ (Hsc t tn ltac:(lia) Htn)) as [ft Hft].
    destruct (format_1f_number _ Hfmt) as [fb Hfb].
    unfold score_gt in *. rewrite Hft, Hfb in *.
    destruct (float_gt ft fb); [by contradict Hall | done].
Qed.

End SearchFacts.

(** X21.  [find_best_solution], for non-negative [max_depth] and
    [branching_factor].  The search of the tree for terminal nodes ends,
    and so does the walk of [get_path].  When the call returns, either no
    node of the tree is terminal, and the result is the fixed "No
    complete solutions found" with an empty path and score 0.0; or the
    result is built from a terminal node of the tree, a leaf: its score,
    its path from the root, and the LLM's answer to the prompt written
    from that path; and no terminal node of the tree has a greater
    score. *)
Theorem find_best_solution_found
    (llm : nat → TreeOfThoughts.prompt → result string)
    (json_loads : string → result json)
    (finalize : nat → string → string → result string)
    (self : TreeOfThoughts.TreeOfThoughts) (problem : string)
    (w : TreeOfThoughts.world) :
  (0 <= TreeOfThoughts.max_depth self)%Z →
  (0 <= TreeOfThoughts.branching_factor self)%Z →
  let root := List.length (TreeOfThoughts.nodes w) in
  ∃ out,
    TreeOfThoughts.find_best_solution llm json_loads finalize
      (Z.to_nat (TreeOfThoughts.max_depth self)) self problem w = Some out
    ∧ ∀ sol w', out = (Ok sol, w') →
        (TreeOfThoughts.solution sol = "No complete solutions found"
         ∧ TreeOfThoughts.best_path sol = []
         ∧ TreeOfThoughts.score sol = JFloat (Finite 0)
         ∧ ∀ j n, TreeOfThoughts.in_tree (TreeOfThoughts.nodes w') root j →
                  TreeOfThoughts.nodes w' !! j = Some n →
                  truthy (TreeOfThoughts.is_terminal n) = false)
        ∨ ∃ best n text,
            TreeOfThoughts.in_tree (TreeOfThoughts.nodes w') root best
            ∧ TreeOfThoughts.nodes w' !! best = Some n
            ∧ truthy (TreeOfThoughts.is_terminal n) = true
            ∧ TreeOfThoughts.children n = []
            ∧ TreeOfThoughts.score sol = TreeOfThoughts.evaluation_score n
            ∧ TreeOfThoughts.get_path (List.length (TreeOfThoughts.nodes w'))
                (TreeOfThoughts.nodes w') best
              = Some (TreeOfThoughts.best_path sol)
            ∧ join " -> " (TreeOfThoughts.best_path sol) = Ok text
            ∧ finalize (List.length (TreeOfThoughts.prompts w')) problem text
              = Ok (TreeOfThoughts.solution sol)
            ∧ ∀ t tn,
                TreeOfThoughts.in_tree (TreeOfThoughts.nodes w') root t →
                TreeOfThoughts.nodes w' !! t = Some tn →
                truthy (TreeOfThoughts.is_terminal tn) = true →
                TreeOfThoughts.score_gt (TreeOfThoughts.evaluation_score tn)
                  (TreeOfThoughts.evaluation_score n) = Ok false.
Proof.
  intros Hdepth Hbf root.
  destruct (wp_total _ _ _
              (find_best_solution_wp llm json_loads finalize self problem root w
                 eq_refl Hdepth Hbf))
    as (out & Hout & Hpost).
  exists out. split; [exact Hout|]. intros sol w' ->.
  destruct (Hpost sol w' eq_refl) as [Hg [Hnone | Hbest]].
  - left. destruct Hnone as (H1 & H2 & H3 & _ & Hno).
    split; [exact H1|]. split; [exact H2|]. split; [exact H3|].
    intros j n Hj Hn. destruct (truthy (TreeOfThoughts.is_terminal n)) eqn:E; [|done].
    exfalso. apply (Hno j Hj). by exists n.
  - right. destruct Hbest as (best & n & text & Htree & Hn & Ht & Hs & _ & Hp & Hj & Hf & Hmax).
    exists best, n, text.
    split; [exact Htree|]. split; [exact Hn|]. split; [exact Ht|]. split.
    { destruct Hg as (_ & (rn & Hrn & _ & _ & _ & Hrt) & Hleaves & Hfwd & _).
      destruct (TreeOfThoughts.children n) as [|c cs] eqn:Hch; [reflexivity|].
      pose proof (in_tree_forward root _ root best Hfwd ltac:(lia) Htree) as Hle.
      destruct (Hleaves best n Hle Hn ltac:(by rewrite Hch))
        as [-> | (n' & Hn' & Ht' & _)].
      - rewrite Hrn in Hn. injection Hn as <-. congruence.
      - rewrite Hn in Hn'. injection Hn' as <-. congruence. }
    split; [exact Hs|]. split; [exact Hp|]. split; [exact Hj|].
    split; [exact Hf | exact Hmax].
Qed.

Lemma find_best_solution_found_witness :
  let root := List.length (TreeOfThoughts.nodes empty_world) in
  let finalize : nat → string → string → result string :=
    λ _ _ _, Ok "Do it." in
  ∃ out,
    TreeOfThoughts.find_best_solution prose_llm no_json finalize
      (Z.to_nat (TreeOfThoughts.max_depth TreeOfThoughts.TreeOfThoughts_default))
      TreeOfThoughts.TreeOfThoughts_default "problem" empty_world = Some out
    ∧ ∀ sol w', out = (Ok sol, w') →
        (TreeOfThoughts.solution sol = "No complete solutions found"
         ∧ TreeOfThoughts.best_path sol = []
         ∧ TreeOfThoughts.score sol = JFloat (Finite 0)
         ∧ ∀ j n, TreeOfThoughts.in_tree (TreeOfThoughts.nodes w') root j →
                  TreeOfThoughts.nodes w' !! j = Some n →
                  truthy (TreeOfThoughts.is_terminal n) = false)
        ∨ ∃ best n text,
            TreeOfThoughts.in_tree (TreeOfThoughts.nodes w') root best
            ∧ TreeOfThoughts.nodes w' !! best = Some n
            ∧ truthy (TreeOfThoughts.is_terminal n) = true
            ∧ TreeOfThoughts.children n = []
            ∧ TreeOfThoughts.score sol = TreeOfThoughts.evaluation_score n
            ∧ TreeOfThoughts.get_path (List.length (TreeOfThoughts.nodes w'))
                (TreeOfThoughts.nodes w') best
              = Some (TreeOfThoughts.best_path sol)
            ∧ join " -> " (TreeOfThoughts.best_path sol) = Ok text
            ∧ finalize (List.length (TreeOfThoughts.prompts w')) "problem" text
              = Ok (TreeOfThoughts.solution sol)
            ∧ ∀ t tn,
                TreeOfThoughts.in_tree (TreeOfThoughts.nodes w') root t →
                TreeOfThoughts.nodes w' !! t = Some tn →
                truthy (TreeOfThoughts.is_terminal tn) = true →
                TreeOfThoughts.score_gt (TreeOfThoughts.evaluation_score tn)
                  (TreeOfThoughts.evaluation_score n) = Ok false.
Proof.
  intros root finalize.
  apply (find_best_solution_found prose_llm no_json finalize
           TreeOfThoughts.TreeOfThoughts_default "problem" empty_world).
  - simpl. lia.
  - simpl. lia.
Defined.

(* ===================================================================== *)
(** * Further properties: what malformed LLM output does                  *)
(* ===================================================================== *)

Section PlanShapeFacts.
Import PEV.
Variable llm : nat → prompt → result string.
Variable json_loads : string → result json.
Variable run_tool : nat → string → json → json.
Variable str_of : json → string.
Variable synthesize : nat → string → list json → result string.

Lemma print_steps_ok (steps : list json) :
  is_ok (print_steps steps) = true → Forall (λ s, printable s = true) steps.
Proof.
  induction steps as [|step steps IH]; intros H; [constructor|].
  cbn [print_steps] in H. unfold printable.
  destruct (subscript step "step") as [a|e] eqn:E1; [|discriminate].
  cbn [mbind result_bind] in H.
  destruct (subscript step "tool") as [b|e] eqn:E2; [|discriminate].
  cbn [mbind result_bind] in H.
  constructor; [by rewrite E1, E2 | by apply IH].
Qed.

Lemma print_steps_strings (keys : list json) :
  (∀ k, k ∈ keys → ∃ s, k = JStr s) → keys ≠ [] →
  is_ok (print_steps keys) = false.
Proof.
  intros Hk Hne. destruct keys as [|k keys]; [done|].
  destruct (Hk k ltac:(by left)) as [s ->]. reflexivity.
Qed.

Lemma solve_malformed_plan (self : PEVAgent) (goal : string) (w w1 : world)
    (the_plan : json) :
  plan llm json_loads goal w = Some (Ok the_plan, w1) →
  ¬ ((∃ steps, the_plan = JArr steps ∧ Forall (λ s, printable s = true) steps)
     ∨ the_plan = JObj []) →
  ∃ e, solve llm json_loads run_tool str_of synthesize self goal w
       = Some (Raise e, w1).
Proof.
  intros Hplan Hbad. unfold solve, mbind at 1, M_bind, bind. rewrite Hplan.
  unfold mbind at 1, M_bind, bind, lift.
  destruct the_plan as [| | | |s|steps|fields]; try (by eexists).
  - destruct s as [|c s]; by eexists.
  - destruct (describe_plan (JArr steps)) as [[]|e] eqn:Hd; [|by eexists].
    exfalso. apply Hbad. left. exists steps. split; [done|].
    apply print_steps_ok. unfold describe_plan in Hd.
    cbn [iterate mbind result_bind] in Hd. by rewrite Hd.
  - destruct fields as [|[k v] fields]; [|by eexists].
    exfalso. apply Hbad. by right.
Qed.

End PlanShapeFacts.

(** X22.  [solve] does not check the plan it gets, it fails on it.
    Unless the plan is a list all of whose items have a "step" and a
    "tool" entry, or an empty dict, the call raises right after planning,
    while the plan is printed or copied: no step is executed, no tool is
    called and no further prompt is sent.  One malformed step anywhere in
    the list is enough, and so is a JSON object that wraps the list. *)
Theorem solve_rejects_malformed_plan
    (llm : nat → PEV.prompt → result string)
    (json_loads : string → result json)
    (run_tool : nat → string → json → json) (str_of : json → string)
    (synthesize : nat → string → list json → result string)
    (self : PEV.PEVAgent) (goal : string) (w w1 : PEV.world) (the_plan : json) :
  PEV.plan llm json_loads goal w = Some (Ok the_plan, w1) →
  ¬ ((∃ steps, the_plan = JArr steps
               ∧ Forall (λ s, PEV.printable s = true) steps)
     ∨ the_plan = JObj []) →
  ∃ e, PEV.solve llm json_loads run_tool str_of synthesize self goal w
       = Some (Raise e, w1).
Proof. apply solve_malformed_plan. Qed.

Lemma solve_rejects_malformed_plan_witness :
  let llm : nat → PEV.prompt → result string := λ _ _, Ok "wrapped" in
  let json_loads : string → result json :=
    λ _, Ok (JObj [("steps", JArr [search_step "apple ceo"])]) in
  ∃ e, PEV.solve llm json_loads (λ _ _ _, search_unavailable) (λ _, "")
         (λ _ _ _, Ok "answer") PEV.PEVAgent_init "apple ceo"
         {| PEV.prompts := []; PEV.tool_calls := [] |}
       = Some (Raise e, {| PEV.prompts := [PEV.PlanPrompt "apple ceo"];
                           PEV.tool_calls := [] |}).
Proof.
  intros llm json_loads.
  apply (solve_rejects_malformed_plan llm json_loads (λ _ _ _, search_unavailable)
           (λ _, "") (λ _ _ _, Ok "answer") PEV.PEVAgent_init "apple ceo"
           {| PEV.prompts := []; PEV.tool_calls := [] |}
           {| PEV.prompts := [PEV.PlanPrompt "apple ceo"]; PEV.tool_calls := [] |}
           (JObj [("steps", JArr [search_step "apple ceo"])])).
  - reflexivity.
  - intros [(steps & H & _) | H]; discriminate H.
Defined.

Section MalformedThoughtFacts.
Import TreeOfThoughts.
Variable llm : nat → prompt → result string.
Variable json_loads : string → result json.

Lemma join_non_string (sep : string) (a : string) (item : json) :
  (∀ s, item ≠ JStr s) →
  ∃ msg, join sep [JStr a; item] = Raise (TypeError msg).
Proof.
  intros H. destruct item; try (by eexists). by destruct (H s).
Qed.

Lemma bind_eq_ok {W A B} (m : M W A) (k : A → M W B) (w w1 : W) (a : A) :
  m w = Some (Ok a, w1) → (m ≫= k) w = k a w1.
Proof. intros H. unfold mbind, M_bind, bind. by rewrite H. Qed.

Lemma bind_eq_raise {W A B} (m : M W A) (k : A → M W B) (w w1 : W) (e : exn) :
  m w = Some (Raise e, w1) → (m ≫= k) w = Some (Raise e, w1).
Proof. intros H. unfold mbind, M_bind, bind. by rewrite H. Qed.

Lemma get_path_from_end (n : nat) (h : heap) (path : list json) :
  get_path_from n h None path = Some path.
Proof. by destruct n. Qed.

Lemma build_tree_non_string (n : nat) (self : TreeOfThoughts) (problem : string)
    (w : world) (response : string) (item : json) (rest : list json) :
  (0 < max_depth self)%Z → (1 <= branching_factor self)%Z →
  llm (List.length (prompts w))
    (ThoughtsPrompt problem "Start solving the problem" (branching_factor self))
  = Ok response →
  parse_response json_loads response = Ok (JArr (item :: rest)) →
  (∀ s, item ≠ JStr s) →
  ∃ msg w',
    build_tree llm json_loads (S n) self problem w = Some (Raise (TypeError msg), w')
    ∧ prompts w'
      = prompts w ++ [ThoughtsPrompt problem "Start solving the problem"
                        (branching_factor self)]
    ∧ List.length (nodes w') = (2 + List.length (nodes w))%nat.
Proof.
  intros Hdepth Hbf Hllm Hparse Hitem.
  set (root := List.length (nodes w)).
  set (r0 := ThoughtNode_new (JStr "Start solving the problem")).
  set (h0 := nodes w ++ [r0]).
  set (q := ThoughtsPrompt problem "Start solving the problem"
              (branching_factor self)) in *.
  assert (Hlen0 : List.length h0 = S root).
  { subst h0 root. rewrite length_app. simpl. lia. }
  assert (Hr0 : h0 !! root = Some r0).
  { subst h0 root. by rewrite lookup_app_r, Nat.sub_diag by lia. }
  assert (Hslice : ∃ rest', slice_to (branching_factor self) (item :: rest)
                            = item :: rest').
  { unfold slice_to. destruct (0 <=? branching_factor self)%Z eqn:E; [|lia].
    destruct (Z.to_nat (branching_factor self)) as [|k] eqn:Ek; [lia|].
    by eexists. }
  destruct Hslice as [rest' Hslice].
  destruct (join_non_string " -> " "Start solving the problem" item Hitem)
    as [msg Hjoin].
  set (wb := {| nodes := h0; prompts := prompts w; levels := levels w ++ [[root]] |}).
  set (wc := {| nodes := h0; prompts := prompts w ++ [q];
                levels := levels w ++ [[root]] |}).
  set (kid0 := set_depth (depth r0 + 1)
                 (set_parent (Some root) (ThoughtNode_new item))).
  set (wd := with_nodes (attach h0 root kid0) wc).
  assert (E1 : node_path root wb
               = Some (Ok [JStr "Start solving the problem"], wb)).
  { unfold node_path, get_path, wb. cbn [nodes]. rewrite Hlen0.
    cbn [get_path_from]. rewrite Hr0. cbn [parent r0 ThoughtNode_new].
    by rewrite get_path_from_end. }
  assert (E2 : generate_thoughts llm json_loads problem
                 [JStr "Start solving the problem"] (branching_factor self) wb
               = Some (Ok (JArr (item :: rest')), wc)).
  { unfold generate_thoughts.
    rewrite (bind_eq_ok _ _ wb wb "Start solving the problem") by reflexivity.
    rewrite (bind_eq_ok _ _ wb wc response).
    2:{ unfold llm_generate, wb, wc. cbn [prompts nodes levels]. fold q.
        by rewrite Hllm. }
    rewrite Hparse. cbn [mbind result_bind slice]. by rewrite Hslice. }
  assert (E3 : expand_thought llm json_loads problem root item [] wc
               = Some (Raise (TypeError msg), wd)).
  { unfold expand_thought.
    rewrite (bind_eq_ok _ _ wc (with_nodes (h0 ++ [ThoughtNode_new item]) wc)
               (List.length h0)) by reflexivity.
    rewrite (bind_eq_ok _ _ _ wd tt).
    2:{ unfold update_heap. cbn [nodes with_nodes].
        by rewrite (add_child_fresh h0 root _ r0 Hr0). }
    rewrite (bind_eq_ok _ _ wd wd [JStr "Start solving the problem"; item]).
    2:{ unfold node_path, get_path, wd. cbn [nodes with_nodes].
        rewrite attach_length, Hlen0. cbn [get_path_from].
        rewrite <- Hlen0, attach_lookup_new.
        cbn [parent kid0 set_depth set_parent].
        rewrite (attach_lookup_node h0 root kid0 r0 Hr0).
        apply (f_equal (λ o, match o with
                             | Some path => Some (Ok path, wd)
                             | None => None
                             end) (get_path_from_end root _ _)). }
    apply bind_eq_raise. unfold evaluate_thought.
    apply bind_eq_raise. unfold lift. by rewrite Hjoin. }
  exists msg, wd. split; [|split].
  - unfold build_tree.
    rewrite (bind_eq_ok _ _ w (with_nodes h0 w) root) by reflexivity.
    apply bind_eq_raise. cbn [level_loop].
    apply Z.ltb_lt in Hdepth. rewrite Hdepth.
    rewrite (bind_eq_ok _ _ _ wb tt) by reflexivity.
    apply bind_eq_raise. cbn [for_queue]. apply bind_eq_raise.
    unfold expand_node. rewrite (bind_eq_ok _ _ _ _ _ E1).
    rewrite (bind_eq_ok _ _ _ _ _ E2).
    rewrite (bind_eq_ok _ _ wc wc (item :: rest')) by reflexivity.
    cbn [for_thoughts]. by apply bind_eq_raise.
  - reflexivity.
  - unfold wd. cbn [nodes with_nodes]. rewrite attach_length, Hlen0. reflexivity.
Qed.

End MalformedThoughtFacts.

(** X23.  [build_tree] does not check the thoughts it gets either.  When
    the LLM's first list of thoughts starts with an item that is not a
    string (an object with the thought inside, say), the call raises
    [TypeError] at the first evaluation, where the path is joined: one
    prompt has been sent, and the root and the first child are left in
    the heap. *)
Theorem build_tree_non_string_thought
    (llm : nat → TreeOfThoughts.prompt → result string)
    (json_loads : string → result json)
    (n : nat) (self : TreeOfThoughts.TreeOfThoughts) (problem : string)
    (w : TreeOfThoughts.world) (response : string) (item : json)
    (rest : list json) :
  (0 < TreeOfThoughts.max_depth self)%Z →
  (1 <= TreeOfThoughts.branching_factor self)%Z →
  llm (List.length (TreeOfThoughts.prompts w))
    (TreeOfThoughts.ThoughtsPrompt problem "Start solving the problem"
       (TreeOfThoughts.branching_factor self))
  = Ok response →
  parse_response json_loads response = Ok (JArr (item :: rest)) →
  (∀ s, item ≠ JStr s) →
  ∃ msg w',
    TreeOfThoughts.build_tree llm json_loads (S n) self problem w
    = Some (Raise (TypeError msg), w')
    ∧ TreeOfThoughts.prompts w'
      = TreeOfThoughts.prompts w
        ++ [TreeOfThoughts.ThoughtsPrompt problem "Start solving the problem"
              (TreeOfThoughts.branching_factor self)]
    ∧ List.length (TreeOfThoughts.nodes w')
      = (2 + List.length (TreeOfThoughts.nodes w))%nat.
Proof. apply build_tree_non_string. Qed.

Lemma build_tree_non_string_thought_witness :
  let llm : nat → TreeOfThoughts.prompt → result string := λ _ _, Ok "objects" in
  let json_loads : string → result json :=
    λ _, Ok (JArr [JObj [("thought", JStr "Measure first")]]) in
  ∃ msg w',
    TreeOfThoughts.build_tree llm json_loads 1
      TreeOfThoughts.TreeOfThoughts_default "problem" empty_world
    = Some (Raise (TypeError msg), w')
    ∧ TreeOfThoughts.prompts w'
      = TreeOfThoughts.prompts empty_world
        ++ [TreeOfThoughts.ThoughtsPrompt "problem" "Start solving the problem"
              (TreeOfThoughts.branching_factor
                 TreeOfThoughts.TreeOfThoughts_default)]
    ∧ List.length (TreeOfThoughts.nodes w')
      = (2 + List.length (TreeOfThoughts.nodes empty_world))%nat.
Proof.
  intros llm json_loads.
  apply (build_tree_non_string_thought llm json_loads 0
           TreeOfThoughts.TreeOfThoughts_default "problem" empty_world "objects"
           (JObj [("thought", JStr "Measure first")]) []).
  - reflexivity.
  - simpl. lia.
  - reflexivity.
  - reflexivity.
  - discriminate.
Defined.

(* ===================================================================== *)
(** * Further properties: the cost of [build_tree]                        *)
(* ===================================================================== *)

Section CostFacts.
Import TreeOfThoughts.
Variable llm : nat → prompt → result string.
Variable json_loads : string → result json.
Variable self : TreeOfThoughts.
Variable problem : string.
Variable root : nat.
Hypothesis branching_nonneg : (0 <= branching_factor self)%Z.

Lemma wp_llm_generate_cost (p : prompt) (Q : string → world → Prop) (w : world) :
  (∀ r w', nodes w' = nodes w → levels w' = levels w →
           List.length (prompts w') = S (List.length (prompts w)) → Q r w') →
  wp (llm_generate llm p) Q w.
Proof.
  intros H. apply wp_llm_generate. intros r. apply H; cbn [nodes levels prompts];
    [done | done |]. rewrite length_app. simpl. lia.
Qed.

Lemma evaluate_thought_cost (path : list json) (w : world) :
  wp (evaluate_thought llm json_loads problem path) (one_prompt w) w.
Proof.
  unfold evaluate_thought.
  apply wp_bind, wp_lift. intros path_text _.
  apply wp_bind, wp_llm_generate_cost. intros response w' Hn Hl Hp.
  destruct (parse_response json_loads response) as [v|[]];
    first [by apply wp_ret | by apply wp_lift].
Qed.

Lemma is_terminal_check_cost (path : list json) (w : world) :
  wp (is_terminal_check llm json_loads problem path) (one_prompt w) w.
Proof.
  unfold is_terminal_check.
  apply wp_bind, wp_lift. intros path_text _.
  apply wp_bind, wp_llm_generate_cost. intros response w' Hn Hl Hp.
  destruct (parse_response json_loads response) as [v|e]; simpl.
  - destruct (get v "is_complete" (JBool false)) as [x|[]];
      first [by apply wp_ret | by apply wp_lift].
  - destruct e; first [by apply wp_ret | by apply wp_lift].
Qed.

Lemma generate_thoughts_cost (path : list json) (n : Z) (w : world) :
  wp (generate_thoughts llm json_loads problem path n) (one_prompt w) w.
Proof.
  unfold generate_thoughts.
  apply wp_bind, wp_lift. intros path_context _.
  apply wp_bind, wp_llm_generate_cost. intros response w' Hn Hl Hp.
  destruct (parse_response json_loads response) as [v|e]; simpl.
  - destruct (slice v n) as [t|e] eqn:Hs.
    + by apply wp_lift.
    + destruct e; first [by apply wp_ret | by apply wp_lift].
  - destruct e; first [by apply wp_ret | by apply wp_lift].
Qed.

Lemma expand_thought_cost (node : nat) (item : json) (nq : list nat)
    (w : world) (pn : ThoughtNode) :
  links_ok root (nodes w) → (root <= node)%nat → nodes w !! node = Some pn →
  wp (expand_thought llm json_loads problem node item nq)
     (λ nq' w',
        List.length (prompts w') = (2 + List.length (prompts w))%nat
        ∧ (List.length nq' <= S (List.length nq))%nat) w.
Proof.
  intros Hl Hroot Hpn. pose proof (lookup_lt_Some _ _ _ Hpn) as Hlt.
  set (h := nodes w) in *.
  set (kid0 := set_depth (depth pn + 1) (set_parent (Some node) (ThoughtNode_new item))).
  unfold expand_thought.
  apply wp_bind, wp_alloc. apply wp_bind, wp_update_heap.
  cbn [nodes with_nodes]. fold h.
  rewrite (add_child_fresh h node _ pn Hpn). fold kid0.
  change (alter (append_child (List.length h)) node h ++ [kid0])
    with (attach h node kid0).
  apply wp_bind, wp_node_path.
  { cbn [nodes with_nodes]. rewrite attach_length.
    apply (links_ok_path root).
    - apply links_ok_attach; [done | lia | done].
    - lia.
    - lia.
    - rewrite attach_length. lia. }
  intros new_path.
  apply wp_bind. eapply wp_mono; [apply evaluate_thought_cost|].
  intros evaluation w1 (Hn1 & Hv1 & Hp1). cbn [nodes levels prompts with_nodes] in *.
  apply wp_bind, wp_lift. intros overall _.
  apply wp_bind, wp_update_heap.
  apply wp_bind. eapply wp_mono; [apply is_terminal_check_cost|].
  intros terminal w2 (Hn2 & Hv2 & Hp2). cbn [nodes levels prompts with_nodes] in *.
  apply wp_bind, wp_update_heap.
  apply wp_bind, wp_lift. intros [] Hfmt.
  destruct (truthy terminal) eqn:Ht.
  - apply wp_ret. cbn [prompts with_nodes]. split; lia.
  - apply wp_bind, wp_lift. intros good Hgood.
    destruct good; apply wp_ret; cbn [prompts with_nodes];
      rewrite ?length_app; simpl; split; lia.
Qed.

Lemma for_thoughts_cost (lvl : Z) (node : nat) (rest : list nat)
    (lv old : list (list nat)) (items : list json) :
  ∀ nq w,
    thoughts_inv self root lvl node rest nq (List.length items) lv old w →
    wp (for_thoughts llm json_loads problem node items nq)
       (λ nq' w',
          thoughts_inv self root lvl node rest nq' 0 lv old w'
          ∧ List.length (prompts w')
            = (2 * List.length items + List.length (prompts w))%nat
          ∧ (List.length nq' <= List.length items + List.length nq)%nat
          ∧ List.length (nodes w')
            = (List.length items + List.length (nodes w))%nat) w.
Proof.
  induction items as [|item items IH]; intros nq w Hinv.
  - apply wp_ret. split; [done|]. simpl. split; [lia|]. split; lia.
  - cbn [for_thoughts]. apply wp_bind.
    pose proof Hinv as (Hl & _ & Hroot & (pn & Hpn & _) & _).
    eapply wp_mono.
    { apply wp_and.
      - by apply (expand_thought_inv llm json_loads self problem root).
      - by apply (expand_thought_cost node item nq w pn). }
    intros nq1 w1 [(Hinv1 & kid & Hn1 & _) (Hp1 & Hq1)].
    eapply wp_mono; [by apply IH|].
    intros nq' w' (Hinv' & Hp' & Hq' & Hn').
    split; [done|]. rewrite Hp', Hp1, Hn', Hn1, attach_length.
    cbn [List.length]. split; [lia|]. split; lia.
Qed.

Lemma expand_node_cost (lvl : Z) (node : nat) (rest nq : list nat)
    (lv old : list (list nat)) (w : world) :
  let B := Z.to_nat (branching_factor self) in
  queue_inv self root lvl (node :: rest) nq lv old w →
  wp (expand_node llm json_loads self problem node nq)
     (λ nq' w',
        queue_inv self root lvl rest nq' lv old w'
        ∧ (List.length (prompts w') <= 1 + 2 * B + List.length (prompts w))%nat
        ∧ (List.length nq' <= B + List.length nq)%nat
        ∧ (List.length (nodes w') <= B + List.length (nodes w))%nat) w.
Proof.
  intros B Hinv.
  destruct Hinv as (Hl & Hb & Hlvl & Hqq & Hnq & Hcar & Hlv & Hold).
  destruct Hqq as [Hnd Hq].
  destruct (Hq node ltac:(by apply elem_of_cons; left))
    as (Hroot & pn & Hpn & Hpc & Hpd).
  pose proof (lookup_lt_Some _ _ _ Hpn) as Hlt.
  apply NoDup_cons in Hnd as [Hnotin Hnd].
  unfold expand_node. apply wp_bind, wp_node_path.
  { apply (links_ok_path root); [done | lia | lia | done]. }
  intros current_path. apply wp_bind.
  eapply wp_mono.
  { apply wp_and.
    - by apply generate_thoughts_frame.
    - apply generate_thoughts_cost. }
  intros thoughts w1 [[[Hn1 Hv1] Hlen] (_ & _ & Hp1)].
  apply wp_bind, wp_lift. intros items Hitems.
  specialize (Hlen items Hitems).
  eapply wp_mono.
  - apply (for_thoughts_cost lvl node rest lv old). unfold thoughts_inv.
    rewrite Hn1.
    split; [done|]. split; [done|]. split; [done|]. split.
    { exists pn. rewrite Hpc. simpl. split; [done|]. split; [done|]. lia. }
    split; [done|]. split.
    { split; [done|]. intros i Hi. apply Hq, elem_of_cons. by right. }
    split; [exact Hnotin|]. split; [exact Hnq|]. split; [exact Hcar|].
    split; [congruence | exact Hold].
  - intros nq' w' (Hinv' & Hp' & Hq' & Hn').
    destruct Hinv' as (Hl' & Hb' & _ & _ & _ & Hrest' & _ & Hnq' & Hcar' & Hlv' & Hold').
    split.
    { split; [exact Hl'|]. split; [exact Hb'|]. split; [exact Hlvl|].
      split; [exact Hrest'|]. split; [exact Hnq'|]. split; [exact Hcar'|].
      split; [exact Hlv' | exact Hold']. }
    rewrite Hp', Hp1, Hn', Hn1. subst B. split; [lia|]. split; lia.
Qed.

Lemma for_queue_cost (lvl : Z) (lv old : list (list nat)) (queue : list nat) :
  let B := Z.to_nat (branching_factor self) in
  ∀ nq w,
    queue_inv self root lvl queue nq lv old w →
    wp (for_queue llm json_loads self problem queue nq)
       (λ nq' w',
          queue_inv self root lvl [] nq' lv old w'
          ∧ (List.length (prompts w')
             <= List.length queue * (1 + 2 * B) + List.length (prompts w))%nat
          ∧ (List.length nq' <= List.length queue * B + List.length nq)%nat
          ∧ (List.length (nodes w')
             <= List.length queue * B + List.length (nodes w))%nat) w.
Proof.
  intros B. induction queue as [|node rest IH]; intros nq w Hinv.
  - apply wp_ret. split; [done|]. simpl. split; [lia|]. split; lia.
  - cbn [for_queue]. apply wp_bind.
    eapply wp_mono; [by apply expand_node_cost|].
    intros nq1 w1 (Hinv1 & Hp1 & Hq1 & Hn1).
    eapply wp_mono; [by apply IH|].
    intros nq' w' (Hinv' & Hp' & Hq' & Hn').
    split; [done|]. cbn [List.length]. fold B in Hp1, Hq1, Hn1.
    split; [lia|]. split; lia.
Qed.

Lemma level_loop_cost (base : list (list nat)) (n : nat) :
  let B := Z.to_nat (branching_factor self) in
  ∀ queue lvl logged w,
    links_ok root (nodes w) → bounds_ok self root (nodes w) →
    (0 <= lvl <= max_depth self)%Z →
    queue_ok root (nodes w) lvl queue →
    levels w = base ++ logged → Z.of_nat (List.length logged) = lvl →
    Forall (carried_ok (nodes w)) (tail logged) →
    (logged = [] ∨ carried_ok (nodes w) queue) →
    (max_depth self - lvl <= Z.of_nat n)%Z →
    wp (level_loop llm json_loads n self problem queue lvl)
       (λ _ w',
          (List.length (prompts w')
           <= (1 + 2 * B) * (List.length queue
                             * geometric B (Z.to_nat (max_depth self - lvl)))
              + List.length (prompts w))%nat
          ∧ (List.length (nodes w')
             <= B * (List.length queue
                     * geometric B (Z.to_nat (max_depth self - lvl)))
                + List.length (nodes w))%nat) w.
Proof.
  intros B. induction n as [|n IH];
    intros queue lvl logged w Hl Hb Hlvl Hq Hlv Hlen Hold Hcar Hn.
  - destruct queue; [apply wp_ret; split; lia|]. simpl.
    destruct (lvl <? max_depth self)%Z eqn:E; [lia | apply wp_ret; split; lia].
  - destruct queue as [|node rest]; [apply wp_ret; split; lia|].
    cbn [level_loop].
    destruct (lvl <? max_depth self)%Z eqn:E; [|apply wp_ret; split; lia].
    apply Z.ltb_lt in E.
    apply wp_bind, wp_log_level. apply wp_bind.
    set (queue := node :: rest) in *.
    assert (Hold' : Forall (carried_ok (nodes w)) (tail (logged ++ [queue]))).
    { destruct logged as [|q0 logged]; [by constructor|].
      destruct Hcar as [|Hcar]; [done|]. simpl in *.
      apply Forall_app. split; [done|]. by constructor. }
    eapply wp_mono.
    + apply (for_queue_cost lvl (base ++ logged ++ [queue])
               (tail (logged ++ [queue])) queue []); cbn [nodes levels].
      split; [done|]. split; [done|]. split; [lia|]. split; [done|].
      split; [split; [constructor | set_solver]|].
      split; [intros i Hi; by apply elem_of_nil in Hi|].
      split; [by rewrite Hlv, <- app_assoc | done].
    + intros nq' w' ((Hl' & Hb' & _ & _ & Hnq' & Hcar' & Hlv' & Holdq)
                     & Hp1 & Hq1 & Hn1).
      cbn [prompts nodes List.length] in Hp1, Hq1, Hn1. fold B in Hp1, Hq1, Hn1.
      eapply wp_mono.
      * apply (IH nq' (lvl + 1)%Z (logged ++ [queue])); try done; try lia.
        -- rewrite length_app. simpl. lia.
        -- by right.
      * intros _ w2 [Hp2 Hn2].
        replace (Z.to_nat (max_depth self - lvl))
          with (S (Z.to_nat (max_depth self - (lvl + 1)))) by lia.
        set (g := geometric B (Z.to_nat (max_depth self - (lvl + 1)))) in *.
        cbn [geometric]. fold g.
        assert (Hmono : (List.length nq' * g <= List.length queue * B * g)%nat).
        { apply Nat.mul_le_mono_r. lia. }
        split; nia.
Qed.

Lemma build_tree_cost (w : world) :
  let B := Z.to_nat (branching_factor self) in
  let D := Z.to_nat (max_depth self) in
  root = List.length (nodes w) → (0 <= max_depth self)%Z →
  wp (build_tree llm json_loads D self problem)
     (λ r w',
        (List.length (prompts w')
         <= (1 + 2 * B) * geometric B D + List.length (prompts w))%nat
        ∧ (List.length (nodes w') <= geometric B (S D) + List.length (nodes w))%nat) w.
Proof.
  intros B D Hroot Hdepth. unfold build_tree.
  apply wp_bind, wp_alloc. rewrite <- Hroot. apply wp_bind.
  set (r0 := ThoughtNode_new (JStr "Start solving the problem")).
  assert (Hlook : ∀ i n, (root <= i)%nat → (nodes w ++ [r0]) !! i = Some n →
                         i = root ∧ n = r0).
  { intros i n Hi Hn. pose proof (lookup_lt_Some _ _ _ Hn) as Hlt.
    rewrite length_app in Hlt. simpl in Hlt.
    assert (i = root) as -> by lia. split; [done|].
    rewrite lookup_app_r, Hroot, Nat.sub_diag in Hn by lia.
    by injection Hn as <-. }
  eapply wp_mono.
  - apply (level_loop_cost (levels w) D [root] 0%Z []);
      cbn [nodes levels with_nodes].
    + intros i n p Hi Hn Hp. destruct (Hlook i n Hi Hn) as [-> ->]. done.
    + intros i n Hi Hn. destruct (Hlook i n Hi Hn) as [-> ->]. simpl.
      split; [lia|]. split; [lia|]. intros c Hc. by apply elem_of_nil in Hc.
    + lia.
    + split; [apply NoDup_singleton|].
      intros i ->%list_elem_of_singleton. split; [done|]. exists r0.
      split; [|done]. by rewrite lookup_app_r, Hroot, Nat.sub_diag by lia.
    + by rewrite app_nil_r.
    + done.
    + constructor.
    + by left.
    + subst D. lia.
  - intros u w' [Hp Hn]. apply wp_ret.
    cbn [prompts nodes with_nodes List.length] in Hp, Hn.
    rewrite length_app in Hn. simpl in Hn.
    replace (Z.to_nat (max_depth self - 0)) with D in Hp, Hn by (subst D; lia).
    fold B in Hp, Hn. cbn [geometric]. split; lia.
Qed.

End CostFacts.

(** X24.  The cost of [build_tree].  With [b = branching_factor] and
    [d = max_depth], both non-negative, a call that returns has sent at
    most [(1 + 2b)(1 + b + ... + b^(d-1))] prompts (one to generate the
    thoughts of each node it expanded, two for each thought) and created
    at most [1 + b + ... + b^d] nodes: 280 prompts and 121 nodes with the
    defaults, 35 prompts and 15 nodes with the values [main] uses. *)
Theorem build_tree_cost_bound
    (llm : nat → TreeOfThoughts.prompt → result string)
    (json_loads : string → result json)
    (self : TreeOfThoughts.TreeOfThoughts) (problem : string)
    (w : TreeOfThoughts.world) :
  (0 <= TreeOfThoughts.max_depth self)%Z →
  (0 <= TreeOfThoughts.branching_factor self)%Z →
  let b := Z.to_nat (TreeOfThoughts.branching_factor self) in
  let d := Z.to_nat (TreeOfThoughts.max_depth self) in
  TreeOfThoughts.geometric 3 4 = 40%nat
  ∧ TreeOfThoughts.geometric 3 5 = 121%nat
  ∧ TreeOfThoughts.geometric 2 3 = 7%nat
  ∧ TreeOfThoughts.geometric 2 4 = 15%nat
  ∧ ∃ out,
      TreeOfThoughts.build_tree llm json_loads d self problem w = Some out
      ∧ ∀ root w', out = (Ok root, w') →
          (List.length (TreeOfThoughts.prompts w')
           <= (1 + 2 * b) * TreeOfThoughts.geometric b d
              + List.length (TreeOfThoughts.prompts w))%nat
          ∧ (List.length (TreeOfThoughts.nodes w')
             <= TreeOfThoughts.geometric b (S d)
                + List.length (TreeOfThoughts.nodes w))%nat.
Proof.
  intros Hdepth Hbf b d. repeat (split; [reflexivity|]).
  destruct (wp_total _ _ _
              (build_tree_cost llm json_loads self problem
                 (List.length (TreeOfThoughts.nodes w)) Hbf w eq_refl Hdepth))
    as (out & Hout & Hpost).
  exists out. split; [exact Hout|]. intros root w' ->.
  exact (Hpost root w' eq_refl).
Qed.

Lemma build_tree_cost_bound_witness :
  let b := Z.to_nat (TreeOfThoughts.branching_factor
                       TreeOfThoughts.TreeOfThoughts_default) in
  let d := Z.to_nat (TreeOfThoughts.max_depth
                       TreeOfThoughts.TreeOfThoughts_default) in
  TreeOfThoughts.geometric 3 4 = 40%nat
  ∧ TreeOfThoughts.geometric 3 5 = 121%nat
  ∧ TreeOfThoughts.geometric 2 3 = 7%nat
  ∧ TreeOfThoughts.geometric 2 4 = 15%nat
  ∧ ∃ out,
      TreeOfThoughts.build_tree prose_llm no_json d
        TreeOfThoughts.TreeOfThoughts_default "problem" empty_world = Some out
      ∧ ∀ root w', out = (Ok root, w') →
          (List.length (TreeOfThoughts.prompts w')
           <= (1 + 2 * b) * TreeOfThoughts.geometric b d
              + List.length (TreeOfThoughts.prompts empty_world))%nat
          ∧ (List.length (TreeOfThoughts.nodes w')
             <= TreeOfThoughts.geometric b (S d)
                + List.length (TreeOfThoughts.nodes empty_world))%nat.
Proof.
  apply (build_tree_cost_bound prose_llm no_json
           TreeOfThoughts.TreeOfThoughts_default "problem" empty_world).
  - simpl. lia.
  - simpl. lia.
Defined.

(* ===================================================================== *)
(** * Further properties: the loop of pattern 35 never re-plans           *)
(* ===================================================================== *)

Section ReplanFacts.
Import PEV.
Variable llm : nat → prompt → result string.
Variable json_loads : string → result json.
Variable run_tool : nat → string → json → json.
Variable str_of : json → string.




Lemma quiet_raise {A} (e : exn) : quiet (raise e : M world A).
Proof. by intros w out w' [= <- <-]. Qed.







End ReplanFacts.

